(** * Account-Manager Telegram bot: parser, ledger and report formatter

    A shallow embedding of the text-to-transaction parsers, the balance
    aggregation and the report formatters of the bot, in its in-memory
    version ([main.ts]) and in its persisted version (the store module, the
    parser/formatter module and the handlers of the bot), with the
    properties of its specification and further properties of the code.

    Conventions of the embedding.
    - A JavaScript string is the list of its UTF-16 code units ([list N]).
    - A value that may be [undefined] is an [option].
    - A JavaScript number produced by [parseInt], by sums of such numbers
      or by their products with 1 and -1 is [NaN], an infinity or an integer
      that binary64 represents; reading and adding round to the nearest
      such value ([binary64]). [-0] is identified with [0]: the program
      cannot tell them apart.
    - A function that can throw returns a [completion]. *)

From Stdlib Require Import ZArith NArith List Lia Bool String Ascii.
From Stdlib Require Import Floats.PrimFloat.
From Stdlib Require DecimalN DecimalPos.
From stdpp Require Import base option list gmap.

Local Open Scope N_scope.

(** ** Strings *)

Abbreviation jsstring := (list N).

(** Code units of an ASCII literal. *)
Fixpoint lit (s : string) : jsstring :=
  match s with
  | EmptyString => []
  | String a s' => N_of_ascii a :: lit s'
  end.

Definition LF : N := 10.
Definition quote : N := 34.

(** [WhiteSpace] and [LineTerminator] code units: the characters removed by
    [String.prototype.trim] and matched by the class [\s]. *)
Definition isWhiteSpace (c : N) : bool :=
  match c with
  | 9 | 10 | 11 | 12 | 13 | 32 | 160 | 5760
  | 8232 | 8233 | 8239 | 8287 | 12288 | 65279 => true
  | _ => (8192 <=? c) && (c <=? 8202)
  end.

(** Line terminators, the characters [.] does not match. *)
Definition isLineTerminator (c : N) : bool :=
  match c with
  | 10 | 13 | 8232 | 8233 => true
  | _ => false
  end.

Definition isDigit (c : N) : bool := (48 <=? c) && (c <=? 57).

Fixpoint trimStart (s : jsstring) : jsstring :=
  match s with
  | a :: s' => if isWhiteSpace a then trimStart s' else s
  | [] => []
  end.

Definition trimEnd (s : jsstring) : jsstring := rev (trimStart (rev s)).

Definition trim (s : jsstring) : jsstring := trimEnd (trimStart s).

(** [s.split(sep)] for a one-character separator. *)
Fixpoint split (sep : N) (s : jsstring) : list jsstring :=
  match s with
  | [] => [[]]
  | a :: s' =>
      if a =? sep then [] :: split sep s'
      else match split sep s' with
           | h :: t => (a :: h) :: t
           | [] => [[a]]
           end
  end.

(** [parts.join(sep)]. *)
Fixpoint join (sep : jsstring) (parts : list jsstring) : jsstring :=
  match parts with
  | [] => []
  | [p] => p
  | p :: rest => p ++ sep ++ join sep rest
  end.

Definition startsWith (s : jsstring) (c : N) : bool :=
  match s with
  | a :: _ => a =? c
  | [] => false
  end.

(** Truthiness of a string: only the empty string is falsy. *)
Definition truthy (s : jsstring) : bool :=
  match s with [] => false | _ => true end.

Definition string_eqb (a b : jsstring) : bool := bool_decide (a = b).

(** ** Numbers *)

Inductive number : Type :=
  | NaN
  | Infinity (negative : bool)
  | Num (z : Z).

(** The Number value for an integer: the nearest value of binary64, the
    even one of two that are equally near, and an infinity when the
    rounded magnitude reaches 2^1024. Integers below 2^53 in magnitude are
    their own Number value. *)
Definition binary64 (z : Z) : number :=
  let m := Z.abs z in
  let shift := (Z.log2 m - 52)%Z in
  if (shift <=? 0)%Z then Num z
  else
    let q := (m / 2 ^ shift)%Z in
    let r := (m mod 2 ^ shift)%Z in
    let half := (2 ^ (shift - 1))%Z in
    let q' := if (half <? r)%Z || ((r =? half)%Z && Z.odd q) then (q + 1)%Z else q in
    if (2 ^ 1024 <=? q' * 2 ^ shift)%Z then Infinity (z <? 0)%Z
    else Num (Z.sgn z * (q' * 2 ^ shift)).

(** [a + b] *)
Definition number_add (a b : number) : number :=
  match a, b with
  | NaN, _ | _, NaN => NaN
  | Infinity s, Infinity s' => if Bool.eqb s s' then Infinity s else NaN
  | Infinity s, Num _ | Num _, Infinity s => Infinity s
  | Num x, Num y => binary64 (x + y)
  end.

(** [a * b] *)
Definition number_mul (a b : number) : number :=
  match a, b with
  | NaN, _ | _, NaN => NaN
  | Infinity s, Infinity s' => Infinity (xorb s s')
  | Infinity s, Num y | Num y, Infinity s =>
      if (y =? 0)%Z then NaN else Infinity (xorb s (y <? 0)%Z)
  | Num x, Num y => binary64 (x * y)
  end.

(** [-a] *)
Definition number_neg (a : number) : number :=
  match a with
  | NaN => NaN
  | Infinity s => Infinity (negb s)
  | Num z => Num (- z)
  end.

(** [n >= 0]; every comparison with [NaN] is false. *)
Definition number_ge0 (a : number) : bool :=
  match a with
  | Num x => (0 <=? x)%Z
  | Infinity negative => negb negative
  | NaN => false
  end.

Definition number_abs (a : number) : number :=
  match a with
  | Num x => Num (Z.abs x)
  | Infinity _ => Infinity false
  | NaN => NaN
  end.

Definition number_isNaN (a : number) : bool :=
  match a with NaN => true | _ => false end.

Definition number_eqb (a b : number) : bool :=
  match a, b with
  | Num x, Num y => (x =? y)%Z
  | Infinity s, Infinity s' => Bool.eqb s s'
  | _, _ => false
  end.

Fixpoint uint_chars (d : Decimal.uint) : jsstring :=
  match d with
  | Decimal.Nil => []
  | Decimal.D0 d => 48 :: uint_chars d
  | Decimal.D1 d => 49 :: uint_chars d
  | Decimal.D2 d => 50 :: uint_chars d
  | Decimal.D3 d => 51 :: uint_chars d
  | Decimal.D4 d => 52 :: uint_chars d
  | Decimal.D5 d => 53 :: uint_chars d
  | Decimal.D6 d => 54 :: uint_chars d
  | Decimal.D7 d => 55 :: uint_chars d
  | Decimal.D8 d => 56 :: uint_chars d
  | Decimal.D9 d => 57 :: uint_chars d
  end.

(** The decimal digits of a natural number. *)
Definition digitsOf (n : Z) : jsstring := uint_chars (N.to_uint (Z.to_N n)).

(** The digits [s] and the exponent [e] of [Number::toString]: the
    largest [e] for which some [s * 10^e] has [x] as its Number value (so
    that [s] has as few digits as possible), and of the two candidates the
    nearer to [x], the even one on a tie. *)
Fixpoint shortest (fuel : nat) (e : Z) (x : Z) : Z * Z :=
  match fuel with
  | O => (x, 0%Z)
  | S fuel' =>
      let lo := (x / 10 ^ e)%Z in
      let hi := (lo + 1)%Z in
      let okLo := (0 <? lo)%Z && number_eqb (binary64 (lo * 10 ^ e)) (Num x) in
      let okHi := number_eqb (binary64 (hi * 10 ^ e)) (Num x) in
      let dLo := (x - lo * 10 ^ e)%Z in
      let dHi := (hi * 10 ^ e - x)%Z in
      if okLo && okHi then
        if (dLo <? dHi)%Z then (lo, e)
        else if (dHi <? dLo)%Z then (hi, e)
        else if Z.even lo then (lo, e) else (hi, e)
      else if okLo then (lo, e)
      else if okHi then (hi, e)
      else shortest fuel' (e - 1)%Z x
  end.

(** [Number::toString] of a natural number that binary64 represents:
    below 2^53 its digits; from there on the shortest digits that read
    back as the same number, followed by zeros while there are at most 21
    digits in all, and in exponent notation beyond. *)
Definition integerToString (x : Z) : jsstring :=
  if (x <? 2 ^ 53)%Z then digitsOf x
  else
    let d := length (digitsOf x) in
    let '(s, e) := shortest (S d) (Z.of_nat d) x in
    let k := Z.of_nat (length (digitsOf s)) in
    let n := (k + e)%Z in
    if (n <=? 21)%Z then digitsOf s ++ repeat 48 (Z.to_nat e)
    else
      match digitsOf s with
      | d1 :: [] => [d1] ++ lit "e+" ++ digitsOf (n - 1)
      | d1 :: rest => [d1] ++ lit "." ++ rest ++ lit "e+" ++ digitsOf (n - 1)
      | [] => []
      end.

(** [String(n)], as a template literal applies it. *)
Definition number_toString (a : number) : jsstring :=
  match a with
  | NaN => lit "NaN"
  | Infinity negative => (if negative then lit "-" else []) ++ lit "Infinity"
  | Num z => (if (z <? 0)%Z then lit "-" else []) ++ integerToString (Z.abs z)
  end.

(** Value of a digit in radix 10 or 16. *)
Definition digitValue (radix : Z) (c : N) : option Z :=
  if isDigit c then Some (Z.of_N (c - 48))
  else if (radix =? 16)%Z && (97 <=? c) && (c <=? 102) then Some (Z.of_N (c - 87))
  else if (radix =? 16)%Z && (65 <=? c) && (c <=? 70) then Some (Z.of_N (c - 55))
  else None.

(** The longest prefix of digits of [s], read in the given radix: the value
    accumulated so far and whether a digit was seen. *)
Fixpoint readDigits (radix : Z) (s : jsstring) (acc : Z) (seen : bool) : option Z :=
  match s with
  | a :: s' =>
      match digitValue radix a with
      | Some d => readDigits radix s' (radix * acc + d)%Z true
      | None => if seen then Some acc else None
      end
  | [] => if seen then Some acc else None
  end.

(** The sign a numeric text begins with, and the text after it. *)
Definition readSign (str : jsstring) : Z * jsstring :=
  match str with
  | 45 :: rest => ((-1)%Z, rest)
  | 43 :: rest => (1%Z, rest)
  | _ => (1%Z, str)
  end.

(** The radix a prefix [0x] or [0X] selects, and the text after it. *)
Definition readRadix (str : jsstring) : Z * jsstring :=
  match str with
  | 48 :: 120 :: rest => (16%Z, rest)
  | 48 :: 88 :: rest => (16%Z, rest)
  | _ => (10%Z, str)
  end.

(** [parseInt(v)] without a radix argument: leading white space is skipped,
    a sign is read, a [0x] prefix selects radix 16, and the longest prefix
    of digits is read; no digit gives [NaN], and the integer read is
    returned as its Number value. [undefined] is first converted to the
    string ["undefined"]. *)
Definition parseInt (v : option jsstring) : number :=
  let inputString := match v with Some s => s | None => lit "undefined" end in
  let '(sign, str) := readSign (trimStart inputString) in
  let '(R, str) := readRadix str in
  match readDigits R str 0%Z false with
  | Some mathInt => binary64 (sign * mathInt)
  | None => NaN
  end.

(** ** Completions *)

Inductive exn : Type :=
  | TypeError
  | Error (message : jsstring).

Inductive completion (A : Type) : Type :=
  | Return (a : A)
  | Throw (e : exn).
Arguments Return {A} a.
Arguments Throw {A} e.

#[global] Instance completion_ret : MRet completion := fun A a => Return a.
#[global] Instance completion_bind : MBind completion := fun A B f x =>
  match x with
  | Return a => f a
  | Throw e => Throw e
  end.

(** [v.trim()] on a value that may be [undefined]. *)
Definition trim_of (v : option jsstring) : completion jsstring :=
  match v with
  | Some s => Return (trim s)
  | None => Throw TypeError
  end.

(** ** Regular expressions

    The fragment of ECMAScript patterns the two parsers use: character
    classes, greedy and lazy repetition of a class, sequence, alternation,
    capturing groups and the two anchors. Matching is by backtracking, with
    the priorities of the language: the left alternative first, the longest
    repetition first when greedy and the shortest first when lazy. *)

Inductive charclass : Type :=
  | CDot                   (* .     *)
  | CSpace                 (* \s    *)
  | CDigit                 (* \d    *)
  | CSet (l : list N).     (* [...] *)

Definition mem (cc : charclass) (a : N) : bool :=
  match cc with
  | CDot => negb (isLineTerminator a)
  | CSpace => isWhiteSpace a
  | CDigit => isDigit a
  | CSet l => bool_decide (a ∈ l)
  end.

Inductive regex : Type :=
  | Eps
  | Atom (cc : charclass)
  | Star (greedy : bool) (cc : charclass)
  | Seq (r1 r2 : regex)
  | Alt (r1 r2 : regex)
  | Group (n : nat) (r : regex)
  | AssertStart            (* ^ *)
  | AssertEnd.             (* $ *)

(** [cc+] and [cc+?] *)
Definition Plus (greedy : bool) (cc : charclass) : regex :=
  Seq (Atom cc) (Star greedy cc).
(** [r?] *)
Definition Opt (r : regex) : regex := Alt r Eps.

Abbreviation captures := (gmap nat jsstring).

(** A continuation receives the index reached, the rest of the input and
    the captures made so far. *)
Definition cont : Type := nat → jsstring → captures → option captures.

Fixpoint repeatClass (greedy : bool) (cc : charclass)
    (i : nat) (s : jsstring) (c : captures) (k : cont) : option captures :=
  match s with
  | a :: s' =>
      if mem cc a then
        if greedy then
          match repeatClass greedy cc (S i) s' c k with
          | Some x => Some x
          | None => k i s c
          end
        else
          match k i s c with
          | Some x => Some x
          | None => repeatClass greedy cc (S i) s' c k
          end
      else k i s c
  | [] => k i s c
  end.

Fixpoint matcher (r : regex) (i : nat) (s : jsstring) (c : captures) (k : cont)
    : option captures :=
  match r with
  | Eps => k i s c
  | Atom cc =>
      match s with
      | a :: s' => if mem cc a then k (S i) s' c else None
      | [] => None
      end
  | Star greedy cc => repeatClass greedy cc i s c k
  | Seq r1 r2 => matcher r1 i s c (fun i' s' c' => matcher r2 i' s' c' k)
  | Alt r1 r2 =>
      match matcher r1 i s c k with
      | Some x => Some x
      | None => matcher r2 i s c k
      end
  | Group n r =>
      matcher r i s c (fun i' s' c' => k i' s' (<[n := take (i' - i) s]> c'))
  | AssertStart => if (i =? 0)%nat then k i s c else None
  | AssertEnd => match s with [] => k i s c | _ => None end
  end.

Definition accept : cont := fun _ _ c => Some c.

(** [s.match(r)] for a pattern without the [g] flag: the match is tried at
    index 0, then 1, ... and the first success is returned. *)
Fixpoint search (r : regex) (i : nat) (s : jsstring) : option captures :=
  match matcher r i s ∅ accept with
  | Some c => Some c
  | None =>
      match s with
      | [] => None
      | _ :: s' => search r (S i) s'
      end
  end.

Definition regex_match (r : regex) (s : jsstring) : option captures :=
  search r 0 s.

(** ** Denotation of a pattern

    [den r i w rest c c']: at index [i], the pattern [r] can match the
    word [w] followed by [rest], turning the captures [c] into [c']. It
    says which matches exist, not which one the backtracking search finds
    first. *)

Fixpoint den (r : regex) (i : nat) (w rest : jsstring) (c c' : captures) : Prop :=
  match r with
  | Eps => w = [] ∧ c' = c
  | Atom cc => ∃ a, w = [a] ∧ mem cc a = true ∧ c' = c
  | Star _ cc => Forall (λ a, mem cc a = true) w ∧ c' = c
  | Seq r1 r2 =>
      ∃ w1 w2 c1, w = w1 ++ w2 ∧ den r1 i w1 (w2 ++ rest) c c1
                  ∧ den r2 (i + length w1) w2 rest c1 c'
  | Alt r1 r2 => den r1 i w rest c c' ∨ den r2 i w rest c c'
  | Group n r => ∃ c1, den r i w rest c c1 ∧ c' = <[n := w]> c1
  | AssertStart => i = 0%nat ∧ w = [] ∧ c' = c
  | AssertEnd => rest = [] ∧ w = [] ∧ c' = c
  end.

(** ** The types module *)

Inductive Sign : Type := Positive | Negative.

Module ParsedTransaction.
Record t : Type := { label : jsstring; sign : Sign; amount : number }.
End ParsedTransaction.

Module Account.
Record t : Type := { id : jsstring; name : jsstring }.
End Account.

Module Transaction.
Record t (num : Type) : Type :=
  { id : jsstring; label : jsstring; amount : num; account : jsstring }.
Arguments id {num} _.
Arguments label {num} _.
Arguments amount {num} _.
Arguments account {num} _.
End Transaction.

Module CreateTransactionParams.
Record t (num : Type) : Type :=
  { label : jsstring; amount : num; accountId : jsstring }.
Arguments label {num} _.
Arguments amount {num} _.
Arguments accountId {num} _.
End CreateTransactionParams.

Module AccountWithTransactions.
Record t (num : Type) : Type :=
  { id : jsstring; name : jsstring; transactions : list (Transaction.t num) }.
Arguments id {num} _.
Arguments name {num} _.
Arguments transactions {num} _.
End AccountWithTransactions.

(** [Account & { balance: number }], the element type of
    [getAllAccountsWithBalances]. *)
Module AccountWithBalance.
Record t (num : Type) : Type :=
  { id : jsstring; name : jsstring; balance : num }.
Arguments id {num} _.
Arguments name {num} _.
Arguments balance {num} _.
End AccountWithBalance.

(** What the store and the formatter ask of the amounts they are given.
    [number] is the model of the amounts the parsers produce and of their
    sums; [float] is the binary64 representation itself, where an amount
    may also be fractional. *)
Class Number (num : Type) : Type := {
  num_zero : num;
  num_add : num → num → num;
  num_ge0 : num → bool;
  num_abs : num → num;
  num_isNaN : num → bool;
}.

#[global] Instance number_Number : Number number := {
  num_zero := Num 0;
  num_add := number_add;
  num_ge0 := number_ge0;
  num_abs := number_abs;
  num_isNaN := number_isNaN;
}.

#[global] Instance float_Number : Number float := {
  num_zero := 0%float;
  num_add := PrimFloat.add;
  num_ge0 := fun x => PrimFloat.leb 0%float x;
  num_abs := PrimFloat.abs;
  num_isNaN := PrimFloat.is_nan;
}.

(** ** The persisted version: the parser and the formatter *)

(** [^\s*(?:r)\s*$] *)
Definition anchored (r : regex) : regex :=
  Seq AssertStart
 (Seq (Star true CSpace)
 (Seq r
 (Seq (Star true CSpace) AssertEnd))).

Module Utils.

Definition signClass : charclass := CSet [43; 45].

(** [([+-]?)(\d+)\s+(.+)] *)
Definition amountFirst : regex :=
  Seq (Group 1 (Opt (Atom signClass)))
 (Seq (Group 2 (Plus true CDigit))
 (Seq (Plus true CSpace)
      (Group 3 (Plus true CDot)))).

(** [(.+?)\s+([+-])(\d+)] *)
Definition labelFirst : regex :=
  Seq (Group 4 (Plus false CDot))
 (Seq (Plus true CSpace)
 (Seq (Group 5 (Atom signClass))
      (Group 6 (Plus true CDigit)))).

(** [/^\s*(?:([+-]?)(\d+)\s+(.+)|(.+?)\s+([+-])(\d+))\s*$/] *)
Definition pattern : regex := anchored (Alt amountFirst labelFirst).

Definition parseMessage (text : jsstring)
    : completion (option ParsedTransaction.t) :=
  let text := trim text in
  match regex_match pattern text with
  | None => Return None
  | Some mt =>
      if bool_decide (mt !! 1%nat ≠ None) || bool_decide (mt !! 2%nat ≠ None) then
        (* Amount-first pattern matched *)
        let signChar :=
          match mt !! 1%nat with
          | Some s => if truthy s then s else lit "+"
          | None => lit "+"
          end in
        let amount := parseInt (mt !! 2%nat) in
        label ← trim_of (mt !! 3%nat);
        let sign := if string_eqb signChar (lit "-") then Negative else Positive in
        Return (Some {| ParsedTransaction.label := label;
                        ParsedTransaction.sign := sign;
                        ParsedTransaction.amount := amount |})
      else
        (* Label-first pattern matched *)
        label ← trim_of (mt !! 4%nat);
        let signChar := mt !! 5%nat in
        let amount := parseInt (mt !! 6%nat) in
        let sign :=
          if bool_decide (signChar = Some (lit "+")) then Positive else Negative in
        Return (Some {| ParsedTransaction.label := label;
                        ParsedTransaction.sign := sign;
                        ParsedTransaction.amount := amount |})
  end.

(** The four indicator literals, code unit by code unit as the source file
    has them. *)
Definition emojiPositive : jsstring := [240; 376; 8217; 176].
Definition emojiNegative : jsstring := [240; 376; 8217; 184].
Definition totalEmojiPositive : jsstring := [240; 376; 8220; 710].
Definition totalEmojiNegative : jsstring := [240; 376; 8220; 8240].

Section Formatter.
Context {num : Type} `{Number num}.
(** [Number.prototype.toLocaleString] in the locale of the host. *)
Variable toLocaleString : num → jsstring.

Definition parseTransactions (transactions : list (Transaction.t num)) : jsstring :=
  let total :=
    fold_left (fun sum transaction => num_add sum (Transaction.amount transaction))
              transactions num_zero in
  let text :=
    join [LF]
      (map (fun transaction =>
              let emoji :=
                if num_ge0 (Transaction.amount transaction)
                then emojiPositive else emojiNegative in
              let sign :=
                if num_ge0 (Transaction.amount transaction)
                then lit "+" else lit "-" in
              let formattedAmount :=
                toLocaleString (num_abs (Transaction.amount transaction)) in
              emoji ++ lit " " ++ sign ++ formattedAmount ++ lit "  "
                ++ [quote] ++ Transaction.label transaction ++ [quote])
           transactions) in
  let totalEmoji := if num_ge0 total then totalEmojiPositive else totalEmojiNegative in
  let totalSign := if num_ge0 total then lit "+" else lit "-" in
  let formattedTotal := toLocaleString (num_abs total) in
  text ++ [LF; LF] ++ totalEmoji ++ lit " Total: " ++ totalSign ++ formattedTotal.
End Formatter.

End Utils.

(** ** The persisted version: the store *)

Module Db.

Record Database (num : Type) : Type := {
  Accounts : list Account.t;
  Transactions : list (Transaction.t num);
}.
Arguments Accounts {num} _.
Arguments Transactions {num} _.

(** A store operation reads and writes the database and may throw. *)
Definition M (num A : Type) : Type := Database num → completion A * Database num.

Section Store.
Context {num : Type} `{Number num}.
(** The constraints of the two tables, which the schema declares: whether
    an insert is accepted, and the text of the failure otherwise. *)
Variable acceptsAccount : Database num → Account.t → bool.
Variable acceptsTransaction : Database num → Transaction.t num → bool.
Variable constraintFailure : jsstring.

(** [INSERT INTO Accounts (id, name) VALUES (?, ?)] *)
Definition insertAccountStmt (id name : jsstring) : M num unit := fun db =>
  let row := {| Account.id := id; Account.name := name |} in
  if acceptsAccount db row
  then (Return tt, {| Accounts := Accounts db ++ [row];
                      Transactions := Transactions db |})
  else (Throw (Error constraintFailure), db).

(** [INSERT INTO Transactions (id, label, amount, account) VALUES (?, ?, ?, ?)] *)
Definition insertTransactionStmt (id label : jsstring) (amount : num)
    (account : jsstring) : M num unit := fun db =>
  let row := {| Transaction.id := id; Transaction.label := label;
                Transaction.amount := amount; Transaction.account := account |} in
  if acceptsTransaction db row
  then (Return tt, {| Accounts := Accounts db;
                      Transactions := Transactions db ++ [row] |})
  else (Throw (Error constraintFailure), db).

(** [SELECT id, name FROM Accounts WHERE id = ?] *)
Definition selectAccountByIdStmt (id : jsstring) (db : Database num)
    : option Account.t :=
  List.find (fun a => string_eqb (Account.id a) id) (Accounts db).

(** [SELECT ... FROM Transactions WHERE account = ? ORDER BY created_at];
    rows are kept in the order of their creation. *)
Definition selectTransactionsByAccountStmt (account : jsstring)
    (db : Database num) : list (Transaction.t num) :=
  List.filter (fun t => string_eqb (Transaction.account t) account)
              (Transactions db).

(** [id] is the identifier [v7()] draws. *)
Definition createAccount (id : jsstring) (name : jsstring) : M num Account.t :=
  fun db =>
  if negb (truthy name) || (length (trim name) =? 0)%nat then
    (Throw (Error (lit "Account name cannot be empty")), db)
  else
    match insertAccountStmt id (trim name) db with
    | (Return _, db') =>
        (Return {| Account.id := id; Account.name := trim name |}, db')
    | (Throw (Error e), db') =>
        (Throw (Error (lit "Failed to create account: " ++ e)), db')
    | (Throw TypeError, db') =>
        (Throw (Error (lit "Failed to create account: TypeError")), db')
    end.

Definition createTransaction (id : jsstring)
    (params : CreateTransactionParams.t num) : M num (Transaction.t num) :=
  fun db =>
  let label := CreateTransactionParams.label params in
  let amount := CreateTransactionParams.amount params in
  let accountId := CreateTransactionParams.accountId params in
  if negb (truthy label) || (length (trim label) =? 0)%nat then
    (Throw (Error (lit "Transaction label cannot be empty")), db)
  else if num_isNaN amount then
    (Throw (Error (lit "Transaction amount must be a valid number")), db)
  else if negb (truthy accountId) || (length (trim accountId) =? 0)%nat then
    (Throw (Error (lit "Account ID cannot be empty")), db)
  else
    (* Verify account exists *)
    match selectAccountByIdStmt accountId db with
    | None =>
        (Throw (Error (lit "Account with ID " ++ accountId ++ lit " does not exist")), db)
    | Some _ =>
        match insertTransactionStmt id (trim label) amount accountId db with
        | (Return _, db') =>
            (Return {| Transaction.id := id; Transaction.label := trim label;
                       Transaction.amount := amount;
                       Transaction.account := accountId |}, db')
        | (Throw (Error e), db') =>
            (Throw (Error (lit "Failed to create transaction: " ++ e)), db')
        | (Throw TypeError, db') =>
            (Throw (Error (lit "Failed to create transaction: TypeError")), db')
        end
    end.

Definition getTransactionInAccount (accountId : jsstring)
    : M num (list (Transaction.t num)) := fun db =>
  if negb (truthy accountId) || (length (trim accountId) =? 0)%nat then
    (Throw (Error (lit "Account ID cannot be empty")), db)
  else
    match selectAccountByIdStmt accountId db with
    | None =>
        (Throw (Error (lit "Account with ID " ++ accountId ++ lit " does not exist")), db)
    | Some _ => (Return (selectTransactionsByAccountStmt accountId db), db)
    end.

Definition getAccountBalance (accountId : jsstring) : M num num := fun db =>
  match getTransactionInAccount accountId db with
  | (Return transactions, db') =>
      (Return (fold_left
                 (fun balance transaction =>
                    num_add balance (Transaction.amount transaction))
                 transactions num_zero), db')
  | (Throw e, db') => (Throw e, db')
  end.

(** The order [ORDER BY name] puts rows in: the collation of the engine
    decides it, and the statement leaves the order of rows of equal name
    open. *)
Variable orderByName : list Account.t → list Account.t.

(** [SELECT id, name FROM Accounts ORDER BY name] *)
Definition selectAllAccountsStmt (db : Database num) : list Account.t :=
  orderByName (Accounts db).

Definition getAllAccounts : M num (list Account.t) := fun db =>
  (Return (selectAllAccountsStmt db), db).

Definition getAccountWithTransactions (accountId : jsstring)
    : M num (AccountWithTransactions.t num) := fun db =>
  if negb (truthy accountId) || (length (trim accountId) =? 0)%nat then
    (Throw (Error (lit "Account ID cannot be empty")), db)
  else
    match selectAccountByIdStmt accountId db with
    | None =>
        (Throw (Error (lit "Account with ID " ++ accountId ++ lit " does not exist")), db)
    | Some account =>
        let transactions := selectTransactionsByAccountStmt accountId db in
        (Return {| AccountWithTransactions.id := Account.id account;
                   AccountWithTransactions.name := Account.name account;
                   AccountWithTransactions.transactions := transactions |}, db)
    end.

(** [accounts.map(f)] for a callback that reads the store and may throw:
    the first exception ends the traversal. *)
Fixpoint mapAccounts {B : Type} (f : Account.t → M num B)
    (accounts : list Account.t) : M num (list B) := fun db =>
  match accounts with
  | [] => (Return [], db)
  | account :: rest =>
      match f account db with
      | (Return b, db') =>
          match mapAccounts f rest db' with
          | (Return bs, db'') => (Return (b :: bs), db'')
          | (Throw e, db'') => (Throw e, db'')
          end
      | (Throw e, db') => (Throw e, db')
      end
  end.

Definition getAllAccountsWithBalances : M num (list (AccountWithBalance.t num)) :=
  fun db =>
  match getAllAccounts db with
  | (Return accounts, db') =>
      mapAccounts
        (fun account db =>
           match getAccountBalance (Account.id account) db with
           | (Return balance, db') =>
               (Return {| AccountWithBalance.id := Account.id account;
                          AccountWithBalance.name := Account.name account;
                          AccountWithBalance.balance := balance |}, db')
           | (Throw e, db') => (Throw e, db')
           end)
        accounts db'
  | (Throw e, db') => (Throw e, db')
  end.
End Store.

End Db.

(** ** The in-memory version *)

Module FinancialEntry.
Record t : Type := { description : jsstring; amount : number; date : jsstring }.
End FinancialEntry.

Module Receipt.
Record t : Type := { name : jsstring; entries : list FinancialEntry.t }.
End Receipt.

Module UserSession.
Record t : Type := { currentReceipt : option jsstring }.
End UserSession.

Module Main.

(** The two global maps. *)
Record State : Type := {
  receipts : gmap jsstring Receipt.t;
  userSessions : gmap Z UserSession.t;
}.

Definition initial : State := {| receipts := ∅; userSessions := ∅ |}.

(** Get or create user session *)
Definition getUserSession (userId : Z) (st : State) : UserSession.t * State :=
  match userSessions st !! userId with
  | Some session => (session, st)
  | None =>
      let session := {| UserSession.currentReceipt := None |} in
      (session, {| receipts := receipts st;
                   userSessions := <[userId := session]> (userSessions st) |})
  end.

(** [session.currentReceipt = v] on the session object of [userId]. *)
Definition setCurrentReceipt (userId : Z) (v : option jsstring) (st : State) : State :=
  {| receipts := receipts st;
     userSessions := <[userId := {| UserSession.currentReceipt := v |}]> (userSessions st) |}.

(** Get or create receipt *)
Definition getReceipt (receiptName : jsstring) (st : State) : Receipt.t * State :=
  match receipts st !! receiptName with
  | Some receipt => (receipt, st)
  | None =>
      let receipt := {| Receipt.name := receiptName; Receipt.entries := [] |} in
      (receipt, {| receipts := <[receiptName := receipt]> (receipts st);
                   userSessions := userSessions st |})
  end.

(** [/(.+?)\s*([+-]\d+)/] *)
Definition entryPattern : regex :=
  Seq (Group 1 (Plus false CDot))
 (Seq (Star true CSpace)
      (Group 2 (Seq (Atom (CSet [43; 45])) (Plus true CDigit)))).

(** The body of the loop of [parseFinancialEntries] on one line: the
    entries with the entry of the line pushed, when the line matches. *)
Definition parseLine (currentDate : jsstring) (entries : list FinancialEntry.t)
    (line : jsstring) : completion (list FinancialEntry.t) :=
  match regex_match entryPattern line with
  | Some mt =>
      description ← trim_of (mt !! 1%nat);
      let amount := parseInt (mt !! 2%nat) in
      Return (entries ++ [ {| FinancialEntry.description := description;
                              FinancialEntry.amount := amount;
                              FinancialEntry.date := currentDate |} ])
  | None => Return entries
  end.

Fixpoint parseLines (currentDate : jsstring) (lines : list jsstring)
    (entries : list FinancialEntry.t) : completion (list FinancialEntry.t) :=
  match lines with
  | [] => Return entries
  | line :: rest =>
      entries' ← parseLine currentDate entries line;
      parseLines currentDate rest entries'
  end.

(** Parse financial entries from text. [currentDate] is the day the clock
    gives. *)
Definition parseFinancialEntries (currentDate : jsstring) (text : jsstring)
    : completion (list FinancialEntry.t) :=
  let lines := List.filter (fun line => truthy (trim line)) (split LF text) in
  parseLines currentDate lines [].

(** [receipt.entries = entries] on the receipt object stored under
    [receiptName], if there is one. *)
Definition setEntries (receiptName : jsstring) (entries : list FinancialEntry.t)
    (st : State) : State :=
  match receipts st !! receiptName with
  | Some receipt =>
      {| receipts :=
           <[receiptName := {| Receipt.name := Receipt.name receipt;
                               Receipt.entries := entries |}]> (receipts st);
         userSessions := userSessions st |}
  | None => st
  end.

(** [receipts.delete(receiptName)] *)
Definition deleteReceipt (receiptName : jsstring) (st : State) : State :=
  {| receipts := delete receiptName (receipts st);
     userSessions := userSessions st |}.

(** Add entries to receipt *)
Definition addEntriesToReceipt (receiptName : jsstring)
    (entries : list FinancialEntry.t) (st : State) : State :=
  let '(receipt, st) := getReceipt receiptName st in
  setEntries receiptName (Receipt.entries receipt ++ entries) st.

(** Calculate receipt total *)
Definition calculateReceiptTotal (receiptName : jsstring) (st : State) : number :=
  match receipts st !! receiptName with
  | None => Num 0
  | Some receipt =>
      fold_left (fun total entry => number_add total (FinancialEntry.amount entry))
                (Receipt.entries receipt) (Num 0)
  end.

(** Format response message *)
Definition formatResponse (receiptName : jsstring) (st : State) : jsstring :=
  match receipts st !! receiptName with
  | None => lit "Receipt " ++ [quote] ++ receiptName ++ [quote] ++ lit " not found."
  | Some receipt =>
      let total := calculateReceiptTotal receiptName st in
      let response := lit "**Receipt: " ++ receiptName ++ lit "**" ++ [LF; LF] in
      let response := response ++ lit "```" ++ [LF] in
      (* Show all entries *)
      let response :=
        fold_left
          (fun response entry =>
             response ++ lit "- " ++ FinancialEntry.description entry ++ lit " "
               ++ (if number_ge0 (FinancialEntry.amount entry) then lit "+" else [])
               ++ number_toString (FinancialEntry.amount entry)
               ++ lit " [" ++ FinancialEntry.date entry ++ lit "]" ++ [LF])
          (Receipt.entries receipt) response in
      let response :=
        response ++ [LF] ++ lit "Total: "
          ++ (if number_ge0 total then lit "+" else [])
          ++ number_toString total ++ [LF] in
      response ++ lit "```"
  end.

(** What a handler reads of its context: the sender and the text of the
    message. *)
Record Context : Type := {
  from_id : option Z;
  message_text : option jsstring;
}.

(** A call of [ctx.reply]. *)
Record Reply : Type := {
  reply_text : jsstring;
  parse_mode : option jsstring;
}.

Definition plain (text : jsstring) : Reply :=
  {| reply_text := text; parse_mode := None |}.
Definition markdown (text : jsstring) : Reply :=
  {| reply_text := text; parse_mode := Some (lit "Markdown") |}.

(** [ctx.from?.id], when it is truthy. *)
Definition userId (ctx : Context) : option Z :=
  match from_id ctx with
  | Some 0%Z => None
  | v => v
  end.

(** [ctx.message.text.split(" ").slice(1)], or [[]] without a text. *)
Definition commandArgs (ctx : Context) : list jsstring :=
  match message_text ctx with
  | Some text => drop 1 (split 32 text)
  | None => []
  end.

(** A receipt name read from the session, when it is truthy. *)
Definition selected (session : UserSession.t) : option jsstring :=
  match UserSession.currentReceipt session with
  | Some [] => None
  | v => v
  end.

Definition clipboard : jsstring := [55357; 56523].
Definition wastebasket : jsstring := [55357; 56785; 65039].
Definition checkMark : jsstring := [9989].
Definition crossMark : jsstring := [10060].

(** Handle /new command to create new receipt *)
Definition onNew (ctx : Context) (st : State) : State * list Reply :=
  let args := commandArgs ctx in
  if (length args =? 0)%nat then
    (st, [plain (lit "Please provide a receipt name. Usage: /new <receipt_name>")])
  else
    let receiptName := join (lit "_") args in
    match userId ctx with
    | None => (st, [])
    | Some userId =>
        (* Create receipt and set as current *)
        let '(_, st) := getReceipt receiptName st in
        let '(_, st) := getUserSession userId st in
        let st := setCurrentReceipt userId (Some receiptName) st in
        (st, [plain (checkMark ++ lit " Created new receipt: " ++ [quote]
                       ++ receiptName ++ [quote] ++ [LF]
                       ++ lit "You can now add entries to this receipt.")])
    end.

(** Handle /delete command to delete a receipt *)
Definition onDelete (ctx : Context) (st : State) : State * list Reply :=
  let args := commandArgs ctx in
  if (length args =? 0)%nat then
    (st, [plain (lit "Please provide a receipt name. Usage: /delete <receipt_name>")])
  else
    let receiptName := join (lit "_") args in
    match receipts st !! receiptName with
    | None =>
        (st, [plain (crossMark ++ lit " Receipt " ++ [quote] ++ receiptName
                       ++ [quote] ++ lit " not found.")])
    | Some _ =>
        let st := deleteReceipt receiptName st in
        (* Clear from user session if it was current *)
        let st :=
          match userId ctx with
          | Some userId =>
              let '(session, st) := getUserSession userId st in
              if bool_decide (UserSession.currentReceipt session = Some receiptName)
              then setCurrentReceipt userId None st
              else st
          | None => st
          end in
        (st, [plain (wastebasket ++ lit " Deleted receipt: " ++ [quote]
                       ++ receiptName ++ [quote])])
    end.

(** Handle /current command to show current receipt *)
Definition onCurrent (ctx : Context) (st : State) : State * list Reply :=
  match userId ctx with
  | None => (st, [])
  | Some userId =>
      let '(session, st) := getUserSession userId st in
      match selected session with
      | None =>
          (st, [plain (lit "No current receipt selected. Use /new <receipt_name> or /switch <receipt_name>")])
      | Some currentReceipt =>
          let noEntries :=
            match receipts st !! currentReceipt with
            | None => true
            | Some receipt => (length (Receipt.entries receipt) =? 0)%nat
            end in
          if noEntries then
            (st, [plain (clipboard ++ lit " Current receipt: " ++ [quote]
                           ++ currentReceipt ++ [quote] ++ [LF]
                           ++ lit "No entries yet.")])
          else
            (st, [markdown (formatResponse currentReceipt st)])
      end
  end.

(** Handle /clear command to clear current receipt *)
Definition onClear (ctx : Context) (st : State) : State * list Reply :=
  match userId ctx with
  | None => (st, [])
  | Some userId =>
      let '(session, st) := getUserSession userId st in
      match selected session with
      | None => (st, [plain (lit "No current receipt selected.")])
      | Some currentReceipt =>
          match receipts st !! currentReceipt with
          | Some _ =>
              (setEntries currentReceipt [] st,
               [plain (wastebasket ++ lit " Cleared all entries from receipt: "
                         ++ [quote] ++ currentReceipt ++ [quote])])
          | None => (st, [])
          end
      end
  end.

(** Handle text messages (financial entries) *)
Definition onText (currentDate : jsstring) (ctx : Context) (st : State)
    : State * list Reply :=
  match userId ctx with
  | None => (st, [])
  | Some userId =>
      let text := match message_text ctx with Some text => text | None => [] end in
      (* Skip if it's a command *)
      if startsWith text 47 then (st, [])
      else
        let '(session, st) := getUserSession userId st in
        match selected session with
        | None =>
            (st, [plain (lit "No receipt selected. Use /new <receipt_name> to create a new receipt or /switch <receipt_name> to switch to an existing one.")])
        | Some currentReceipt =>
            match parseFinancialEntries currentDate text with
            | Return entries =>
                if (length entries =? 0)%nat then
                  (st, [plain (lit "No valid financial entries found. Please use format like:"
                                 ++ [LF] ++ lit "pay bills -3000" ++ [LF]
                                 ++ lit "collected rent +4000")])
                else
                  (* Add entries to current receipt *)
                  let st := addEntriesToReceipt currentReceipt entries st in
                  (* Format and send response *)
                  (st, [markdown (formatResponse currentReceipt st)])
            | Throw _ =>
                (st, [plain (lit "Sorry, there was an error processing your request.")])
            end
        end
  end.

Definition bullet : jsstring := [8226].
Definition pointRight : jsstring := [55357; 56393].

Section Listing.
(** List all available receipts: [Array.from(receipts.keys())], the names
    in the order of their insertion. The map of the model keeps no order,
    so the listing is taken from outside. *)
Variable listReceipts : State → list jsstring.

(** Handle /switch command to switch between receipts *)
Definition onSwitch (ctx : Context) (st : State) : State * list Reply :=
  let args := commandArgs ctx in
  if (length args =? 0)%nat then
    let receiptNames := listReceipts st in
    if (length receiptNames =? 0)%nat then
      (st, [plain (lit "No receipts found. Create one with /new <receipt_name>")])
    else
      (st, [plain (lit "Available receipts:" ++ [LF]
                     ++ join [LF] (map (fun r => bullet ++ lit " " ++ r) receiptNames)
                     ++ [LF; LF] ++ lit "Usage: /switch <receipt_name>")])
  else
    let receiptName := join (lit "_") args in
    match userId ctx with
    | None => (st, [])
    | Some userId =>
        match receipts st !! receiptName with
        | None =>
            (st, [plain (crossMark ++ lit " Receipt " ++ [quote] ++ receiptName
                           ++ [quote]
                           ++ lit " not found. Use /list to see available receipts.")])
        | Some _ =>
            let '(_, st) := getUserSession userId st in
            let st := setCurrentReceipt userId (Some receiptName) st in
            (st, [plain (clipboard ++ lit " Switched to receipt: " ++ [quote]
                           ++ receiptName ++ [quote])])
        end
    end.

(** Handle /list command to list all receipts *)
Definition onList (ctx : Context) (st : State) : State * list Reply :=
  let receiptNames := listReceipts st in
  if (length receiptNames =? 0)%nat then
    (st, [plain (lit "No receipts found. Create one with /new <receipt_name>")])
  else
    let '(currentReceipt, st) :=
      match userId ctx with
      | Some userId =>
          let '(session, st) := getUserSession userId st in
          (UserSession.currentReceipt session, st)
      | None => (None, st)
      end in
    let response := clipboard ++ lit " **Available Receipts:**" ++ [LF; LF] in
    let response :=
      fold_left
        (fun response receiptName =>
           let indicator :=
             if bool_decide (Some receiptName = currentReceipt)
             then pointRight ++ lit " " else lit "   " in
           let total := calculateReceiptTotal receiptName st in
           response ++ indicator ++ receiptName ++ lit " ("
             ++ (if number_ge0 total then lit "+" else [])
             ++ number_toString total ++ lit ")" ++ [LF])
        receiptNames response in
    let response :=
      response ++ [LF] ++ lit "Current: "
        ++ match currentReceipt with
           | Some (a :: r) => a :: r
           | _ => lit "None"
           end
        ++ [LF] ++ lit "Use /switch <receipt_name> to switch" in
    (st, [markdown response]).
End Listing.

End Main.

(** ** The persisted version: the bot *)

Module Bot.

(** The two variables of the module and the database they sit beside. *)
Record State : Type := {
  store : Db.Database number;
  selectedAccountId : option jsstring;
  awaitingAccountCreation : bool;
}.

(** What a handler reads of its context: the sender, the text of the
    message and the first group of the trigger of an action. *)
Record Context : Type := {
  from_id : option Z;
  message_text : jsstring;
  match_1 : jsstring;
}.

Record Button : Type := {
  button_text : jsstring;
  callback_data : jsstring;
}.

(** The calls a handler makes on its context: [ctx.answerCbQuery()] and
    [ctx.reply(text, { reply_markup: { inline_keyboard } })]. *)
Inductive Call : Type :=
  | AnswerCbQuery
  | Reply (text : jsstring) (inline_keyboard : option (list (list Button))).

(** A handler ends with a state, the calls it made and the exception it
    let escape, if any. *)
Record Outcome : Type := {
  state : State;
  calls : list Call;
  thrown : option exn;
}.

Definition finished (st : State) (calls : list Call) : Outcome :=
  {| state := st; calls := calls; thrown := None |}.

Definition setStore (db : Db.Database number) (st : State) : State :=
  {| store := db; selectedAccountId := selectedAccountId st;
     awaitingAccountCreation := awaitingAccountCreation st |}.

Definition bank : jsstring := [55356; 57318].

Definition notWhitelisted : jsstring :=
  Main.crossMark ++ lit " Your user is not whitelisted to use this bot.".

Section Handlers.
(** The constraints of the tables and the order of the engine, as in the
    store. *)
Variable acceptsAccount : Db.Database number → Account.t → bool.
Variable acceptsTransaction : Db.Database number → Transaction.t number → bool.
Variable constraintFailure : jsstring.
Variable orderByName : list Account.t → list Account.t.
(** [isUserWhiteListed] of the utilities, which reads the list of the
    deployment. *)
Variable isUserWhiteListed : jsstring → bool.
(** [Number.prototype.toLocaleString] in the locale of the host. *)
Variable toLocaleString : number → jsstring.

(** [bot.start] *)
Definition onStart (ctx : Context) (st : State) : Outcome :=
  match from_id ctx with
  | None => {| state := st; calls := []; thrown := Some TypeError |}
  | Some id =>
      if isUserWhiteListed (number_toString (Num id)) then
        finished st
          [Reply (bank ++ lit " Welcome to account manger:")
             (Some [ [ {| button_text := lit "Create Account";
                          callback_data := lit "create_account" |} ];
                     [ {| button_text := lit "List Accounts";
                          callback_data := lit "list_accounts" |} ] ])]
      else finished st [Reply notWhitelisted None]
  end.

(** [bot.use]: the middleware every handler registered after it runs
    behind. *)
Definition use (next : Context → State → Outcome) (ctx : Context) (st : State)
    : Outcome :=
  let id :=
    match from_id ctx with
    | Some id => number_toString (Num id)
    | None => []
    end in
  if isUserWhiteListed id then next ctx st
  else finished st [Reply notWhitelisted None].

(** [bot.action("list_accounts")] *)
Definition onListAccounts (ctx : Context) (st : State) : Outcome :=
  match Db.getAllAccounts orderByName (store st) with
  | (Return accounts, db) =>
      finished (setStore db st)
        [AnswerCbQuery;
         Reply (lit "Select one of your accounts:")
           (Some (map (fun account =>
                         [ {| button_text := Account.name account;
                              callback_data :=
                                lit "select_account:" ++ Account.id account |} ])
                      accounts))]
  | (Throw e, db) =>
      {| state := setStore db st; calls := [AnswerCbQuery]; thrown := Some e |}
  end.

(** [bot.action(/^select_account:(.+)$/)] *)
Definition onSelectAccount (ctx : Context) (st : State) : Outcome :=
  (* Extract account ID from callback_data *)
  let accountId := match_1 ctx in
  let st := {| store := store st; selectedAccountId := Some accountId;
               awaitingAccountCreation := awaitingAccountCreation st |} in
  (* Find the selected account details *)
  match Db.getAllAccounts orderByName (store st) with
  | (Return accounts, db) =>
      match List.find (fun account => string_eqb (Account.id account) accountId)
                      accounts with
      | Some selectedAccount =>
          finished (setStore db st)
            [AnswerCbQuery;
             Reply (Main.checkMark ++ lit " Account " ++ [quote]
                      ++ Account.name selectedAccount ++ [quote]
                      ++ lit " selected successfully!") None]
      | None =>
          finished (setStore db st)
            [AnswerCbQuery; Reply (Main.crossMark ++ lit " Account not found.") None]
      end
  | (Throw e, db) =>
      {| state := setStore db st; calls := [AnswerCbQuery]; thrown := Some e |}
  end.

(** [bot.action("create_account")] *)
Definition onCreateAccount (ctx : Context) (st : State) : Outcome :=
  finished {| store := store st; selectedAccountId := selectedAccountId st;
              awaitingAccountCreation := true |}
    [AnswerCbQuery; Reply (lit "What would you like to name the account?") None].

(** [bot.on(message("text"))]. [id] is the identifier [v7()] draws. *)
Definition onText (id : jsstring) (ctx : Context) (st : State) : Outcome :=
  if awaitingAccountCreation st then
    let '(created, db) :=
      Db.createAccount acceptsAccount constraintFailure id (message_text ctx)
                       (store st) in
    let reply :=
      match created with
      | Return _ =>
          Main.checkMark ++ lit " Account " ++ [quote] ++ message_text ctx
            ++ [quote] ++ lit " created successfully."
      | Throw _ => Main.crossMark ++ lit " Failed to create account!"
      end in
    finished {| store := db; selectedAccountId := selectedAccountId st;
                awaitingAccountCreation := false |}
      [Reply reply None]
  else
    match selectedAccountId st with
    | None | Some [] => finished st [Reply (lit "No account selected") None]
    | Some accountId =>
        match Utils.parseMessage (message_text ctx) with
        | Throw e => {| state := st; calls := []; thrown := Some e |}
        | Return (Some transaction) =>
            let params :=
              {| CreateTransactionParams.label := ParsedTransaction.label transaction;
                 CreateTransactionParams.amount :=
                   number_mul (ParsedTransaction.amount transaction)
                     (match ParsedTransaction.sign transaction with
                      | Negative => Num (-1)
                      | Positive => Num 1
                      end);
                 CreateTransactionParams.accountId := accountId |} in
            match Db.createTransaction acceptsTransaction constraintFailure id
                                       params (store st) with
            | (Throw e, db) =>
                {| state := setStore db st; calls := []; thrown := Some e |}
            | (Return _, db) =>
                match Db.getTransactionInAccount accountId db with
                | (Return transactions, db') =>
                    finished (setStore db' st)
                      [Reply (Utils.parseTransactions toLocaleString transactions)
                             None]
                | (Throw e, db') =>
                    {| state := setStore db' st; calls := []; thrown := Some e |}
                end
            end
        | Return None =>
            finished st
              [Reply (Main.crossMark
                        ++ lit " Invalid transaction format. Expected: "
                        ++ [quote] ++ lit "3000 for rent" ++ [quote] ++ lit ", "
                        ++ [quote] ++ lit "+200 groceries" ++ [quote] ++ lit ", "
                        ++ [quote] ++ lit "phone bill -150" ++ [quote] ++ lit ", or "
                        ++ [quote] ++ lit "-50 coffee" ++ [quote])
                     None]
        end
    end.
End Handlers.

End Bot.

(** ** Vocabulary of the statements *)

(** The integer a text of decimal digits denotes. *)
Definition digitsValue (ds : jsstring) : Z :=
  fold_left (fun acc d => (10 * acc + Z.of_N (d - 48))%Z) ds 0%Z.

(** The first and the last character of [s] are not white space. *)
Definition trimmed (s : jsstring) : bool :=
  match s with a :: _ => negb (isWhiteSpace a) | [] => false end
  && match last s with Some b => negb (isWhiteSpace b) | None => false end.

(** The next character, if any, is outside the class. *)
Definition stops (cc : charclass) (rest : jsstring) : Prop :=
  match rest with a :: _ => mem cc a = false | [] => True end.

(** The pieces of a line of one of the two grammars: white space around,
    a sign, digits, separating white space and a label. *)
Record Pieces : Type := {
  pre : jsstring;
  sg : jsstring;
  ds : jsstring;
  sep : jsstring;
  lbl : jsstring;
  post : jsstring;
}.

(** ["<sign><digits> <label>"] *)
Definition amountFirstText (p : Pieces) : jsstring :=
  pre p ++ sg p ++ ds p ++ sep p ++ lbl p ++ post p.

(** ["<label> <sign><digits>"] *)
Definition labelFirstText (p : Pieces) : jsstring :=
  pre p ++ lbl p ++ sep p ++ sg p ++ ds p ++ post p.

Definition nonEmpty (s : jsstring) : bool :=
  match s with [] => false | _ => true end.

(** The digits and the separation are not empty, and the label is a
    trimmed, non-empty text on one line. *)
Definition wellFormed (p : Pieces) : bool :=
  forallb isWhiteSpace (pre p) && forallb isWhiteSpace (post p)
  && nonEmpty (sep p) && forallb isWhiteSpace (sep p)
  && nonEmpty (ds p) && forallb isDigit (ds p)
  && trimmed (lbl p) && forallb (mem CDot) (lbl p).

Definition mandatorySign (s : jsstring) : bool :=
  string_eqb s [43] || string_eqb s [45].

Definition optionalSign (s : jsstring) : bool :=
  string_eqb s [] || mandatorySign s.

Definition signOf (s : jsstring) : Sign :=
  if string_eqb s [45] then Negative else Positive.

(** The transaction the pieces denote: the label, the sign as a tag and
    the value of the digits as a number. *)
Definition reading (p : Pieces) : ParsedTransaction.t :=
  {| ParsedTransaction.label := lbl p;
     ParsedTransaction.sign := signOf (sg p);
     ParsedTransaction.amount := binary64 (digitsValue (ds p)) |}.

(** The signed integer [sign * digits] of the pieces. *)
Definition signedValue (p : Pieces) : Z :=
  match signOf (sg p) with
  | Negative => - digitsValue (ds p)
  | Positive => digitsValue (ds p)
  end.

(** The signed amount a parsed transaction stands for. *)
Definition signedAmount (tx : ParsedTransaction.t) : number :=
  match ParsedTransaction.sign tx with
  | Negative => number_neg (ParsedTransaction.amount tx)
  | Positive => ParsedTransaction.amount tx
  end.


(** [^\s*([+-]?)(\d+)\s+(.+)\s*$], the amount-first pattern alone. *)
Definition amountFirstPattern : regex := anchored Utils.amountFirst.

(** The amount-first interpretation of the groups of a match: the label
    is group 3 trimmed, the sign is read from group 1 (["+"] when it is
    empty) and the amount is group 2. *)
Definition amountFirstReading (mt : captures)
    : completion (option ParsedTransaction.t) :=
  let signChar :=
    match mt !! 1%nat with
    | Some s => if truthy s then s else lit "+"
    | None => lit "+"
    end in
  let amount := parseInt (mt !! 2%nat) in
  label ← trim_of (mt !! 3%nat);
  let sign := if string_eqb signChar (lit "-") then Negative else Positive in
  Return (Some {| ParsedTransaction.label := label;
                  ParsedTransaction.sign := sign;
                  ParsedTransaction.amount := amount |}).

(** The continuation of an anchored pattern after its body: [\s*$], then
    success. *)
Definition tailK : cont :=
  fun i s c => matcher (Seq (Star true CSpace) AssertEnd) i s c accept.

(** The entry a line gives on its own: the entry of the first match of
    the entry pattern in the line, if there is one. *)
Definition lineEntry (date line : jsstring) : option FinancialEntry.t :=
  match regex_match Main.entryPattern line with
  | Some mt =>
      Some {| FinancialEntry.description := trim (default [] (mt !! 1%nat));
              FinancialEntry.amount := parseInt (mt !! 2%nat);
              FinancialEntry.date := date |}
  | None => None
  end.

(** [text] is made of the pieces of [tx], and of nothing else: white
    space, the sign, the digits and the label. *)
Definition readsAs (text : jsstring) (tx : ParsedTransaction.t) : Prop :=
  ∃ p, wellFormed p = true ∧ tx = reading p
       ∧ ((optionalSign (sg p) = true ∧ text = amountFirstText p)
          ∨ (mandatorySign (sg p) = true ∧ text = labelFirstText p)).

(** The line ["rent -3000"] in pieces. *)
Definition rentPieces : Pieces :=
  {| pre := []; sg := lit "-"; ds := lit "3000"; sep := lit " ";
     lbl := lit "rent"; post := [] |}.

(** The receipt a user has selected, [None] when there is none. *)
Definition currentReceiptOf (uid : Z) (st : Main.State) : option jsstring :=
  session ← Main.userSessions st !! uid; UserSession.currentReceipt session.

(** The entries a receipt holds, none when there is no such receipt. *)
Definition entriesOf (receiptName : jsstring) (st : Main.State)
    : list FinancialEntry.t :=
  match Main.receipts st !! receiptName with
  | Some receipt => Receipt.entries receipt
  | None => []
  end.

(** The sum of a sequence of amounts, added one after the other from the
    left, starting from 0. *)
Definition total (amounts : list number) : number :=
  fold_left number_add amounts (Num 0).

(** The sum of a sequence of integers. *)
Definition integerSum (zs : list Z) : Z := fold_left Z.add zs 0%Z.

(** Every sum of the first amounts of the sequence, started from [z], is
    a safe integer: below 2^53 in magnitude. *)
Fixpoint safeSums (z : Z) (zs : list Z) : Prop :=
  match zs with
  | [] => True
  | y :: zs' => (Z.abs (z + y) < 2 ^ 53)%Z ∧ safeSums (z + y) zs'
  end.

(** What happens to the receipts: entries are appended to a receipt, a
    receipt is cleared, a receipt is deleted. *)
Inductive LedgerOp : Type :=
  | Append (receiptName : jsstring) (entries : list FinancialEntry.t)
  | Clear (receiptName : jsstring)
  | Delete (receiptName : jsstring).

Definition applyOp (st : Main.State) (op : LedgerOp) : Main.State :=
  match op with
  | Append receiptName entries => Main.addEntriesToReceipt receiptName entries st
  | Clear receiptName => Main.setEntries receiptName [] st
  | Delete receiptName => Main.deleteReceipt receiptName st
  end.

Definition runOps (ops : list LedgerOp) (st : Main.State) : Main.State :=
  fold_left applyOp ops st.

(** The entries appended to a receipt and not cleared or deleted since,
    read off the sequence of operations. *)
Definition liveAfter (receiptName : jsstring) (live : list FinancialEntry.t)
    (op : LedgerOp) : list FinancialEntry.t :=
  match op with
  | Append n entries => if string_eqb n receiptName then live ++ entries else live
  | Clear n | Delete n => if string_eqb n receiptName then [] else live
  end.

Definition liveEntries (ops : list LedgerOp) (receiptName : jsstring)
    : list FinancialEntry.t :=
  fold_left (liveAfter receiptName) ops [].


(** A sign, then the absolute value as [fmt] prints it. *)
Definition signedText (fmt : number → jsstring) (n : number) : jsstring :=
  match n with
  | Num z =>
      if (0 <=? z)%Z then lit "+" ++ fmt (Num z) else lit "-" ++ fmt (Num (- z))
  | Infinity negative =>
      (if negative then lit "-" else lit "+") ++ fmt (Infinity false)
  | NaN => lit "-" ++ fmt NaN
  end.

(** A plain [toLocaleString]: the decimal digits of the magnitude, without
    separators. *)
Definition decimal (n : number) : jsstring :=
  match n with
  | Num z => digitsOf (Z.abs z)
  | Infinity _ => lit "Infinity"
  | NaN => lit "NaN"
  end.

(** The line of an entry in the report of the persisted version. *)
Definition entryLine (fmt : number → jsstring) (t : Transaction.t number)
    : jsstring :=
  (if number_ge0 (Transaction.amount t)
   then Utils.emojiPositive else Utils.emojiNegative)
  ++ lit " " ++ signedText fmt (Transaction.amount t)
  ++ lit "  " ++ [quote] ++ Transaction.label t ++ [quote].

(** The line of the total in the report of the persisted version. *)
Definition totalLine (fmt : number → jsstring) (n : number) : jsstring :=
  (if number_ge0 n then Utils.totalEmojiPositive else Utils.totalEmojiNegative)
  ++ lit " Total: " ++ signedText fmt n.

(** An amount as the in-memory report prints it: ["+"] before an amount
    that is not negative, then the text of the amount. *)
Definition plainSigned (n : number) : jsstring :=
  (if number_ge0 n then lit "+" else []) ++ number_toString n.

(** The line of an entry in the in-memory report. *)
Definition receiptLine (e : FinancialEntry.t) : jsstring :=
  lit "- " ++ FinancialEntry.description e ++ lit " "
  ++ plainSigned (FinancialEntry.amount e)
  ++ lit " [" ++ FinancialEntry.date e ++ lit "]" ++ [LF].


(** A store with one account and no transaction, its amounts in binary64. *)
Definition oneAccount : Db.Database float :=
  {| Db.Accounts := [ {| Account.id := lit "a1"; Account.name := lit "cash" |} ];
     Db.Transactions := [] |}.

(** The label begins with a character that is neither a digit nor a sign. *)
Definition plainStart (l : jsstring) : bool :=
  match l with
  | a :: _ => negb (isDigit a || mem Utils.signClass a)
  | [] => false
  end.

(** A sign followed by a digit somewhere in the text. *)
Fixpoint hasSignedDigits (s : jsstring) : bool :=
  match s with
  | a :: (b :: _) as t =>
      (mem Utils.signClass a && isDigit b) || hasSignedDigits t
  | _ => false
  end.

(** A line of the in-memory parser: a label, white space on the line, a
    sign and digits. *)
Definition entryText (p : Pieces) : jsstring := lbl p ++ sep p ++ sg p ++ ds p.

(** The entry the pieces denote: the label and the Number value of the
    signed integer. *)
Definition entryReading (date : jsstring) (p : Pieces) : FinancialEntry.t :=
  {| FinancialEntry.description := lbl p;
     FinancialEntry.amount := binary64 (signedValue p);
     FinancialEntry.date := date |}.

(** A well-formed line of the in-memory parser: a trimmed label on one
    line that holds no sign followed by a digit after its first character,
    white space without a line feed, a sign and digits. *)
Definition wellFormedEntry (p : Pieces) : bool :=
  forallb (fun c => isWhiteSpace c && negb (c =? LF)) (sep p)
  && nonEmpty (ds p) && forallb isDigit (ds p)
  && trimmed (lbl p) && forallb (mem CDot) (lbl p)
  && negb (hasSignedDigits (tail (lbl p)))
  && mandatorySign (sg p).

(** The commands and messages the in-memory bot answers. *)
Inductive Update : Type :=
  | CmdNew
  | CmdSwitch
  | CmdList
  | CmdDelete
  | CmdCurrent
  | CmdClear
  | Message (currentDate : jsstring).

(** The handler of an update. *)
Definition handle (listReceipts : Main.State → list jsstring) (u : Update)
    : Main.Context → Main.State → Main.State * list Main.Reply :=
  match u with
  | CmdNew => Main.onNew
  | CmdSwitch => Main.onSwitch listReceipts
  | CmdList => Main.onList listReceipts
  | CmdDelete => Main.onDelete
  | CmdCurrent => Main.onCurrent
  | CmdClear => Main.onClear
  | Message currentDate => Main.onText currentDate
  end.

(** The state after a sequence of updates, each with its context. *)
Definition runUpdates (listReceipts : Main.State → list jsstring)
    (updates : list (Update * Main.Context)) (st : Main.State) : Main.State :=
  fold_left (fun st u => (handle listReceipts u.1 u.2 st).1) updates st.

(** Every receipt is stored under its own name and holds no amount that
    is [NaN]. *)
Definition wellKept (st : Main.State) : Prop :=
  ∀ r receipt, Main.receipts st !! r = Some receipt →
    Receipt.name receipt = r
    ∧ Forall (fun e => number_isNaN (FinancialEntry.amount e) = false)
             (Receipt.entries receipt).

(** The line of an entry in the in-memory report, without its line feed. *)
Definition receiptRow (e : FinancialEntry.t) : jsstring :=
  lit "- " ++ FinancialEntry.description e ++ lit " "
  ++ plainSigned (FinancialEntry.amount e)
  ++ lit " [" ++ FinancialEntry.date e ++ lit "]".

(** The writes of the store, each with the identifier [v7()] draws. *)
Inductive StoreOp (num : Type) : Type :=
  | CreateAccount (id name : jsstring)
  | CreateTransaction (id : jsstring) (params : CreateTransactionParams.t num).
Arguments CreateAccount {num} id name.
Arguments CreateTransaction {num} id params.

(** The store after a write, whether it succeeded or threw. *)
Definition applyStoreOp {num : Type} `{Number num}
    (acceptsAccount : Db.Database num → Account.t → bool)
    (acceptsTransaction : Db.Database num → Transaction.t num → bool)
    (constraintFailure : jsstring)
    (db : Db.Database num) (op : StoreOp num) : Db.Database num :=
  match op with
  | CreateAccount id name =>
      (Db.createAccount acceptsAccount constraintFailure id name db).2
  | CreateTransaction id params =>
      (Db.createTransaction acceptsTransaction constraintFailure id params db).2
  end.

Definition runStore {num : Type} `{Number num}
    (acceptsAccount : Db.Database num → Account.t → bool)
    (acceptsTransaction : Db.Database num → Transaction.t num → bool)
    (constraintFailure : jsstring)
    (ops : list (StoreOp num)) (db : Db.Database num) : Db.Database num :=
  fold_left (applyStoreOp acceptsAccount acceptsTransaction constraintFailure) ops db.

(** Every account has a trimmed, non-empty name; every transaction has a
    trimmed, non-empty label, an amount that is not [NaN] and an account
    that exists and whose identifier is not blank. *)
Definition consistent {num : Type} `{Number num} (db : Db.Database num) : Prop :=
  Forall (fun a => trimmed (Account.name a) = true) (Db.Accounts db)
  ∧ Forall (fun t =>
              is_Some (Db.selectAccountByIdStmt (Transaction.account t) db)
              ∧ trimmed (Transaction.label t) = true
              ∧ num_isNaN (Transaction.amount t) = false
              ∧ trim (Transaction.account t) ≠ [])
           (Db.Transactions db).

(** The sum of the amounts of the transactions of an account, as
    [getAccountBalance] folds it. *)
Definition balanceOf {num : Type} `{Number num} (accountId : jsstring)
    (db : Db.Database num) : num :=
  fold_left (fun balance transaction => num_add balance (Transaction.amount transaction))
            (Db.selectTransactionsByAccountStmt accountId db) num_zero.

(** The order of two names by their code units. *)
Fixpoint string_leb (a b : jsstring) : bool :=
  match a, b with
  | [], _ => true
  | _ :: _, [] => false
  | x :: a', y :: b' => (x <? y) || ((x =? y) && string_leb a' b')
  end.

Fixpoint insertByName (a : Account.t) (l : list Account.t) : list Account.t :=
  match l with
  | [] => [a]
  | b :: l' =>
      if string_leb (Account.name a) (Account.name b) then a :: l
      else b :: insertByName a l'
  end.

(** A stable sort by name, for the examples. *)
Definition sortByName (l : list Account.t) : list Account.t :=
  foldr insertByName [] l.

(** A store with two accounts and one transaction. *)
Definition twoAccounts : Db.Database number :=
  {| Db.Accounts := [ {| Account.id := lit "a1"; Account.name := lit "savings" |};
                      {| Account.id := lit "a2"; Account.name := lit "cash" |} ];
     Db.Transactions :=
       [ {| Transaction.id := lit "t0"; Transaction.label := lit "salary";
            Transaction.amount := Num 5000; Transaction.account := lit "a1" |} ] |}.

(** The updates the persisted bot answers: the start command, the three
    actions of its keyboards and a text message, with the identifier
    [v7()] draws while it is handled. *)
Inductive BotUpdate : Type :=
  | StartCommand
  | ListAccountsAction
  | SelectAccountAction
  | CreateAccountAction
  | TextMessage (id : jsstring).

(** The handler of an update, behind the middleware for all but the start
    command, which is registered before it. *)
Definition handleBot
    (acceptsAccount : Db.Database number → Account.t → bool)
    (acceptsTransaction : Db.Database number → Transaction.t number → bool)
    (constraintFailure : jsstring)
    (orderByName : list Account.t → list Account.t)
    (isUserWhiteListed : jsstring → bool)
    (toLocaleString : number → jsstring)
    (u : BotUpdate) : Bot.Context → Bot.State → Bot.Outcome :=
  match u with
  | StartCommand => Bot.onStart isUserWhiteListed
  | ListAccountsAction =>
      Bot.use isUserWhiteListed (Bot.onListAccounts orderByName)
  | SelectAccountAction =>
      Bot.use isUserWhiteListed (Bot.onSelectAccount orderByName)
  | CreateAccountAction => Bot.use isUserWhiteListed Bot.onCreateAccount
  | TextMessage id =>
      Bot.use isUserWhiteListed
        (Bot.onText acceptsAccount acceptsTransaction constraintFailure
                    toLocaleString id)
  end.

(** The state after a sequence of updates, each with its context. *)
Definition runBot
    (acceptsAccount : Db.Database number → Account.t → bool)
    (acceptsTransaction : Db.Database number → Transaction.t number → bool)
    (constraintFailure : jsstring)
    (orderByName : list Account.t → list Account.t)
    (isUserWhiteListed : jsstring → bool)
    (toLocaleString : number → jsstring)
    (updates : list (BotUpdate * Bot.Context)) (st : Bot.State) : Bot.State :=
  fold_left
    (fun st u =>
       Bot.state (handleBot acceptsAccount acceptsTransaction constraintFailure
                            orderByName isUserWhiteListed toLocaleString
                            u.1 u.2 st))
    updates st.

(** The text of the sender's identifier, as the middleware passes it to
    [isUserWhiteListed]. *)
Definition senderText (ctx : Bot.Context) : jsstring :=
  match Bot.from_id ctx with
  | Some id => number_toString (Num id)
  | None => []
  end.

(** The text the bot answers a message that is no transaction with. *)
Definition invalidFormat : jsstring :=
  Main.crossMark ++ lit " Invalid transaction format. Expected: "
    ++ [quote] ++ lit "3000 for rent" ++ [quote] ++ lit ", "
    ++ [quote] ++ lit "+200 groceries" ++ [quote] ++ lit ", "
    ++ [quote] ++ lit "phone bill -150" ++ [quote] ++ lit ", or "
    ++ [quote] ++ lit "-50 coffee" ++ [quote].

(** The persisted bot with the store of two accounts, the first of them
    selected. *)
Definition savingsSelected : Bot.State :=
  {| Bot.store := twoAccounts;
     Bot.selectedAccountId := Some (lit "a1");
     Bot.awaitingAccountCreation := false |}.

Definition textOf (text : jsstring) : Bot.Context :=
  {| Bot.from_id := Some 7%Z; Bot.message_text := text; Bot.match_1 := [] |}.

(** * Properties *)

(** ** Strings *)

Abbreviation all p s := (Forall (fun a : N => p a = true) s).

Lemma forallb_all (p : N → bool) (s : jsstring) : forallb p s = true ↔ all p s.
Proof.
  induction s as [|a s IH]; simpl.
  - split; auto.
  - rewrite andb_true_iff, IH. split.
    + intros [? ?]. constructor; auto.
    + intros Hc. inversion Hc; auto.
Qed.

(** The text before the first character that fails [p] is determined. *)
Lemma split_first_unique (p : N → bool) (l l' : jsstring) x y a b :
  l ++ x :: a = l' ++ y :: b → all p l → all p l' →
  p x = false → p y = false → l = l' ∧ x = y ∧ a = b.
Proof.
  revert l'. induction l as [|h l IH]; intros [|h' l'] E Hl Hl' Hx Hy; simpl in E.
  - inversion E; auto.
  - inversion E; subst. inversion Hl'; subst. congruence.
  - inversion E; subst. inversion Hl; subst. congruence.
  - inversion E; subst. inversion Hl; inversion Hl'; subst.
    destruct (IH l' H1) as (-> & -> & ->); auto.
Qed.

(** The text after the last character that fails [p] is determined. *)
Lemma split_last_unique (p : N → bool) (l l' : jsstring) x y a b :
  a ++ x :: l = b ++ y :: l' → all p l → all p l' →
  p x = false → p y = false → a = b ∧ x = y ∧ l = l'.
Proof.
  intros E Hl Hl' Hx Hy.
  apply (f_equal (@rev N)) in E. rewrite !rev_app_distr in E. simpl in E.
  rewrite <- !app_assoc in E. simpl in E.
  apply (split_first_unique p) in E; auto.
  - destruct E as (E1 & -> & E2).
    apply (f_equal (@rev N)) in E1, E2. rewrite !rev_involutive in E1, E2. auto.
  - apply Forall_rev. auto.
  - apply Forall_rev. auto.
Qed.

Lemma trimStart_blank_app (l s : jsstring) :
  all isWhiteSpace l → trimStart (l ++ s) = trimStart s.
Proof.
  induction 1 as [|a l Ha _ IH]; simpl; auto. rewrite Ha. auto.
Qed.

Lemma trimStart_stop (a : N) (s : jsstring) :
  isWhiteSpace a = false → trimStart (a :: s) = a :: s.
Proof. intros Ha. simpl. rewrite Ha. auto. Qed.

Lemma trimStart_split (s : jsstring) :
  ∃ l, s = l ++ trimStart s ∧ all isWhiteSpace l.
Proof.
  induction s as [|a s (l & E & Hl)]; simpl.
  - exists []. auto.
  - destruct (isWhiteSpace a) eqn:Ha.
    + exists (a :: l). simpl. rewrite <- E. auto.
    + exists []. auto.
Qed.

Lemma trimStart_head (s : jsstring) :
  match trimStart s with a :: _ => isWhiteSpace a = false | [] => True end.
Proof.
  induction s as [|a s IH]; simpl; auto.
  destruct (isWhiteSpace a) eqn:Ha; auto.
Qed.

Lemma trimEnd_app_blank (s r : jsstring) :
  all isWhiteSpace r → trimEnd (s ++ r) = trimEnd s.
Proof.
  intros Hr. unfold trimEnd. rewrite rev_app_distr, trimStart_blank_app; auto.
  apply Forall_rev. auto.
Qed.

Lemma trimEnd_stop (s : jsstring) (a : N) :
  isWhiteSpace a = false → trimEnd (s ++ [a]) = s ++ [a].
Proof.
  intros Ha. unfold trimEnd. rewrite rev_app_distr. simpl. rewrite Ha.
  simpl. rewrite rev_involutive. auto.
Qed.

Lemma trimEnd_split (s : jsstring) :
  ∃ r, s = trimEnd s ++ r ∧ all isWhiteSpace r.
Proof.
  unfold trimEnd. destruct (trimStart_split (rev s)) as (l & E & Hl).
  exists (rev l). split.
  - rewrite <- rev_app_distr, <- E, rev_involutive. auto.
  - apply Forall_rev. auto.
Qed.

Lemma trimEnd_last (s : jsstring) :
  match last (trimEnd s) with Some a => isWhiteSpace a = false | None => True end.
Proof.
  unfold trimEnd. pose proof (trimStart_head (rev s)) as H.
  destruct (trimStart (rev s)) as [|a t]; simpl; auto.
  rewrite last_snoc. auto.
Qed.

Lemma trimmed_inv (s : jsstring) :
  trimmed s = true →
  ∃ a s' b, s = a :: s' ∧ isWhiteSpace a = false
          ∧ last s = Some b ∧ isWhiteSpace b = false.
Proof.
  unfold trimmed. intros Ht. apply andb_true_iff in Ht as [H1 H2].
  destruct s as [|a s']; [discriminate|].
  destruct (last (a :: s')) as [b|] eqn:Hl; [|discriminate].
  exists a, s', b. rewrite negb_true_iff in H1, H2. auto.
Qed.

Lemma last_split (s : jsstring) (b : N) : last s = Some b → ∃ s', s = s' ++ [b].
Proof.
  intros Hl. destruct (decide (s = [])) as [->|Hne]; [discriminate|].
  destruct (exists_last Hne) as (s' & b' & ->).
  rewrite last_snoc in Hl. inversion Hl; subst. eauto.
Qed.

Lemma trimStart_trimmed (s t : jsstring) :
  trimmed s = true → trimStart (s ++ t) = s ++ t.
Proof.
  intros (a & s' & b & -> & Ha & _)%trimmed_inv. simpl. rewrite Ha. auto.
Qed.

Lemma trimEnd_trimmed (s : jsstring) : trimmed s = true → trimEnd s = s.
Proof.
  intros (a & s' & b & E & Ha & Hl & Hb)%trimmed_inv.
  destruct (last_split _ _ Hl) as (t & ->). apply trimEnd_stop; auto.
Qed.

(** Trimming removes the white space around a trimmed text, and nothing else. *)
Lemma trim_strip (pre s post : jsstring) :
  all isWhiteSpace pre → all isWhiteSpace post → trimmed s = true →
  trim (pre ++ s ++ post) = s.
Proof.
  intros Hpre Hpost Hs. unfold trim.
  rewrite trimStart_blank_app, trimStart_trimmed, trimEnd_app_blank by auto.
  apply trimEnd_trimmed; auto.
Qed.

Lemma trim_of_trimmed (s : jsstring) : trimmed s = true → trim s = s.
Proof.
  intros Hs. rewrite <- (trim_strip [] s []) at 2; auto.
  simpl. rewrite app_nil_r. auto.
Qed.

Lemma trim_split (s : jsstring) :
  ∃ l r, s = l ++ trim s ++ r ∧ all isWhiteSpace l ∧ all isWhiteSpace r.
Proof.
  destruct (trimStart_split s) as (l & E & Hl).
  destruct (trimEnd_split (trimStart s)) as (r & E' & Hr).
  exists l, r. unfold trim. rewrite <- E', <- E. auto.
Qed.

Lemma trimEnd_head (s : jsstring) (a : N) :
  isWhiteSpace a = false → ∀ t, s = a :: t → ∃ t', trimEnd s = a :: t'.
Proof.
  intros Ha t ->. destruct (trimEnd_split (a :: t)) as (r & E & Hr).
  destruct (trimEnd (a :: t)) as [|a' t'] eqn:Ht.
  - simpl in E. subst r. inversion Hr; congruence.
  - inversion E; subst. eauto.
Qed.

(** A trimmed text is empty, or begins and ends with a character that is
    not white space. *)
Lemma trim_edges (s : jsstring) : trim s = [] ∨ trimmed (trim s) = true.
Proof.
  unfold trim. pose proof (trimStart_head s) as Hh.
  pose proof (trimEnd_last (trimStart s)) as Hl.
  destruct (trimStart s) as [|a t] eqn:Hs.
  - left. reflexivity.
  - right. destruct (trimEnd_head (a :: t) a Hh t eq_refl) as (t' & Ht').
    unfold trimmed. rewrite Ht' in *.
    rewrite Hh. simpl negb.
    destruct (last (a :: t')) as [b|] eqn:Hb.
    + rewrite Hl. reflexivity.
    + destruct t'; simpl in Hb; try discriminate.
      destruct (last_is_Some (n :: t')) as [_ Hx].
      destruct Hx as [y Hy]; [discriminate|]. simpl in Hy. congruence.
Qed.

(** ** The matcher *)

Section Matcher.

Implicit Types (r : regex) (cc : charclass) (s w rest : jsstring)
               (c : captures) (k : cont) (i : nat).

Lemma repeatClass_sound g cc s : ∀ i c k x,
  repeatClass g cc i s c k = Some x →
  ∃ w rest, s = w ++ rest ∧ all (mem cc) w ∧ k (i + length w)%nat rest c = Some x.
Proof.
  induction s as [|a s IH]; intros i c k x Hx; simpl in Hx.
  { exists [], []. simpl. rewrite Nat.add_0_r. auto. }
  assert (Hstay : k i (a :: s) c = Some x →
    ∃ w rest, a :: s = w ++ rest ∧ all (mem cc) w
              ∧ k (i + length w)%nat rest c = Some x).
  { intros Hk. exists [], (a :: s). simpl. rewrite Nat.add_0_r. auto. }
  assert (Hgo : repeatClass g cc (S i) s c k = Some x → mem cc a = true →
    ∃ w rest, a :: s = w ++ rest ∧ all (mem cc) w
              ∧ k (i + length w)%nat rest c = Some x).
  { intros Hr Ha. apply IH in Hr as (w & rest & -> & Hw & Hk).
    exists (a :: w), rest. simpl. rewrite <- Nat.add_succ_comm. auto. }
  destruct (mem cc a) eqn:Ha; [|auto].
  destruct g.
  - destruct (repeatClass true cc (S i) s c k) eqn:Hr; [inversion Hx; subst|]; auto.
  - destruct (k i (a :: s) c) eqn:Hk; [inversion Hx; subst|]; auto.
Qed.

(** Whatever the matcher returns was returned by its continuation, called
    after a word the pattern denotes. *)
Theorem matcher_sound r : ∀ i s c k x,
  matcher r i s c k = Some x →
  ∃ w rest c', s = w ++ rest ∧ den r i w rest c c'
               ∧ k (i + length w)%nat rest c' = Some x.
Proof.
  induction r as [|cc|g cc|r1 IH1 r2 IH2|r1 IH1 r2 IH2|n r IH| |];
    intros i s c k x Hx; simpl in Hx.
  - exists [], s, c. simpl. rewrite Nat.add_0_r. auto.
  - destruct s as [|a s]; [discriminate|].
    destruct (mem cc a) eqn:Ha; [|discriminate].
    exists [a], s, c. simpl. rewrite Nat.add_1_r. eauto 6.
  - apply repeatClass_sound in Hx as (w & rest & -> & Hw & Hk).
    exists w, rest, c. simpl. auto.
  - apply IH1 in Hx as (w1 & rest1 & c1 & -> & H1 & Hx).
    apply IH2 in Hx as (w2 & rest & c' & -> & H2 & Hx).
    exists (w1 ++ w2), rest, c'. rewrite length_app, Nat.add_assoc, <- app_assoc.
    simpl. eauto 10.
  - destruct (matcher r1 i s c k) eqn:Hm.
    + inversion Hx; subst. apply IH1 in Hm as (w & rest & c' & -> & H1 & Hk).
      exists w, rest, c'. simpl. auto.
    + apply IH2 in Hx as (w & rest & c' & -> & H2 & Hk).
      exists w, rest, c'. simpl. auto.
  - apply IH in Hx as (w & rest & c' & -> & H1 & Hk).
    replace (i + length w - i)%nat with (length w) in Hk by lia.
    rewrite take_app_length in Hk.
    exists w, rest, (<[n := w]> c'). simpl. eauto.
  - destruct (i =? 0)%nat eqn:Hi; [|discriminate]. apply Nat.eqb_eq in Hi.
    exists [], s, c. simpl. rewrite Nat.add_0_r. auto.
  - destruct s; [|discriminate].
    exists [], [], c. simpl. rewrite Nat.add_0_r. auto.
Qed.

Lemma repeatClass_complete g cc w : ∀ rest i c k x,
  all (mem cc) w → k (i + length w)%nat rest c = Some x →
  is_Some (repeatClass g cc i (w ++ rest) c k).
Proof.
  induction w as [|a w IH]; intros rest i c k x Hw Hk; simpl in *.
  - rewrite Nat.add_0_r in Hk.
    destruct rest as [|b rest]; simpl; [eauto|].
    destruct (mem cc b); [|eauto].
    destruct g.
    + destruct (repeatClass true cc (S i) rest c k); eauto.
    + rewrite Hk. eauto.
  - inversion Hw as [|? ? Ha Hw']; subst. rewrite Ha.
    rewrite <- Nat.add_succ_comm in Hk.
    destruct (IH rest (S i) c k x Hw' Hk) as [y Hy].
    destruct g.
    + rewrite Hy. eauto.
    + destruct (k i (a :: w ++ rest) c); eauto.
Qed.

(** A word the pattern denotes, followed by a rest the continuation
    accepts, is not rejected. *)
Theorem matcher_complete r : ∀ i w rest c c' k x,
  den r i w rest c c' → k (i + length w)%nat rest c' = Some x →
  is_Some (matcher r i (w ++ rest) c k).
Proof.
  induction r as [|cc|g cc|r1 IH1 r2 IH2|r1 IH1 r2 IH2|n r IH| |];
    intros i w rest c c' k x Hd Hk; simpl in Hd.
  - destruct Hd as [-> ->]. simpl in *. rewrite Nat.add_0_r in Hk. eauto.
  - destruct Hd as (a & -> & Ha & ->). simpl in *. rewrite Ha.
    rewrite Nat.add_1_r in Hk. eauto.
  - destruct Hd as [Hw ->]. simpl. eapply repeatClass_complete; eauto.
  - destruct Hd as (w1 & w2 & c1 & -> & H1 & H2).
    rewrite length_app, Nat.add_assoc in Hk.
    destruct (IH2 _ _ _ _ _ _ _ H2 Hk) as [y Hy].
    rewrite <- app_assoc. simpl. eapply IH1; eauto.
  - simpl. destruct Hd as [H1|H2].
    + destruct (IH1 _ _ _ _ _ _ _ H1 Hk) as [y ->]. eauto.
    + destruct (matcher r1 i (w ++ rest) c k); eauto.
  - destruct Hd as (c1 & H1 & ->). simpl. eapply IH; eauto.
    simpl. replace (i + length w - i)%nat with (length w) by lia.
    rewrite take_app_length. eauto.
  - destruct Hd as (-> & -> & ->). simpl in *. eauto.
  - destruct Hd as (-> & -> & ->). simpl in *. rewrite Nat.add_0_r in Hk. eauto.
Qed.

(** *** Priorities *)

Lemma repeatClass_stop g cc rest i c k :
  stops cc rest → repeatClass g cc i rest c k = k i rest c.
Proof. destruct rest as [|a rest]; simpl; auto. intros ->. auto. Qed.

(** A greedy repetition first takes every character of the class. *)
Lemma repeatClass_greedy_max cc w : ∀ rest i c k x,
  all (mem cc) w → stops cc rest → k (i + length w)%nat rest c = Some x →
  repeatClass true cc i (w ++ rest) c k = Some x.
Proof.
  induction w as [|a w IH]; intros rest i c k x Hw Hs Hk; simpl in *.
  - rewrite Nat.add_0_r in Hk. rewrite repeatClass_stop; auto.
  - inversion Hw as [|? ? Ha Hw']; subst. rewrite Ha.
    rewrite <- Nat.add_succ_comm in Hk. rewrite (IH rest (S i) c k x); auto.
Qed.

(** A lazy repetition stops at the first length its continuation accepts. *)
Lemma repeatClass_lazy_first cc w : ∀ rest i c k x,
  all (mem cc) w → k (i + length w)%nat rest c = Some x →
  (∀ w1 w2, w = w1 ++ w2 → w2 ≠ [] → k (i + length w1)%nat (w2 ++ rest) c = None) →
  repeatClass false cc i (w ++ rest) c k = Some x.
Proof.
  induction w as [|a w IH]; intros rest i c k x Hw Hk Hnone; simpl in *.
  - rewrite Nat.add_0_r in Hk.
    destruct rest as [|b rest]; simpl; auto.
    rewrite Hk. destruct (mem cc b); auto.
  - inversion Hw as [|? ? Ha Hw']; subst. rewrite Ha.
    specialize (Hnone [] (a :: w) eq_refl) as H0. simpl in H0.
    rewrite Nat.add_0_r in H0. rewrite H0 by discriminate.
    rewrite <- Nat.add_succ_comm in Hk. apply IH; auto.
    intros w1 w2 -> Hne. specialize (Hnone (a :: w1) w2 eq_refl Hne).
    simpl in Hnone. rewrite <- Nat.add_succ_comm in Hnone. auto.
Qed.

Lemma matcher_plus_greedy_max cc w rest i c k x :
  w ≠ [] → all (mem cc) w → stops cc rest →
  k (i + length w)%nat rest c = Some x →
  matcher (Plus true cc) i (w ++ rest) c k = Some x.
Proof.
  intros Hne Hw Hs Hk. destruct w as [|a w]; [congruence|].
  inversion Hw as [|? ? Ha Hw']; subst. simpl. rewrite Ha.
  apply repeatClass_greedy_max; auto.
  simpl in Hk. rewrite <- Nat.add_succ_comm in Hk. auto.
Qed.

Lemma matcher_group_plus_greedy_max n cc w rest i c k x :
  w ≠ [] → all (mem cc) w → stops cc rest →
  k (i + length w)%nat rest (<[n := w]> c) = Some x →
  matcher (Group n (Plus true cc)) i (w ++ rest) c k = Some x.
Proof.
  intros Hne Hw Hs Hk.
  change (matcher (Group n (Plus true cc)) i (w ++ rest) c k)
    with (matcher (Plus true cc) i (w ++ rest) c
            (fun i' s' c' => k i' s' (<[n := take (i' - i) (w ++ rest)]> c'))).
  apply matcher_plus_greedy_max; auto.
  replace (i + length w - i)%nat with (length w) by lia.
  rewrite take_app_length. auto.
Qed.

(** An anchored pattern is only tried at index 0. *)
Lemma search_anchored r s :
  regex_match (Seq AssertStart r) s = matcher (Seq AssertStart r) 0 s ∅ accept.
Proof.
  unfold regex_match. 
  assert (Hlater : ∀ t i, search (Seq AssertStart r) (S i) t = None).
  { induction t as [|a t IH]; intros i; simpl; auto. }
  destruct s as [|a s]; simpl.
  - destruct (matcher r 0 [] ∅ accept); auto.
  - destruct (matcher r 0 (a :: s) ∅ accept); auto.
Qed.

End Matcher.

(** ** Rounding to binary64 *)

Section Rounding.
Local Open Scope Z_scope.

Lemma log2_small (m : Z) : 0 <= m < 2 ^ 53 → Z.log2 m - 52 <= 0.
Proof.
  intros [H0 H1]. destruct (Z.eq_dec m 0) as [->|Hne]; [simpl; lia|].
  assert (Z.log2 m < 53) by (apply Z.log2_lt_pow2; lia). lia.
Qed.

Lemma binary64_exact (z : Z) : Z.abs z < 2 ^ 53 → binary64 z = Num z.
Proof.
  intros Hz. unfold binary64. cbv zeta.
  pose proof (log2_small (Z.abs z)) as Hl.
  destruct (Z.leb_spec (Z.log2 (Z.abs z) - 52) 0) as [_|Hs]; [reflexivity|lia].
Qed.

Lemma binary64_opp (z : Z) : binary64 (- z) = number_neg (binary64 z).
Proof.
  unfold binary64. cbv zeta. rewrite Z.abs_opp.
  destruct (Z.log2 (Z.abs z) - 52 <=? 0) eqn:Hs; [reflexivity|].
  apply Z.leb_gt in Hs.
  assert (Hz : z ≠ 0).
  { intros ->. simpl in Hs. lia. }
  match goal with |- context [2 ^ 1024 <=? ?v] => destruct (2 ^ 1024 <=? v) end;
    simpl number_neg.
  - f_equal. destruct (Z.ltb_spec (- z) 0), (Z.ltb_spec z 0); simpl; try reflexivity; lia.
  - f_equal. rewrite Z.sgn_opp. lia.
Qed.

(** A positive multiple of a power of two with a quotient of 53 bits is
    its own Number value. *)
Lemma binary64_fixed (q s : Z) :
  0 < s → 2 ^ 52 <= q <= 2 ^ 53 → q * 2 ^ s < 2 ^ 1024 →
  binary64 (q * 2 ^ s) = Num (q * 2 ^ s).
Proof.
  intros Hs Hq Hlt.
  assert (Hp : 0 < 2 ^ s) by (apply Z.pow_pos_nonneg; lia).
  assert (Hv : 0 < q * 2 ^ s) by nia.
  destruct (Z.eq_dec q (2 ^ 53)) as [->|Hne].
  - (* the quotient carried into the next binade *)
    rewrite <- Z.pow_add_r by lia.
    unfold binary64. cbv zeta. rewrite Z.abs_eq by (apply Z.pow_nonneg; lia).
    rewrite Z.log2_pow2 by lia.
    replace (53 + s - 52) with (s + 1) by lia.
    destruct (Z.leb_spec (s + 1) 0); [lia|].
    replace (2 ^ (53 + s)) with (2 ^ 52 * 2 ^ (s + 1))
      by (rewrite <- Z.pow_add_r by lia; f_equal; lia).
    assert (Hp1 : 0 < 2 ^ (s + 1)) by (apply Z.pow_pos_nonneg; lia).
    rewrite Z.div_mul, Z.mod_mul by lia.
    replace (s + 1 - 1) with s by lia.
    destruct (Z.ltb_spec (2 ^ s) 0); [lia|].
    destruct (Z.eqb_spec 0 (2 ^ s)); [lia|]. cbn [orb andb].
    assert (Hlt' : 2 ^ 52 * 2 ^ (s + 1) < 2 ^ 1024).
    { rewrite <- Z.pow_add_r in Hlt |- * by lia.
      replace (52 + (s + 1)) with (53 + s) by lia. exact Hlt. }
    destruct (Z.leb_spec (2 ^ 1024) (2 ^ 52 * 2 ^ (s + 1))); [lia|].
    rewrite Z.sgn_pos by nia. f_equal. ring.
  - assert (Hl : Z.log2 (q * 2 ^ s) = s + 52).
    { rewrite Z.log2_mul_pow2 by lia.
      assert (Z.log2 q = 52); [|lia].
      apply Z.log2_unique; [lia|]. simpl Z.succ. change (Z.succ 52) with 53. lia. }
    unfold binary64. cbv zeta. rewrite Z.abs_eq by lia. rewrite Hl.
    replace (s + 52 - 52) with s by lia.
    destruct (Z.leb_spec s 0); [lia|].
    rewrite Z.div_mul, Z.mod_mul by lia.
    assert (Hh : 0 < 2 ^ (s - 1)) by (apply Z.pow_pos_nonneg; lia).
    destruct (Z.ltb_spec (2 ^ (s - 1)) 0); [lia|].
    destruct (Z.eqb_spec 0 (2 ^ (s - 1))); [lia|]. cbn [orb andb].
    destruct (Z.leb_spec (2 ^ 1024) (q * 2 ^ s)); [lia|].
    rewrite Z.sgn_pos by lia. f_equal. ring.
Qed.

Lemma binary64_cases (z : Z) :
  binary64 z = Num z
  ∨ binary64 z = Infinity (z <? 0)
  ∨ ∃ q s, 0 < s ∧ 2 ^ 52 <= q <= 2 ^ 53 ∧ q * 2 ^ s < 2 ^ 1024
           ∧ z ≠ 0 ∧ binary64 z = Num (Z.sgn z * (q * 2 ^ s)).
Proof.
  unfold binary64. cbv zeta.
  destruct (Z.leb_spec (Z.log2 (Z.abs z) - 52) 0) as [|Hs]; [left; reflexivity|].
  set (s := Z.log2 (Z.abs z) - 52) in *.
  set (m := Z.abs z).
  assert (Hm : 0 < m).
  { subst m. destruct (Z.eq_dec z 0) as [->|]; [simpl in s; subst s; simpl in Hs; lia|lia]. }
  assert (Hp : 0 < 2 ^ s) by (apply Z.pow_pos_nonneg; lia).
  pose proof (Z.log2_spec m Hm) as [Hlo Hhi].
  replace (Z.log2 m) with (52 + s) in Hlo by (subst s m; lia).
  replace (Z.succ (Z.log2 m)) with (53 + s) in Hhi by (subst s m; lia).
  rewrite Z.pow_add_r in Hlo, Hhi by lia.
  assert (Hq : 2 ^ 52 <= m / 2 ^ s < 2 ^ 53).
  { split.
    - apply Z.div_le_lower_bound; lia.
    - apply Z.div_lt_upper_bound; lia. }
  match goal with |- context [if ?c then m / 2 ^ s + 1 else m / 2 ^ s] =>
    set (q' := if c then m / 2 ^ s + 1 else m / 2 ^ s) end.
  assert (Hq' : 2 ^ 52 <= q' <= 2 ^ 53).
  { subst q'. match goal with |- context [if ?c then _ else _] => destruct c end; lia. }
  destruct (Z.leb_spec (2 ^ 1024) (q' * 2 ^ s)); [right; left; reflexivity|].
  right. right. exists q', s. repeat split; lia.
Qed.

(** Rounding twice is rounding once. *)
Lemma binary64_idem (z v : Z) : binary64 z = Num v → binary64 v = Num v.
Proof.
  intros Hz.
  destruct (binary64_cases z) as [E|[E|(q & s & Hs & Hq & Hlt & Hne & E)]];
    rewrite E in Hz; [injection Hz as <-; exact E|discriminate|].
  injection Hz as <-.
  destruct (Z.sgn_spec z) as [[? ->]|[[? ->]|[? ->]]]; [|lia|].
  - rewrite Z.mul_1_l. apply binary64_fixed; assumption.
  - replace (-1 * (q * 2 ^ s)) with (- (q * 2 ^ s)) by lia.
    rewrite binary64_opp, binary64_fixed by assumption. reflexivity.
Qed.

Lemma binary64_ge0 (z : Z) : 0 <= z → number_ge0 (binary64 z) = true.
Proof.
  intros Hz.
  destruct (binary64_cases z) as [E|[E|(q & s & Hs & Hq & Hlt & Hne & E)]];
    rewrite E; simpl.
  - apply Z.leb_le. exact Hz.
  - destruct (Z.ltb_spec z 0); [lia|reflexivity].
  - apply Z.leb_le. rewrite Z.sgn_pos by lia.
    assert (0 < 2 ^ s) by (apply Z.pow_pos_nonneg; lia). nia.
Qed.

Lemma binary64_not_NaN (z : Z) : number_isNaN (binary64 z) = false.
Proof.
  destruct (binary64_cases z) as [E|[E|(q & s & _ & _ & _ & _ & E)]];
    rewrite E; reflexivity.
Qed.
End Rounding.

(** ** [parseInt] on the texts the patterns capture *)

Lemma isDigit_cases (a : N) :
  isDigit a = true → a ∈ [48; 49; 50; 51; 52; 53; 54; 55; 56; 57].
Proof.
  unfold isDigit. rewrite andb_true_iff, !N.leb_le. intros [H1 H2].
  assert (a = 48 ∨ a = 49 ∨ a = 50 ∨ a = 51 ∨ a = 52 ∨ a = 53 ∨ a = 54
          ∨ a = 55 ∨ a = 56 ∨ a = 57) as Hc by lia.
  repeat (destruct Hc as [->|Hc]; [set_solver|]). subst. set_solver.
Qed.

Ltac digit_cases H :=
  apply isDigit_cases in H;
  repeat (apply elem_of_cons in H as [->|H]); [..|by apply elem_of_nil in H].

Lemma digit_not_space (a : N) : isDigit a = true → isWhiteSpace a = false.
Proof. intros H. digit_cases H; reflexivity. Qed.

Lemma digit_not_sign (a : N) : isDigit a = true → mem (CSet [43; 45]) a = false.
Proof. intros H. digit_cases H; reflexivity. Qed.

Lemma digit_is_dot (a : N) : isDigit a = true → mem CDot a = true.
Proof. intros H. digit_cases H; reflexivity. Qed.

Lemma readSign_digit (a : N) (s : jsstring) :
  isDigit a = true → readSign (a :: s) = (1%Z, a :: s).
Proof. intros H. digit_cases H; reflexivity. Qed.

Lemma readRadix_digits (s : jsstring) :
  all isDigit s → readRadix s = (10%Z, s).
Proof.
  intros Hs. destruct s as [|a s]; [reflexivity|].
  inversion Hs as [|? ? Ha Hs']; subst.
  digit_cases Ha; try reflexivity.
  destruct s as [|b s]; [reflexivity|].
  inversion Hs' as [|? ? Hb _]; subst.
  digit_cases Hb; reflexivity.
Qed.

Lemma digitValue_digit (a : N) :
  isDigit a = true → digitValue 10 a = Some (Z.of_N (a - 48)).
Proof. intros H. unfold digitValue. rewrite H. reflexivity. Qed.

Lemma readDigits_digits (ds : jsstring) : ∀ acc seen,
  all isDigit ds → seen = true ∨ ds ≠ [] →
  readDigits 10 ds acc seen
  = Some (fold_left (fun acc d => (10 * acc + Z.of_N (d - 48))%Z) ds acc).
Proof.
  induction ds as [|a ds IH]; intros acc seen Hd Hs; simpl.
  - destruct Hs as [->|]; [reflexivity|congruence].
  - inversion Hd as [|? ? Ha Hd']; subst.
    rewrite digitValue_digit by auto. apply IH; auto.
Qed.

Lemma digitsValue_nonneg (ds : jsstring) : (0 <= digitsValue ds)%Z.
Proof.
  unfold digitsValue.
  assert (G : ∀ l acc, (0 <= acc)%Z →
            (0 <= fold_left (fun acc d => (10 * acc + Z.of_N (d - 48))%Z) l acc)%Z).
  { induction l as [|d l IH]; intros acc Hacc; simpl; [exact Hacc|].
    apply IH. lia. }
  apply G. lia.
Qed.

(** A value of digits below 2^53 is read exactly. *)
Lemma binary64_digits (ds : jsstring) :
  (digitsValue ds < 2 ^ 53)%Z → binary64 (digitsValue ds) = Num (digitsValue ds).
Proof.
  intros Hlt. apply binary64_exact.
  pose proof (digitsValue_nonneg ds). lia.
Qed.

Lemma parseInt_digits (ds : jsstring) :
  ds ≠ [] → all isDigit ds → parseInt (Some ds) = binary64 (digitsValue ds).
Proof.
  intros Hne Hd. unfold parseInt.
  destruct ds as [|a ds]; [congruence|].
  inversion Hd as [|? ? Ha Hd']; subst.
  rewrite trimStart_stop by (apply digit_not_space; auto).
  rewrite readSign_digit by auto.
  rewrite readRadix_digits by auto.
  rewrite readDigits_digits by auto.
  unfold digitsValue. f_equal. lia.
Qed.

Lemma parseInt_signed (sc : N) (ds : jsstring) :
  sc = 43 ∨ sc = 45 → ds ≠ [] → all isDigit ds →
  parseInt (Some (sc :: ds))
  = binary64 (if sc =? 45 then - digitsValue ds else digitsValue ds).
Proof.
  intros Hsc Hne Hd. unfold parseInt.
  destruct Hsc as [-> | ->]; simpl trimStart; simpl readSign; cbv iota beta;
    rewrite readRadix_digits by auto; rewrite readDigits_digits by auto;
    unfold digitsValue; simpl N.eqb; cbv iota; f_equal; lia.
Qed.

(** ** The pattern of [parseMessage] *)

Lemma signClass_inv (a : N) : mem Utils.signClass a = true → a = 43 ∨ a = 45.
Proof.
  simpl. intros H%bool_decide_eq_true.
  apply elem_of_cons in H as [->|H]; auto.
  apply elem_of_cons in H as [->|H]; auto.
  by apply elem_of_nil in H.
Qed.

Lemma den_plus g cc i w rest c c' :
  den (Plus g cc) i w rest c c' → w ≠ [] ∧ all (mem cc) w ∧ c' = c.
Proof.
  cbn [den Plus]. intros (w1 & w2 & c1 & -> & (a & -> & Ha & ->) & Hw & ->).
  split; [discriminate|]. split; auto. constructor; auto.
Qed.

Lemma den_group_plus n g cc i w rest c c' :
  den (Group n (Plus g cc)) i w rest c c' →
  w ≠ [] ∧ all (mem cc) w ∧ c' = <[n := w]> c.
Proof.
  cbn [den]. intros (c1 & (Hne & Hw & ->)%den_plus & ->). auto.
Qed.

Lemma den_amountFirst i w rest c c' :
  den Utils.amountFirst i w rest c c' →
  ∃ sg ds ws body,
    w = sg ++ ds ++ ws ++ body
    ∧ (sg = [] ∨ sg = [43] ∨ sg = [45])
    ∧ ds ≠ [] ∧ all isDigit ds
    ∧ ws ≠ [] ∧ all isWhiteSpace ws
    ∧ body ≠ [] ∧ all (mem CDot) body
    ∧ c' = <[3%nat := body]> (<[2%nat := ds]> (<[1%nat := sg]> c)).
Proof.
  unfold Utils.amountFirst. cbn [den].
  intros (sg & w1 & c1 & -> & (c0 & Hsg & ->) & Hd).
  destruct Hd as (ds & w2 & c2 & -> & (Hds & Hds' & ->)%den_group_plus & Hd).
  destruct Hd as (ws & body & c3 & -> & (Hws & Hws' & ->)%den_plus & Hd).
  apply den_group_plus in Hd as (Hb & Hb' & ->).
  exists sg, ds, ws, body. repeat split; auto.
  - unfold Opt in Hsg. cbn [den] in Hsg.
    destruct Hsg as [(a & -> & [-> | ->]%signClass_inv & _)|[-> _]]; auto.
  - unfold Opt in Hsg. cbn [den] in Hsg.
    destruct Hsg as [(a & _ & _ & ->)|[_ ->]]; auto.
Qed.

Lemma den_labelFirst i w rest c c' :
  den Utils.labelFirst i w rest c c' →
  ∃ body ws sc ds,
    w = body ++ ws ++ sc :: ds
    ∧ body ≠ [] ∧ all (mem CDot) body
    ∧ ws ≠ [] ∧ all isWhiteSpace ws
    ∧ (sc = 43 ∨ sc = 45)
    ∧ ds ≠ [] ∧ all isDigit ds
    ∧ c' = <[6%nat := ds]> (<[5%nat := [sc]]> (<[4%nat := body]> c)).
Proof.
  unfold Utils.labelFirst. cbn [den].
  intros (body & w1 & c1 & -> & (Hb & Hb' & ->)%den_group_plus & Hd).
  destruct Hd as (ws & w2 & c2 & -> & (Hws & Hws' & ->)%den_plus & Hd).
  destruct Hd as (sg & ds & c3 & -> & (c4 & (sc & -> & Hsc & ->) & ->) & Hd).
  apply den_group_plus in Hd as (Hds & Hds' & ->).
  exists body, ws, sc, ds. repeat split; auto.
  apply signClass_inv; auto.
Qed.

(** A match of [^\s*(?:r)\s*$] covers the whole text: white space, a word
    of [r], white space. *)
Lemma anchored_inv (r : regex) (t : jsstring) (mt : captures) :
  regex_match (anchored r) t = Some mt →
  ∃ w0 wm w2,
    t = w0 ++ wm ++ w2 ∧ all isWhiteSpace w0 ∧ all isWhiteSpace w2
    ∧ den r (length w0) wm w2 ∅ mt.
Proof.
  unfold anchored. rewrite search_anchored. intros Hm.
  apply matcher_sound in Hm as (w & rest & c' & -> & Hd & Hk).
  unfold accept in Hk. inversion Hk; subst; clear Hk.
  cbn [den] in Hd.
  destruct Hd as (e & w1 & c1 & -> & (_ & -> & ->) & Hd).
  destruct Hd as (w0 & w2 & c2 & -> & (Hw0 & ->) & Hd).
  destruct Hd as (wm & wt & c3 & -> & Hd & Ht).
  destruct Ht as (wt' & e' & c4 & -> & (Hwt & ->) & (-> & -> & ->)).
  exists w0, wm, wt'. simpl in *. rewrite !app_nil_r in *. auto.
Qed.

(** What a match of the pattern says of the text and of the groups. *)
Lemma pattern_match_inv (t : jsstring) (mt : captures) :
  regex_match Utils.pattern t = Some mt →
  ∃ w0 ws w2 ds,
    all isWhiteSpace w0 ∧ all isWhiteSpace ws ∧ ws ≠ [] ∧ all isWhiteSpace w2
    ∧ all isDigit ds ∧ ds ≠ []
    ∧ ((∃ sg body,
          t = w0 ++ sg ++ ds ++ ws ++ body ++ w2
          ∧ (sg = [] ∨ sg = [43] ∨ sg = [45])
          ∧ all (mem CDot) body ∧ body ≠ []
          ∧ mt = <[3%nat := body]> (<[2%nat := ds]> (<[1%nat := sg]> ∅)))
       ∨ (∃ body sc,
          t = w0 ++ body ++ ws ++ sc :: ds ++ w2
          ∧ (sc = 43 ∨ sc = 45)
          ∧ all (mem CDot) body ∧ body ≠ []
          ∧ mt = <[6%nat := ds]> (<[5%nat := [sc]]> (<[4%nat := body]> ∅)))).
Proof.
  intros (w0 & wm & w2 & -> & Hw0 & Hw2 & Hd)%anchored_inv.
  cbn [den] in Hd. destruct Hd as [Hd|Hd].
  - apply den_amountFirst in Hd
      as (sg & ds & ws & body & -> & Hsg & ? & ? & ? & ? & ? & ? & ->).
    exists w0, ws, w2, ds. repeat split; auto. left. exists sg, body.
    repeat split; auto. rewrite <- !app_assoc. reflexivity.
  - apply den_labelFirst in Hd
      as (body & ws & sc & ds & -> & ? & ? & ? & ? & ? & ? & ? & ->).
    exists w0, ws, w2, ds. repeat split; auto. right. exists body, sc.
    repeat split; auto. rewrite <- !app_assoc. reflexivity.
Qed.

(** ** [parseMessage] *)

Lemma optionalSign_inv (s : jsstring) :
  optionalSign s = true ↔ s = [] ∨ s = [43] ∨ s = [45].
Proof.
  unfold optionalSign, mandatorySign, string_eqb.
  rewrite !orb_true_iff, !bool_decide_eq_true. tauto.
Qed.

Lemma mandatorySign_inv (s : jsstring) :
  mandatorySign s = true ↔ ∃ sc, s = [sc] ∧ (sc = 43 ∨ sc = 45).
Proof.
  unfold mandatorySign, string_eqb.
  rewrite !orb_true_iff, !bool_decide_eq_true. split.
  - intros [-> | ->]; eauto.
  - intros (sc & -> & [-> | ->]); auto.
Qed.

Lemma nonEmpty_inv (s : jsstring) : nonEmpty s = true ↔ s ≠ [].
Proof. destruct s; simpl; split; congruence. Qed.

(** The result of [parseMessage] once the amount-first groups are known. *)
Lemma parseMessage_amountFirst (text sg ds body : jsstring) :
  regex_match Utils.pattern (trim text)
  = Some (<[3%nat := body]> (<[2%nat := ds]> (<[1%nat := sg]> ∅))) →
  sg = [] ∨ sg = [43] ∨ sg = [45] → ds ≠ [] → all isDigit ds →
  Utils.parseMessage text
  = Return (Some {| ParsedTransaction.label := trim body;
                    ParsedTransaction.sign := signOf sg;
                    ParsedTransaction.amount := binary64 (digitsValue ds) |}).
Proof.
  intros Hm Hsg Hne Hds. unfold Utils.parseMessage. rewrite Hm.
  rewrite !lookup_insert_eq.
  rewrite (lookup_insert_ne _ 3%nat 2%nat), lookup_insert_eq by done.
  rewrite (lookup_insert_ne _ 3%nat 1%nat), (lookup_insert_ne _ 2%nat 1%nat),
    lookup_insert_eq by done.
  rewrite parseInt_digits by auto.
  destruct Hsg as [-> | [-> | ->]]; reflexivity.
Qed.

(** The result of [parseMessage] once the label-first groups are known. *)
Lemma parseMessage_labelFirst (text body ds : jsstring) (sc : N) :
  regex_match Utils.pattern (trim text)
  = Some (<[6%nat := ds]> (<[5%nat := [sc]]> (<[4%nat := body]> ∅))) →
  sc = 43 ∨ sc = 45 → ds ≠ [] → all isDigit ds →
  Utils.parseMessage text
  = Return (Some {| ParsedTransaction.label := trim body;
                    ParsedTransaction.sign := signOf [sc];
                    ParsedTransaction.amount := binary64 (digitsValue ds) |}).
Proof.
  intros Hm Hsc Hne Hds. unfold Utils.parseMessage. rewrite Hm.
  rewrite !lookup_insert_eq.
  rewrite (lookup_insert_ne _ 6%nat 5%nat), lookup_insert_eq by done.
  rewrite (lookup_insert_ne _ 6%nat 4%nat), (lookup_insert_ne _ 5%nat 4%nat),
    lookup_insert_eq by done.
  rewrite (lookup_insert_ne _ 6%nat 1%nat), (lookup_insert_ne _ 5%nat 1%nat),
    (lookup_insert_ne _ 4%nat 1%nat), lookup_empty by done.
  rewrite (lookup_insert_ne _ 6%nat 2%nat), (lookup_insert_ne _ 5%nat 2%nat),
    (lookup_insert_ne _ 4%nat 2%nat), lookup_empty by done.
  rewrite parseInt_digits by auto.
  destruct Hsc as [-> | ->]; reflexivity.
Qed.

Lemma trim_blank (s : jsstring) : trim s = [] → all isWhiteSpace s.
Proof.
  intros Ht. destruct (trim_split s) as (l & r & E & Hl & Hr).
  rewrite Ht in E. rewrite E. simpl. apply Forall_app_2; auto.
Qed.

Lemma trimmed_app_r (u v : jsstring) :
  trimmed (u ++ v) = true → v ≠ [] → ¬ all isWhiteSpace v.
Proof.
  intros (a & s' & b & E & Ha & Hl & Hb)%trimmed_inv Hne Hv.
  destruct (exists_last Hne) as (v' & b' & ->).
  rewrite app_assoc, last_snoc in Hl. inversion Hl; subst.
  apply Forall_app in Hv as [_ Hv]. inversion Hv; congruence.
Qed.

Lemma trimmed_app_l (u v : jsstring) :
  trimmed (u ++ v) = true → u ≠ [] → ¬ all isWhiteSpace u.
Proof.
  intros (a & s' & b & E & Ha & Hl & Hb)%trimmed_inv Hne Hu.
  destruct u as [|a' u]; [congruence|]. inversion E; subst.
  inversion Hu; congruence.
Qed.

Lemma trim_label (body : jsstring) :
  all (mem CDot) body → ¬ all isWhiteSpace body →
  ∃ bl br, body = bl ++ trim body ++ br
           ∧ all isWhiteSpace bl ∧ all isWhiteSpace br
           ∧ trimmed (trim body) = true ∧ all (mem CDot) (trim body).
Proof.
  intros Hd Hnb. destruct (trim_split body) as (bl & br & E & Hl & Hr).
  exists bl, br. repeat split; auto.
  - destruct (trim_edges body) as [Hn|]; auto.
    destruct Hnb. apply trim_blank; auto.
  - rewrite E in Hd. apply Forall_app in Hd as [_ Hd].
    apply Forall_app in Hd as [Hd _]. auto.
Qed.

Lemma wellFormed_intro pre sg ds sep lbl post :
  all isWhiteSpace pre → all isWhiteSpace post →
  sep ≠ [] → all isWhiteSpace sep → ds ≠ [] → all isDigit ds →
  trimmed lbl = true → all (mem CDot) lbl →
  wellFormed {| pre := pre; sg := sg; ds := ds; sep := sep; lbl := lbl; post := post |} = true.
Proof.
  intros. unfold wellFormed. simpl.
  rewrite !andb_true_iff, !forallb_all, !nonEmpty_inv. auto 10.
Qed.

Lemma wellFormed_inv (p : Pieces) :
  wellFormed p = true →
  all isWhiteSpace (pre p) ∧ all isWhiteSpace (post p)
  ∧ sep p ≠ [] ∧ all isWhiteSpace (sep p) ∧ ds p ≠ [] ∧ all isDigit (ds p)
  ∧ trimmed (lbl p) = true ∧ all (mem CDot) (lbl p).
Proof.
  unfold wellFormed.
  rewrite !andb_true_iff, !forallb_all, !nonEmpty_inv. tauto.
Qed.

(** [parseMessage] rejects, or returns the reading of pieces that make up
    the whole text. *)
Lemma parseMessage_inv (text : jsstring) :
  (regex_match Utils.pattern (trim text) = None
   ∧ Utils.parseMessage text = Return None)
  ∨ ∃ p, wellFormed p = true
         ∧ Utils.parseMessage text = Return (Some (reading p))
         ∧ ((optionalSign (sg p) = true ∧ text = amountFirstText p)
            ∨ (mandatorySign (sg p) = true ∧ text = labelFirstText p)).
Proof.
  destruct (regex_match Utils.pattern (trim text)) as [mt|] eqn:Hm.
  2:{ left. split; auto. unfold Utils.parseMessage. rewrite Hm. reflexivity. }
  right.
  destruct (pattern_match_inv _ _ Hm)
    as (w0 & ws & w2 & ds & Hw0 & Hws & Hwsne & Hw2 & Hds & Hdsne & Hshape).
  destruct (trim_split text) as (l & r & Etext & Hl & Hr).
  assert (Htrim : trimmed (trim text) = true).
  { destruct (trim_edges text) as [Hn|]; auto.
    destruct Hshape as [(sg & body & E & _)|(body & sc & E & _)];
      rewrite Hn in E; apply (f_equal length) in E;
      rewrite !length_app in E; destruct ds; simpl in *;
      rewrite ?length_app in E; simpl in *; try congruence; lia. }
  destruct Hshape as [(sg & body & E & Hsg & Hbody & Hbne & ->)
                     |(body & sc & E & Hsc & Hbody & Hbne & ->)].
  - assert (Hnb : ¬ all isWhiteSpace body).
    { intros Hb. rewrite E in Htrim.
      rewrite !app_assoc, <- (app_assoc _ body w2) in Htrim.
      apply trimmed_app_r in Htrim.
      - apply Htrim. apply Forall_app_2; auto.
      - destruct body; simpl; congruence. }
    destruct (trim_label body Hbody Hnb) as (bl & br & Eb & Hbl & Hbr & Htb & Hdb).
    exists {| pre := l ++ w0; sg := sg; ds := ds; sep := ws ++ bl;
              lbl := trim body; post := br ++ w2 ++ r |}.
    split; [|split].
    + apply wellFormed_intro; auto; repeat (apply Forall_app_2; auto).
      destruct ws; simpl; congruence.
    + apply parseMessage_amountFirst; auto.
    + left. split; [apply optionalSign_inv; auto|].
      unfold amountFirstText. simpl. rewrite Etext at 1. rewrite E.
      remember (trim body) as lb. rewrite Eb.
      rewrite <- !app_assoc. reflexivity.
  - assert (Hnb : ¬ all isWhiteSpace body).
    { intros Hb. rewrite E in Htrim. rewrite app_assoc in Htrim.
      apply trimmed_app_l in Htrim.
      - apply Htrim. apply Forall_app_2; auto.
      - destruct w0; destruct body; simpl; congruence. }
    destruct (trim_label body Hbody Hnb) as (bl & br & Eb & Hbl & Hbr & Htb & Hdb).
    exists {| pre := l ++ w0 ++ bl; sg := [sc]; ds := ds; sep := br ++ ws;
              lbl := trim body; post := w2 ++ r |}.
    split; [|split].
    + apply wellFormed_intro; auto; repeat (apply Forall_app_2; auto).
      destruct br; destruct ws; simpl; congruence.
    + apply parseMessage_labelFirst; auto.
    + right. split; [apply mandatorySign_inv; eauto|].
      unfold labelFirstText. simpl. rewrite Etext at 1. rewrite E.
      remember (trim body) as lb. rewrite Eb.
      rewrite <- !app_assoc. simpl. rewrite <- !app_assoc. reflexivity.
Qed.

(** *** Which match the search finds *)

Lemma tailK_end i c : tailK i [] c = Some c.
Proof. reflexivity. Qed.

Lemma tailK_inv i s c x : tailK i s c = Some x → all isWhiteSpace s ∧ x = c.
Proof.
  unfold tailK. intros (w & rest & c' & -> & Hd & Hk)%matcher_sound.
  cbn [den] in Hd. destruct Hd as (w1 & w2 & c1 & -> & (Hw & ->) & (-> & -> & ->)).
  inversion Hk. rewrite !app_nil_r. auto.
Qed.

Lemma matcher_seq r1 r2 i s c k :
  matcher (Seq r1 r2) i s c k
  = matcher r1 i s c (fun i' s' c' => matcher r2 i' s' c' k).
Proof. reflexivity. Qed.

Lemma matcher_alt_left r1 r2 i s c k x :
  matcher r1 i s c k = Some x → matcher (Alt r1 r2) i s c k = Some x.
Proof. intros H. simpl. rewrite H. reflexivity. Qed.

Lemma matcher_alt_right r1 r2 i s c k :
  matcher r1 i s c k = None → matcher (Alt r1 r2) i s c k = matcher r2 i s c k.
Proof. intros H. simpl. rewrite H. reflexivity. Qed.

(** On a trimmed text the leading [\s*] of an anchored pattern takes nothing. *)
Lemma anchored_trimmed (r : regex) (t : jsstring) :
  t = [] ∨ trimmed t = true →
  regex_match (anchored r) t = matcher r 0 t ∅ tailK.
Proof.
  intros Ht. unfold anchored. rewrite search_anchored.
  cbn [matcher Nat.eqb]. apply repeatClass_stop.
  destruct Ht as [->|(a & s' & b & -> & Ha & _)%trimmed_inv]; simpl; auto.
Qed.

Lemma matcher_optional_present n cc a s i c k x :
  mem cc a = true → k (S i) s (<[n := [a]]> c) = Some x →
  matcher (Group n (Opt (Atom cc))) i (a :: s) c k = Some x.
Proof.
  intros Ha Hk. unfold Opt. cbn [matcher]. rewrite Ha.
  replace (S i - i)%nat with 1%nat by lia. cbn [firstn]. rewrite take_0, Hk.
  reflexivity.
Qed.

Lemma matcher_optional_absent n cc s i c k :
  stops cc s → matcher (Group n (Opt (Atom cc))) i s c k = k i s (<[n := []]> c).
Proof.
  intros Hs. unfold Opt. cbn [matcher]. replace (i - i)%nat with 0%nat by lia.
  rewrite take_0.
  destruct s as [|a s]; simpl in *; [reflexivity|]. rewrite Hs. reflexivity.
Qed.

Lemma matcher_group_atom n cc a s i c k :
  mem cc a = true →
  matcher (Group n (Atom cc)) i (a :: s) c k = k (S i) s (<[n := [a]]> c).
Proof.
  intros Ha. cbn [matcher]. rewrite Ha.
  replace (S i - i)%nat with 1%nat by lia. cbn [firstn]. rewrite take_0.
  reflexivity.
Qed.

Lemma space_not_digit (a : N) : isWhiteSpace a = true → isDigit a = false.
Proof.
  intros Ha. destruct (isDigit a) eqn:Hd; auto.
  apply digit_not_space in Hd. congruence.
Qed.

Lemma sign_not_space (a : N) : a = 43 ∨ a = 45 → isWhiteSpace a = false.
Proof. intros [-> | ->]; reflexivity. Qed.

Lemma sign_not_digit (a : N) : a = 43 ∨ a = 45 → isDigit a = false.
Proof. intros [-> | ->]; reflexivity. Qed.

Lemma stops_head (cc : charclass) (a : N) (s rest : jsstring) :
  mem cc a = false → stops cc ((a :: s) ++ rest).
Proof. simpl. auto. Qed.

(** On a line of the amount-first grammar the first alternative succeeds
    at once: every repetition takes all it can. *)
Lemma matcher_amountFirst_first i sg ds sep lbl rest c k x :
  sg = [] ∨ sg = [43] ∨ sg = [45] →
  ds ≠ [] → all isDigit ds → sep ≠ [] → all isWhiteSpace sep →
  lbl ≠ [] → all (mem CDot) lbl → stops CSpace lbl → stops CDot rest →
  (∀ j, k j rest (<[3%nat := lbl]> (<[2%nat := ds]> (<[1%nat := sg]> c))) = Some x) →
  matcher Utils.amountFirst i (sg ++ ds ++ sep ++ lbl ++ rest) c k = Some x.
Proof.
  intros Hsg Hdne Hds Hsne Hsep Hlne Hlbl Hstop Hrest Hk.
  unfold Utils.amountFirst. rewrite matcher_seq.
  assert (Hgo : ∀ j c0,
    (∀ j', k j' rest (<[3%nat := lbl]> (<[2%nat := ds]> c0)) = Some x) →
    matcher (Seq (Group 2 (Plus true CDigit))
               (Seq (Plus true CSpace) (Group 3 (Plus true CDot))))
            j (ds ++ sep ++ lbl ++ rest) c0 k = Some x).
  { intros j c0 Hk0. rewrite matcher_seq.
    apply matcher_group_plus_greedy_max; auto.
    { destruct sep as [|b sep]; [congruence|]. inversion Hsep; subst.
      simpl. apply space_not_digit. auto. }
    rewrite matcher_seq. apply matcher_plus_greedy_max; auto.
    { destruct lbl as [|b lbl]; [congruence|]. simpl in *. auto. }
    apply matcher_group_plus_greedy_max; auto. }
  destruct Hsg as [-> | [-> | ->]].
  - rewrite matcher_optional_absent.
    + apply Hgo. auto.
    + destruct ds as [|d ds]; [congruence|]. inversion Hds; subst.
      simpl. apply digit_not_sign. auto.
  - apply matcher_optional_present; [reflexivity|]. apply Hgo. auto.
  - apply matcher_optional_present; [reflexivity|]. apply Hgo. auto.
Qed.

Lemma matcher_group_plus_lazy_first n cc a w rest i c k x :
  mem cc a = true → all (mem cc) w →
  k (i + S (length w))%nat rest (<[n := a :: w]> c) = Some x →
  (∀ w1 w2, w = w1 ++ w2 → w2 ≠ [] → ∀ j c', k j (w2 ++ rest) c' = None) →
  matcher (Group n (Plus false cc)) i (a :: w ++ rest) c k = Some x.
Proof.
  intros Ha Hw Hk Hnone. cbn [matcher Plus]. rewrite Ha.
  apply repeatClass_lazy_first; auto.
  - replace (S i + length w - i)%nat with (S (length w)) by lia.
    cbn [firstn]. rewrite take_app_length.
    replace (S i + length w)%nat with (i + S (length w))%nat by lia. auto.
  - intros w1 w2 E Hne. apply (Hnone w1 w2); auto.
Qed.

Lemma den_labelTail i w rest c c' :
  den (Seq (Plus true CSpace)
         (Seq (Group 5 (Atom Utils.signClass)) (Group 6 (Plus true CDigit))))
      i w rest c c' →
  ∃ ws sc ds, w = ws ++ sc :: ds ∧ all isWhiteSpace ws
              ∧ (sc = 43 ∨ sc = 45) ∧ all isDigit ds.
Proof.
  cbn [den].
  intros (ws & w2 & c2 & -> & (Hws & Hws' & ->)%den_plus & Hd).
  destruct Hd as (sg & ds & c3 & -> & (c4 & (sc & -> & Hsc & ->) & ->) & Hd).
  apply den_group_plus in Hd as (Hds & Hds' & ->).
  exists ws, sc, ds. repeat split; auto. apply signClass_inv; auto.
Qed.

(** On a line of the label-first grammar the lazy label stops exactly at
    the end of the label: no shorter label is followed by white space, a
    sign and digits up to the end of the line. *)
Lemma matcher_labelFirst_first i lbl sep sc ds c :
  trimmed lbl = true → all (mem CDot) lbl →
  sep ≠ [] → all isWhiteSpace sep → sc = 43 ∨ sc = 45 →
  ds ≠ [] → all isDigit ds →
  matcher Utils.labelFirst i (lbl ++ sep ++ sc :: ds) c tailK
  = Some (<[6%nat := ds]> (<[5%nat := [sc]]> (<[4%nat := lbl]> c))).
Proof.
  intros Htl Hlbl Hsne Hsep Hsc Hdne Hds.
  destruct (trimmed_inv _ Htl) as (a & lbl' & b & -> & Ha & Hl & Hb).
  inversion Hlbl as [|? ? Hda Hlbl']; subst.
  unfold Utils.labelFirst. rewrite matcher_seq.
  change ((a :: lbl') ++ sep ++ sc :: ds) with (a :: lbl' ++ sep ++ sc :: ds).
  apply matcher_group_plus_lazy_first; auto.
  - rewrite matcher_seq. apply matcher_plus_greedy_max; auto.
    { simpl. apply sign_not_space. auto. }
    rewrite matcher_seq. rewrite matcher_group_atom.
    2:{ destruct Hsc as [-> | ->]; reflexivity. }
    rewrite <- (app_nil_r ds) at 1.
    apply matcher_group_plus_greedy_max; simpl; auto.
  - intros w1 w2 -> Hne j c0.
    match goal with |- ?t = None => destruct t as [y|] eqn:Hy; [|reflexivity] end.
    exfalso.
    apply matcher_sound in Hy as (w & rest' & c' & E & Hd & Hk).
    apply den_labelTail in Hd as (ws1 & sc' & ds1 & -> & Hws1 & Hsc' & Hds1).
    apply tailK_inv in Hk as [Hrest _].
    pose (p := fun a => isDigit a || isWhiteSpace a).
    assert (E' : (w2 ++ sep) ++ sc :: ds = ws1 ++ sc' :: (ds1 ++ rest')).
    { rewrite <- app_assoc, E, <- app_assoc. reflexivity. }
    apply (split_last_unique p) in E' as (E1 & _ & _).
    + assert (Hall : all isWhiteSpace (w2 ++ sep)) by (rewrite E1; auto).
      apply Forall_app in Hall as [Hw2 _].
      exact (trimmed_app_r (a :: w1) w2 Htl Hne Hw2).
    + eapply Forall_impl; [apply Hds|]. intros d Hd. unfold p. rewrite Hd. auto.
    + apply Forall_app_2.
      * eapply Forall_impl; [apply Hds1|]. intros d Hd. unfold p. rewrite Hd. auto.
      * eapply Forall_impl; [apply Hrest|]. intros d Hd. unfold p. rewrite Hd.
        apply orb_true_r.
    + unfold p. rewrite sign_not_digit, sign_not_space; auto.
    + unfold p. rewrite sign_not_digit, sign_not_space; auto.
Qed.

Lemma trimmed_app (u v : jsstring) (b : N) :
  u ≠ [] → stops CSpace u → last v = Some b → isWhiteSpace b = false →
  trimmed (u ++ v) = true.
Proof.
  intros Hne Hu Hv Hb. destruct u as [|a u]; [congruence|]. simpl in Hu.
  unfold trimmed. rewrite last_app, Hv. simpl. rewrite Hu, Hb. reflexivity.
Qed.

Lemma last_digits (ds : jsstring) :
  ds ≠ [] → all isDigit ds → ∃ d, last ds = Some d ∧ isWhiteSpace d = false.
Proof.
  intros Hne Hds. destruct (exists_last Hne) as (ds' & d & ->).
  exists d. rewrite last_snoc. split; auto.
  apply Forall_app in Hds as [_ Hd]. inversion Hd; subst.
  apply digit_not_space. auto.
Qed.

Lemma trimmed_amountFirst (sg ds sep lbl : jsstring) :
  sg = [] ∨ sg = [43] ∨ sg = [45] → ds ≠ [] → all isDigit ds →
  trimmed lbl = true → trimmed (sg ++ ds ++ sep ++ lbl) = true.
Proof.
  intros Hsg Hne Hds (a & l' & b & -> & Ha & Hl & Hb)%trimmed_inv.
  rewrite !app_assoc. apply (trimmed_app _ _ b); auto.
  - destruct sg, ds; simpl; congruence.
  - destruct ds as [|d ds]; [congruence|]. inversion Hds; subst.
    destruct Hsg as [-> | [-> | ->]]; simpl; auto. apply digit_not_space. auto.
Qed.

Lemma trimmed_labelFirst (lbl sep ds : jsstring) (sc : N) :
  trimmed lbl = true → ds ≠ [] → all isDigit ds →
  trimmed (lbl ++ sep ++ sc :: ds) = true.
Proof.
  intros (a & l' & b & -> & Ha & Hl & Hb)%trimmed_inv Hne Hds.
  destruct (last_digits ds Hne Hds) as (d & Hd & Hd').
  apply (trimmed_app (a :: l') _ d); [discriminate|simpl; auto| |auto].
  rewrite last_app. change (sc :: ds) with ([sc] ++ ds).
  rewrite last_app, Hd. reflexivity.
Qed.

(** The groups of a match of the amount-first pattern alone. *)
Lemma amountFirstPattern_inv (t : jsstring) (mt : captures) :
  regex_match amountFirstPattern t = Some mt →
  ∃ sg ds body,
    (sg = [] ∨ sg = [43] ∨ sg = [45]) ∧ ds ≠ [] ∧ all isDigit ds
    ∧ mt = <[3%nat := body]> (<[2%nat := ds]> (<[1%nat := sg]> ∅)).
Proof.
  intros (w0 & wm & w2 & -> & Hw0 & Hw2 & Hd)%anchored_inv.
  apply den_amountFirst in Hd
    as (sg & ds & ws & body & -> & Hsg & ? & ? & ? & ? & ? & ? & ->).
  exists sg, ds, body. auto.
Qed.

Lemma amountFirst_wins (t : jsstring) (mt : captures) :
  t = [] ∨ trimmed t = true →
  regex_match amountFirstPattern t = Some mt →
  regex_match Utils.pattern t = Some mt.
Proof.
  intros Ht. unfold amountFirstPattern, Utils.pattern.
  rewrite !anchored_trimmed by auto. apply matcher_alt_left.
Qed.

Lemma labelFirst_next (t : jsstring) :
  t = [] ∨ trimmed t = true →
  regex_match amountFirstPattern t = None →
  regex_match Utils.pattern t = matcher Utils.labelFirst 0 t ∅ tailK.
Proof.
  intros Ht. unfold amountFirstPattern, Utils.pattern.
  rewrite !anchored_trimmed by auto. apply matcher_alt_right.
Qed.

Lemma amountFirstReading_groups (sg ds body : jsstring) :
  sg = [] ∨ sg = [43] ∨ sg = [45] → ds ≠ [] → all isDigit ds →
  amountFirstReading (<[3%nat := body]> (<[2%nat := ds]> (<[1%nat := sg]> ∅)))
  = Return (Some {| ParsedTransaction.label := trim body;
                    ParsedTransaction.sign := signOf sg;
                    ParsedTransaction.amount := binary64 (digitsValue ds) |}).
Proof.
  intros Hsg Hne Hds. unfold amountFirstReading.
  rewrite !lookup_insert_eq.
  rewrite (lookup_insert_ne _ 3%nat 2%nat), lookup_insert_eq by done.
  rewrite (lookup_insert_ne _ 3%nat 1%nat), (lookup_insert_ne _ 2%nat 1%nat),
    lookup_insert_eq by done.
  rewrite parseInt_digits by auto.
  destruct Hsg as [-> | [-> | ->]]; reflexivity.
Qed.

Lemma parseMessage_amountFirstText (p : Pieces) :
  wellFormed p = true → optionalSign (sg p) = true →
  Utils.parseMessage (amountFirstText p) = Return (Some (reading p)).
Proof.
  intros (Hpre & Hpost & Hsne & Hsep & Hdne & Hds & Htl & Hlbl)%wellFormed_inv
         Hsg%optionalSign_inv.
  pose proof (trimmed_amountFirst _ _ (sep p) _ Hsg Hdne Hds Htl) as HX.
  assert (Etrim : trim (amountFirstText p) = sg p ++ ds p ++ sep p ++ lbl p).
  { unfold amountFirstText.
    replace (pre p ++ sg p ++ ds p ++ sep p ++ lbl p ++ post p)
      with (pre p ++ (sg p ++ ds p ++ sep p ++ lbl p) ++ post p)
      by (rewrite <- !app_assoc; reflexivity).
    apply trim_strip; auto. }
  destruct (trimmed_inv _ Htl) as (a & l' & b & El & Ha & _).
  rewrite (parseMessage_amountFirst _ (sg p) (ds p) (lbl p)); auto.
  - rewrite trim_of_trimmed by auto. reflexivity.
  - rewrite Etrim. unfold Utils.pattern. rewrite anchored_trimmed by auto.
    apply matcher_alt_left.
    rewrite <- (app_nil_r (lbl p)) at 1.
    apply matcher_amountFirst_first; simpl; auto.
    + rewrite El. discriminate.
    + rewrite El. simpl. auto.
Qed.

Lemma parseMessage_labelFirstText (p : Pieces) :
  wellFormed p = true → mandatorySign (sg p) = true →
  regex_match amountFirstPattern (trim (labelFirstText p)) = None →
  Utils.parseMessage (labelFirstText p) = Return (Some (reading p)).
Proof.
  intros (Hpre & Hpost & Hsne & Hsep & Hdne & Hds & Htl & Hlbl)%wellFormed_inv
         (sc & Esg & Hsc)%mandatorySign_inv Hnone.
  pose proof (trimmed_labelFirst _ (sep p) _ sc Htl Hdne Hds) as HX.
  assert (Etrim : trim (labelFirstText p) = lbl p ++ sep p ++ sc :: ds p).
  { unfold labelFirstText. rewrite Esg.
    replace (pre p ++ lbl p ++ sep p ++ [sc] ++ ds p ++ post p)
      with (pre p ++ (lbl p ++ sep p ++ sc :: ds p) ++ post p)
      by (rewrite <- !app_assoc; reflexivity).
    apply trim_strip; auto. }
  rewrite (parseMessage_labelFirst _ (lbl p) (ds p) sc); auto.
  - rewrite trim_of_trimmed by auto. unfold reading. rewrite Esg. reflexivity.
  - rewrite Etrim in *. rewrite labelFirst_next by auto.
    apply matcher_labelFirst_first; auto.
Qed.

Lemma signedAmount_reading (p : Pieces) :
  signedAmount (reading p) = binary64 (signedValue p).
Proof.
  unfold signedAmount, signedValue, reading. simpl.
  destruct (signOf (sg p)); [reflexivity|]. symmetry. apply binary64_opp.
Qed.


(** ** The pattern of [parseFinancialEntries] *)

Lemma search_sound (r : regex) (s : jsstring) : ∀ i c,
  search r i s = Some c →
  ∃ skipped t, s = skipped ++ t
               ∧ matcher r (i + length skipped) t ∅ accept = Some c.
Proof.
  induction s as [|a s IH]; intros i c Hs; simpl in Hs.
  - destruct (matcher r i [] ∅ accept) eqn:Hm; [|discriminate].
    exists [], []. simpl. rewrite Nat.add_0_r. split; congruence.
  - destruct (matcher r i (a :: s) ∅ accept) eqn:Hm.
    + exists [], (a :: s). simpl. rewrite Nat.add_0_r. split; congruence.
    + apply IH in Hs as (skipped & t & -> & Hm').
      exists (a :: skipped), t. simpl. rewrite <- Nat.add_succ_comm. auto.
Qed.

(** A match of the entry pattern: some text is skipped, then come a
    description, white space, a sign and digits; what follows is ignored. *)
Lemma entryPattern_inv (line : jsstring) (mt : captures) :
  regex_match Main.entryPattern line = Some mt →
  ∃ skipped desc ws sc ds rest,
    line = skipped ++ desc ++ ws ++ sc :: ds ++ rest
    ∧ desc ≠ [] ∧ all (mem CDot) desc ∧ all isWhiteSpace ws
    ∧ (sc = 43 ∨ sc = 45) ∧ ds ≠ [] ∧ all isDigit ds
    ∧ mt = <[2%nat := sc :: ds]> (<[1%nat := desc]> ∅).
Proof.
  intros (skipped & t & -> & Hm)%search_sound.
  apply matcher_sound in Hm as (w & rest & c' & -> & Hd & Hk).
  unfold accept in Hk. inversion Hk; subst; clear Hk.
  unfold Main.entryPattern in Hd. cbn [den] in Hd.
  destruct Hd as (desc & w1 & c1 & -> & (Hdne & Hdesc & ->)%den_group_plus & Hd).
  destruct Hd as (ws & w2 & c2 & -> & (Hws & ->) & Hd).
  destruct Hd as (c3 & (sg & ds & c4 & -> & (sc & -> & Hsc & ->) & Hd) & ->).
  apply den_plus in Hd as (Hds & Hds' & ->).
  exists skipped, desc, ws, sc, ds, rest. repeat split; auto.
  - rewrite <- !app_assoc. reflexivity.
  - apply (signClass_inv sc). auto.
Qed.

(** The loop body never throws: it leaves the entries as they are, or
    pushes one entry, its amount the Number value of a signed integer. *)
Lemma parseLine_cases (date : jsstring) (entries : list FinancialEntry.t)
    (line : jsstring) :
  (regex_match Main.entryPattern line = None
   ∧ Main.parseLine date entries line = Return entries)
  ∨ ∃ skipped desc ws sc ds rest,
      line = skipped ++ desc ++ ws ++ sc :: ds ++ rest
      ∧ desc ≠ [] ∧ all (mem CDot) desc ∧ all isWhiteSpace ws
      ∧ (sc = 43 ∨ sc = 45) ∧ ds ≠ [] ∧ all isDigit ds
      ∧ regex_match Main.entryPattern line
        = Some (<[2%nat := sc :: ds]> (<[1%nat := desc]> ∅))
      ∧ Main.parseLine date entries line
        = Return (entries ++
            [ {| FinancialEntry.description := trim desc;
                 FinancialEntry.amount :=
                   binary64 (if sc =? 45 then - digitsValue ds else digitsValue ds);
                 FinancialEntry.date := date |} ]).
Proof.
  unfold Main.parseLine.
  destruct (regex_match Main.entryPattern line) as [mt|] eqn:Hm; [right|left; auto].
  destruct (entryPattern_inv _ _ Hm)
    as (skipped & desc & ws & sc & ds & rest & E & ? & ? & ? & ? & ? & ? & ->).
  exists skipped, desc, ws, sc, ds, rest. repeat split; auto.
  rewrite lookup_insert_eq, (lookup_insert_ne _ 2%nat 1%nat), lookup_insert_eq by done.
  rewrite parseInt_signed by auto. reflexivity.
Qed.

Lemma parseLine_lineEntry (date : jsstring) (entries : list FinancialEntry.t)
    (line : jsstring) :
  Main.parseLine date entries line
  = Return (entries ++ option_list (lineEntry date line)).
Proof.
  unfold lineEntry.
  destruct (parseLine_cases date entries line)
    as [[Hn ->]|(skipped & desc & ws & sc & ds & rest & _ & _ & _ & _ & Hsc & Hne & Hds & -> & ->)].
  - rewrite Hn. simpl. rewrite app_nil_r. reflexivity.
  - rewrite lookup_insert_eq, (lookup_insert_ne _ 2%nat 1%nat), lookup_insert_eq by done.
    rewrite parseInt_signed by auto. reflexivity.
Qed.

Lemma parseLines_omap (date : jsstring) (lines : list jsstring) :
  ∀ entries,
    Main.parseLines date lines entries
    = Return (entries ++ omap (lineEntry date) lines).
Proof.
  induction lines as [|line lines IH]; intros entries; simpl.
  - rewrite app_nil_r. reflexivity.
  - rewrite parseLine_lineEntry. simpl. rewrite IH, <- app_assoc.
    destruct (lineEntry date line); reflexivity.
Qed.

Lemma blank_lineEntry (date line : jsstring) :
  truthy (trim line) = false → lineEntry date line = None.
Proof.
  intros Ht. unfold lineEntry.
  destruct (regex_match Main.entryPattern line) as [mt|] eqn:Hm; [|reflexivity].
  exfalso.
  destruct (entryPattern_inv _ _ Hm)
    as (skipped & desc & ws & sc & ds & rest & E & _ & _ & _ & Hsc & _).
  assert (Hb : all isWhiteSpace line).
  { apply trim_blank. destruct (trim line); [reflexivity|discriminate]. }
  rewrite E in Hb. rewrite !Forall_app in Hb.
  destruct Hb as (_ & _ & _ & Hb). inversion Hb; subst.
  rewrite sign_not_space in *; auto. discriminate.
Qed.

Lemma omap_filter_skip {A B} (f : A → option B) (keep : A → bool) (l : list A) :
  (∀ x, keep x = false → f x = None) →
  omap f (List.filter keep l) = omap f l.
Proof.
  intros Hskip. induction l as [|x l IH]; [reflexivity|].
  cbn [List.filter]. destruct (keep x) eqn:Hk.
  - cbn. rewrite <- IH. reflexivity.
  - rewrite IH. cbn. rewrite (Hskip x Hk). reflexivity.
Qed.

(** The entries of a text are the entries of its lines, in order. *)
Lemma parseFinancialEntries_lines (date text : jsstring) :
  Main.parseFinancialEntries date text
  = Return (omap (lineEntry date) (split LF text)).
Proof.
  unfold Main.parseFinancialEntries. rewrite parseLines_omap. simpl.
  rewrite omap_filter_skip; auto. intros line. apply blank_lineEntry.
Qed.

Lemma split_nonempty (sep : N) (s : jsstring) : split sep s ≠ [].
Proof.
  destruct s as [|a s]; simpl; [discriminate|].
  destruct (a =? sep); [discriminate|]. destruct (split sep s); discriminate.
Qed.

Lemma split_without (sep : N) (l : jsstring) : sep ∉ l → split sep l = [l].
Proof.
  induction l as [|a l IH]; intros Hn; simpl; auto.
  apply not_elem_of_cons in Hn as [Ha Hn].
  destruct (N.eqb_spec a sep); [congruence|]. rewrite IH; auto.
Qed.

Lemma split_app (sep : N) (l s : jsstring) :
  sep ∉ l → split sep (l ++ sep :: s) = l :: split sep s.
Proof.
  induction l as [|a l IH]; intros Hn; simpl.
  - rewrite N.eqb_refl. reflexivity.
  - apply not_elem_of_cons in Hn as [Ha Hn].
    destruct (N.eqb_spec a sep); [congruence|]. rewrite IH; auto.
Qed.

(** Splitting undoes joining, for lines that hold no separator. *)
Lemma split_join (sep : N) (lines : list jsstring) :
  lines ≠ [] → Forall (fun l => sep ∉ l) lines →
  split sep (join [sep] lines) = lines.
Proof.
  induction lines as [|l lines IH]; intros Hne Hl; [congruence|].
  inversion Hl as [|? ? Hn Hl']; subst.
  destruct lines as [|l' lines].
  - simpl. apply split_without. auto.
  - change (join [sep] (l :: l' :: lines))
      with (l ++ sep :: join [sep] (l' :: lines)).
    rewrite split_app by auto. rewrite IH; [reflexivity|discriminate|assumption].
Qed.

(** The amount-first pattern needs a sign or a digit at the start. *)
Lemma amountFirst_plainStart (p : Pieces) :
  wellFormed p = true → plainStart (lbl p) = true →
  regex_match amountFirstPattern (lbl p ++ sep p ++ sg p ++ ds p) = None.
Proof.
  intros (_ & _ & _ & _ & _ & _ & Htl & _)%wellFormed_inv Hplain.
  destruct (regex_match amountFirstPattern _) as [mt|] eqn:Hm; [|reflexivity].
  exfalso.
  destruct (trimmed_inv _ Htl) as (a & l' & b & El & Ha & _).
  rewrite El in Hplain, Hm. simpl in Hplain.
  apply negb_true_iff, orb_false_iff in Hplain as [Hd Hs].
  apply anchored_inv in Hm as (w0 & wm & w2 & E & Hw0 & _ & Hden).
  apply den_amountFirst in Hden
    as (s & d & ws & body & -> & Hsg & Hdne & Hds & _).
  destruct w0 as [|c w0].
  - destruct Hsg as [-> | [-> | ->]]; simpl in E.
    + destruct d as [|c d]; [congruence|]. inversion E; subst.
      inversion Hds; subst. congruence.
    + inversion E; subst. discriminate.
    + inversion E; subst. discriminate.
  - inversion E; subst. inversion Hw0; subst. congruence.
Qed.

Lemma hasSignedDigits_suffix (u v : jsstring) :
  hasSignedDigits v = true → hasSignedDigits (u ++ v) = true.
Proof.
  intros Hv. induction u as [|a u IH]; [exact Hv|].
  simpl. destruct (u ++ v) as [|b t] eqn:E.
  - destruct u; [simpl in E; subst; discriminate|discriminate].
  - rewrite IH. apply orb_true_r.
Qed.

Lemma blank_prefix (s : jsstring) :
  ¬ all isWhiteSpace s →
  ∃ ws b s', s = ws ++ b :: s' ∧ all isWhiteSpace ws ∧ isWhiteSpace b = false.
Proof.
  induction s as [|a s IH]; intros Hn.
  - destruct Hn. constructor.
  - destruct (isWhiteSpace a) eqn:Ha.
    + destruct IH as (ws & b & s' & -> & Hws & Hb).
      { intros Hs. apply Hn. constructor; auto. }
      exists (a :: ws), b, s'. repeat split; auto.
    + exists [], a, s. repeat split; auto.
Qed.

(** The tail of the entry pattern: [\s*([+-]\d+)]. *)
Lemma den_entryTail i w rest c c' :
  den (Seq (Star true CSpace)
         (Group 2 (Seq (Atom (CSet [43; 45])) (Plus true CDigit))))
      i w rest c c' →
  ∃ ws sc d ds, w = ws ++ sc :: d :: ds ∧ all isWhiteSpace ws
                ∧ mem Utils.signClass sc = true ∧ isDigit d = true.
Proof.
  cbn [den].
  intros (ws & w2 & c2 & -> & (Hws & ->) & (c3 & Hd & ->)).
  destruct Hd as (sg & ds & c4 & -> & (sc & -> & Hsc & ->) & Hd).
  apply den_plus in Hd as (Hne & Hds & ->).
  destruct ds as [|d ds]; [congruence|]. inversion Hds; subst.
  exists ws, sc, d, ds. repeat split; auto.
Qed.

Lemma matcher_star g cc i s c k :
  matcher (Star g cc) i s c k = repeatClass g cc i s c k.
Proof. reflexivity. Qed.

Lemma matcher_signed n sc ds rest i c k x :
  mem (CSet [43; 45]) sc = true → ds ≠ [] → all isDigit ds → stops CDigit rest →
  (∀ j, k j rest (<[n := sc :: ds]> c) = Some x) →
  matcher (Group n (Seq (Atom (CSet [43; 45])) (Plus true CDigit)))
          i (sc :: ds ++ rest) c k = Some x.
Proof.
  intros Hs Hne Hds Hstop Hk. cbn [matcher Plus]. rewrite Hs.
  destruct ds as [|d ds]; [congruence|]. inversion Hds as [|? ? Hd Hds']; subst.
  cbn [app]. change (mem CDigit d) with (isDigit d). rewrite Hd.
  apply repeatClass_greedy_max; auto.
  replace (S (S i) + length ds - i)%nat with (length (sc :: d :: ds))
    by (simpl; lia).
  change (sc :: d :: ds ++ rest) with ((sc :: d :: ds) ++ rest).
  rewrite take_app_length. apply Hk.
Qed.

(** On a label-first line whose label holds no sign followed by a digit
    after its first character, the entry pattern matches at the start of
    the line: the lazy description stops at the end of the label. *)
Lemma entryPattern_first (lbl sep ds : jsstring) (sc : N) :
  trimmed lbl = true → all (mem CDot) lbl → hasSignedDigits (tail lbl) = false →
  all isWhiteSpace sep → sc = 43 ∨ sc = 45 → ds ≠ [] → all isDigit ds →
  regex_match Main.entryPattern (lbl ++ sep ++ sc :: ds)
  = Some (<[2%nat := sc :: ds]> (<[1%nat := lbl]> ∅)).
Proof.
  intros Htl Hlbl Hno Hsep Hsc Hdne Hds.
  destruct (trimmed_inv _ Htl) as (a & lbl' & b & -> & Ha & Hl & Hb).
  inversion Hlbl as [|? ? Hda Hlbl']; subst. simpl in Hno.
  unfold regex_match.
  assert (Hm : matcher Main.entryPattern 0 ((a :: lbl') ++ sep ++ sc :: ds) ∅ accept
               = Some (<[2%nat := sc :: ds]> (<[1%nat := a :: lbl']> ∅))).
  { unfold Main.entryPattern. rewrite matcher_seq.
    change ((a :: lbl') ++ sep ++ sc :: ds) with (a :: lbl' ++ sep ++ sc :: ds).
    apply matcher_group_plus_lazy_first; auto.
    - rewrite matcher_seq, matcher_star.
      apply repeatClass_greedy_max; auto.
      { simpl. apply sign_not_space. auto. }
      rewrite <- (app_nil_r ds) at 1.
      apply matcher_signed; simpl; auto.
      destruct Hsc as [-> | ->]; reflexivity.
    - intros w1 w2 -> Hne j c0.
      match goal with |- ?t = None => destruct t as [y|] eqn:Hy; [|reflexivity] end.
      exfalso.
      apply matcher_sound in Hy as (w & rest' & c' & E & Hd & _).
      apply den_entryTail in Hd as (ws1 & sc' & d1 & ds1 & -> & Hws1 & Hsc' & Hd1).
      assert (Hnb : ¬ all isWhiteSpace w2)
        by exact (trimmed_app_r (a :: w1) w2 Htl Hne).
      destruct (blank_prefix w2 Hnb) as (wsA & b' & w2' & -> & HwsA & Hb').
      rewrite <- !app_assoc in E. simpl in E.
      apply (split_first_unique isWhiteSpace) in E as (_ & <- & E); auto.
      2:{ apply sign_not_space. apply signClass_inv. auto. }
      destruct w2' as [|c w2'].
      + simpl in E. destruct sep as [|s0 sep]; simpl in E; inversion E; subst.
        * rewrite sign_not_digit in Hd1; auto. discriminate.
        * inversion Hsep; subst. rewrite space_not_digit in Hd1; auto. discriminate.
      + simpl in E. inversion E; subst.
        assert (Hyes : hasSignedDigits (w1 ++ wsA ++ b' :: d1 :: w2') = true).
        { rewrite app_assoc. apply hasSignedDigits_suffix.
          simpl. rewrite Hd1. simpl in Hsc'. rewrite Hsc'. reflexivity. }
        congruence. }
  destruct sep; simpl in *; rewrite Hm; reflexivity.
Qed.

Lemma parseFinancialEntries_entryText (date : jsstring) (p : Pieces) :
  wellFormedEntry p = true →
  Main.parseFinancialEntries date (entryText p) = Return [entryReading date p].
Proof.
  unfold wellFormedEntry. rewrite !andb_true_iff, !forallb_all, nonEmpty_inv.
  rewrite negb_true_iff.
  intros ((((((Hsep & Hdne) & Hds) & Htl) & Hlbl) & Hno) & (sc & Esg & Hsc)%mandatorySign_inv).
  assert (Hsep' : all isWhiteSpace (sep p)).
  { eapply Forall_impl; [apply Hsep|]. intros c Hc.
    apply andb_true_iff in Hc as [? _]. auto. }
  assert (Hlf : LF ∉ entryText p).
  { unfold entryText. rewrite Esg. rewrite !not_elem_of_app. repeat split.
    - intros Hin. rewrite Forall_forall in Hlbl. apply Hlbl in Hin. discriminate.
    - intros Hin. rewrite Forall_forall in Hsep. apply Hsep in Hin. discriminate.
    - intros Hin. apply list_elem_of_singleton in Hin.
      destruct Hsc; subst; discriminate.
    - intros Hin. rewrite Forall_forall in Hds. apply Hds in Hin. discriminate. }
  rewrite parseFinancialEntries_lines, (split_without LF _ Hlf).
  unfold entryText in *. rewrite Esg. simpl app.
  cbn [omap list_omap]. unfold lineEntry.
  rewrite entryPattern_first by auto.
  rewrite lookup_insert_eq, (lookup_insert_ne _ 2%nat 1%nat), lookup_insert_eq by done.
  rewrite parseInt_signed by auto. simpl default.
  rewrite trim_of_trimmed by auto.
  unfold entryReading, signedValue. rewrite Esg.
  destruct Hsc as [-> | ->]; reflexivity.
Qed.

Lemma lineEntry_inv (date line : jsstring) (e : FinancialEntry.t) :
  lineEntry date line = Some e →
  ∃ skipped desc ws sc ds rest,
    line = skipped ++ desc ++ ws ++ sc :: ds ++ rest
    ∧ desc ≠ [] ∧ all (mem CDot) desc ∧ all isWhiteSpace ws
    ∧ (sc = 43 ∨ sc = 45) ∧ ds ≠ [] ∧ all isDigit ds
    ∧ e = {| FinancialEntry.description := trim desc;
             FinancialEntry.amount :=
               binary64 (if sc =? 45 then - digitsValue ds else digitsValue ds);
             FinancialEntry.date := date |}.
Proof.
  unfold lineEntry.
  destruct (regex_match Main.entryPattern line) as [mt|] eqn:Hm; [|discriminate].
  destruct (entryPattern_inv _ _ Hm)
    as (skipped & desc & ws & sc & ds & rest & E & ? & ? & ? & ? & ? & ? & ->).
  rewrite lookup_insert_eq, (lookup_insert_ne _ 2%nat 1%nat), lookup_insert_eq by done.
  rewrite parseInt_signed by auto. intros [= <-].
  exists skipped, desc, ws, sc, ds, rest. repeat split; auto.
Qed.

(** * The claims about the parsers *)

(** C1 (amended). On every well-formed line of the amount-first grammar
    (the sign optional), and on every well-formed line of the label-first
    grammar that the amount-first pattern does not match (as when the
    label begins with neither a sign nor a digit), [parseMessage] returns
    the label exactly, the Number value of the digits as the amount (a
    magnitude) and the sign as a tag, negative exactly for ["-"]; the tag
    applied to the amount is the Number value of [sign * digits]. On a
    label-first line whose label holds no sign followed by a digit, the
    in-memory parser returns one entry, with the label and the Number value
    of the signed integer. The Number value of an integer is the integer
    itself when the digits denote less than 2^53, and the nearest value of
    binary64 otherwise. *)
Theorem parseMessage_grammar (p : Pieces) :
  wellFormed p = true →
  (optionalSign (sg p) = true →
   Utils.parseMessage (amountFirstText p) = Return (Some (reading p)))
  ∧ (mandatorySign (sg p) = true →
     regex_match amountFirstPattern (trim (labelFirstText p)) = None →
     Utils.parseMessage (labelFirstText p) = Return (Some (reading p)))
  ∧ (mandatorySign (sg p) = true → plainStart (lbl p) = true →
     Utils.parseMessage (labelFirstText p) = Return (Some (reading p)))
  ∧ signedAmount (reading p) = binary64 (signedValue p)
  ∧ (∀ date, wellFormedEntry p = true →
       Main.parseFinancialEntries date (entryText p)
       = Return [entryReading date p])
  ∧ ((digitsValue (ds p) < 2 ^ 53)%Z →
     ParsedTransaction.amount (reading p) = Num (digitsValue (ds p))
     ∧ signedAmount (reading p) = Num (signedValue p)
     ∧ ∀ date, FinancialEntry.amount (entryReading date p) = Num (signedValue p)).
Proof.
  intros Hwf. split; [|split; [|split; [|split; [|split]]]].
  - apply parseMessage_amountFirstText; auto.
  - apply parseMessage_labelFirstText; auto.
  - intros Hsg Hplain. apply parseMessage_labelFirstText; auto.
    destruct (wellFormed_inv p Hwf) as (Hpre & Hpost & _ & _ & Hdne & Hds & Htl & _).
    destruct (proj1 (mandatorySign_inv _) Hsg) as (sc & Esg & _).
    pose proof (amountFirst_plainStart p Hwf Hplain) as Hnone.
    unfold labelFirstText.
    replace (pre p ++ lbl p ++ sep p ++ sg p ++ ds p ++ post p)
      with (pre p ++ (lbl p ++ sep p ++ sg p ++ ds p) ++ post p)
      by (rewrite <- !app_assoc; reflexivity).
    rewrite trim_strip; auto.
    rewrite Esg. apply trimmed_labelFirst; auto.
  - apply signedAmount_reading.
  - intros date. apply parseFinancialEntries_entryText.
  - intros Hlt. pose proof (digitsValue_nonneg (ds p)) as H0.
    assert (Hs : binary64 (signedValue p) = Num (signedValue p)).
    { apply binary64_exact. unfold signedValue.
      destruct (signOf (sg p)); lia. }
    split; [apply binary64_digits, Hlt|].
    split; [rewrite signedAmount_reading; exact Hs|].
    intros date. exact Hs.
Qed.

(** ["rent -3000"] and ["-3000 rent"] are read as the label ["rent"], the
    sign negative and the amount 3000; the in-memory parser reads
    ["rent -3000"] as ["rent"] and -3000. *)
Lemma parseMessage_grammar_witness :
  Utils.parseMessage (lit "rent -3000")
  = Return (Some {| ParsedTransaction.label := lit "rent";
                    ParsedTransaction.sign := Negative;
                    ParsedTransaction.amount := Num 3000 |})
  ∧ Utils.parseMessage (lit "-3000 rent")
    = Return (Some {| ParsedTransaction.label := lit "rent";
                      ParsedTransaction.sign := Negative;
                      ParsedTransaction.amount := Num 3000 |})
  ∧ signedAmount (reading rentPieces) = Num (-3000)
  ∧ Main.parseFinancialEntries (lit "2025-01-01") (lit "rent -3000")
    = Return [ {| FinancialEntry.description := lit "rent";
                  FinancialEntry.amount := Num (-3000);
                  FinancialEntry.date := lit "2025-01-01" |} ].
Proof.
  destruct (parseMessage_grammar rentPieces eq_refl)
    as (HA & HB & HP & _ & HE & HS).
  split; [|split; [|split]].
  - change (Utils.parseMessage (labelFirstText rentPieces)
            = Return (Some (reading rentPieces))).
    apply HP; vm_compute; reflexivity.
  - change (Utils.parseMessage (amountFirstText rentPieces)
            = Return (Some (reading rentPieces))).
    apply HA; vm_compute; reflexivity.
  - exact (proj1 (proj2 (HS eq_refl))).
  - change (Main.parseFinancialEntries (lit "2025-01-01") (entryText rentPieces)
            = Return [entryReading (lit "2025-01-01") rentPieces]).
    apply HE. vm_compute. reflexivity.
Defined.

(** C1, as stated, fails: for ["rent -3000"] the amount [parseMessage]
    returns is 3000, not -3000; the in-memory parser returns no entry for
    the amount-first line ["-3000 rent"]; the label-first line ["5 -3"] is
    read amount-first; and the digits [9007199254740993], which no
    binary64 value equals, are read as 9007199254740992. *)
Lemma parseMessage_amount_is_magnitude :
  Utils.parseMessage (lit "rent -3000")
  = Return (Some {| ParsedTransaction.label := lit "rent";
                    ParsedTransaction.sign := Negative;
                    ParsedTransaction.amount := Num 3000 |})
  ∧ Main.parseFinancialEntries (lit "2025-01-01") (lit "-3000 rent") = Return []
  ∧ Utils.parseMessage (lit "5 -3")
    = Return (Some {| ParsedTransaction.label := lit "-3";
                      ParsedTransaction.sign := Positive;
                      ParsedTransaction.amount := Num 5 |})
  ∧ Utils.parseMessage (lit "9007199254740993 rent")
    = Return (Some {| ParsedTransaction.label := lit "rent";
                      ParsedTransaction.sign := Positive;
                      ParsedTransaction.amount := Num 9007199254740992 |}).
Proof. vm_compute. auto. Qed.



(** C4 (amended). [parseMessage] never parses a part of a line: it returns
    [null], or a transaction whose label, sign and digits, with white
    space around and between them, make up the whole text; the amount is
    the Number value of those digits, never a default. The in-memory
    parser returns, for each entry, a line of the text and a place in it
    where a description, a sign and digits follow each other: the entry is
    read from that place, and what comes before and after it in the line is
    ignored. *)
Theorem parseMessage_whole_line (text : jsstring) :
  (Utils.parseMessage text = Return None
   ∨ ∃ tx, Utils.parseMessage text = Return (Some tx) ∧ readsAs text tx)
  ∧ (∀ date, ∃ entries,
       Main.parseFinancialEntries date text = Return entries
       ∧ Forall (fun e =>
                   ∃ line skipped desc ws sc ds rest,
                     line ∈ split LF text
                     ∧ line = skipped ++ desc ++ ws ++ sc :: ds ++ rest
                     ∧ desc ≠ [] ∧ all (mem CDot) desc ∧ all isWhiteSpace ws
                     ∧ (sc = 43 ∨ sc = 45) ∧ ds ≠ [] ∧ all isDigit ds
                     ∧ e = {| FinancialEntry.description := trim desc;
                              FinancialEntry.amount :=
                                binary64 (if sc =? 45 then - digitsValue ds
                                          else digitsValue ds);
                              FinancialEntry.date := date |})
                entries).
Proof.
  split.
  - destruct (parseMessage_inv text) as [[_ ->]|(p & Hwf & -> & Hp)]; [auto|].
    right. exists (reading p). split; auto. exists p. auto.
  - intros date. exists (omap (lineEntry date) (split LF text)).
    split; [apply parseFinancialEntries_lines|].
    apply Forall_forall. intros e He.
    apply list_elem_of_omap in He as (line & Hin & He).
    apply lineEntry_inv in He
      as (skipped & desc & ws & sc & ds & rest & E & Hrest).
    exists line, skipped, desc, ws, sc, ds, rest. auto.
Qed.

(** ["rent -3000"] is read whole by [parseMessage]; of
    ["rent -3000 extra"] the in-memory parser reads ["rent"], a sign and
    ["3000"], and leaves [" extra"]. *)
Lemma parseMessage_whole_line_witness :
  (∃ tx, Utils.parseMessage (lit "rent -3000") = Return (Some tx)
         ∧ readsAs (lit "rent -3000") tx)
  ∧ ∃ line skipped desc ws sc ds rest,
      line ∈ split LF (lit "rent -3000 extra")
      ∧ line = skipped ++ desc ++ ws ++ sc :: ds ++ rest
      ∧ trim desc = lit "rent"
      ∧ binary64 (if sc =? 45 then - digitsValue ds else digitsValue ds)
        = Num (-3000).
Proof.
  split.
  - destruct (proj1 (parseMessage_whole_line (lit "rent -3000"))) as [Hn|Htx];
      [|exact Htx].
    assert (Hs : Utils.parseMessage (lit "rent -3000")
                 = Return (Some {| ParsedTransaction.label := lit "rent";
                                   ParsedTransaction.sign := Negative;
                                   ParsedTransaction.amount := Num 3000 |}))
      by (vm_compute; reflexivity).
    rewrite Hs in Hn. discriminate.
  - destruct (proj2 (parseMessage_whole_line (lit "rent -3000 extra"))
                (lit "2025-01-01")) as (entries & He & Hall).
    assert (Hs : Main.parseFinancialEntries (lit "2025-01-01")
                   (lit "rent -3000 extra")
                 = Return [ {| FinancialEntry.description := lit "rent";
                               FinancialEntry.amount := Num (-3000);
                               FinancialEntry.date := lit "2025-01-01" |} ])
      by (vm_compute; reflexivity).
    rewrite Hs in He. injection He as <-.
    apply Forall_cons_1 in Hall
      as [(line & skipped & desc & ws & sc & ds & rest & Hin
           & E & _ & _ & _ & _ & _ & _ & Hrec) _].
    inversion Hrec as [[Hd Ha]].
    exists line, skipped, desc, ws, sc, ds, rest. auto.
Defined.

(** C4, as stated, fails for the in-memory parser: of the line
    ["rent -3000 extra"], which [parseMessage] rejects, it keeps
    ["rent"] and [-3000] and drops [" extra"]. *)
Lemma parseFinancialEntries_partial :
  Main.parseFinancialEntries (lit "2025-01-01") (lit "rent -3000 extra")
  = Return [ {| FinancialEntry.description := lit "rent";
                FinancialEntry.amount := Num (-3000);
                FinancialEntry.date := lit "2025-01-01" |} ]
  ∧ Utils.parseMessage (lit "rent -3000 extra") = Return None.
Proof. vm_compute. auto. Qed.

(** C6. Parsing is a function of the text, with the amount-first
    alternative first: whenever the amount-first pattern matches the text
    the parser matches against (the trimmed line), the match
    [parseMessage] uses is that match and its result is the amount-first
    interpretation of it; and a line that is well formed in both grammars
    is read as the amount-first grammar reads it. *)
Theorem amountFirst_priority (text : jsstring) :
  (∀ mt, regex_match amountFirstPattern (trim text) = Some mt →
     regex_match Utils.pattern (trim text) = Some mt
     ∧ Utils.parseMessage text = amountFirstReading mt)
  ∧ (∀ p q,
       wellFormed p = true → optionalSign (sg p) = true →
       text = amountFirstText p →
       wellFormed q = true → mandatorySign (sg q) = true →
       text = labelFirstText q →
       Utils.parseMessage text = Return (Some (reading p))).
Proof.
  split.
  - intros mt Hm.
    assert (Hp : regex_match Utils.pattern (trim text) = Some mt).
    { apply amountFirst_wins; auto. destruct (trim_edges text); auto. }
    split; auto.
    destruct (amountFirstPattern_inv _ _ Hm)
      as (sg & ds & body & Hsg & Hne & Hds & ->).
    rewrite amountFirstReading_groups by auto.
    apply parseMessage_amountFirst; auto.
  - intros p q Hp Hsg -> _ _ _. apply parseMessage_amountFirstText; auto.
Qed.

(** ["5 x -3"] is a line of both grammars, with the label ["x -3"] or with
    the label ["5 x"]; it is read amount-first. *)
Lemma amountFirst_priority_witness :
  Utils.parseMessage (lit "5 x -3")
  = Return (Some {| ParsedTransaction.label := lit "x -3";
                    ParsedTransaction.sign := Positive;
                    ParsedTransaction.amount := Num 5 |})
  ∧ Utils.parseMessage (lit "5 x -3")
    = amountFirstReading
        (<[3%nat := lit "x -3"]> (<[2%nat := lit "5"]> (<[1%nat := []]> ∅))).
Proof.
  pose (mt := <[3%nat := lit "x -3"]> (<[2%nat := lit "5"]> (<[1%nat := []]> ∅))
             : captures).
  pose (p := {| pre := []; sg := []; ds := lit "5"; sep := lit " ";
                lbl := lit "x -3"; post := [] |}).
  pose (q := {| pre := []; sg := lit "-"; ds := lit "3"; sep := lit " ";
                lbl := lit "5 x"; post := [] |}).
  destruct (amountFirst_priority (lit "5 x -3")) as [Hmatch Hboth].
  split.
  - apply (Hboth p q); vm_compute; reflexivity.
  - apply (Hmatch mt). vm_compute. reflexivity.
Defined.

(** * The in-memory ledger *)

Section Ledger.

Implicit Types (st : Main.State) (r : jsstring) (es : list FinancialEntry.t).

(** The reduction of the code is the sum from the left. *)
Lemma reduce_total {A} (amount : A → number) (l : list A) : ∀ acc,
  fold_left (fun sum x => number_add sum (amount x)) l acc
  = fold_left number_add (map amount l) acc.
Proof.
  induction l as [|x l IH]; intros acc; simpl; [reflexivity|apply IH].
Qed.

Lemma calculateReceiptTotal_total r st :
  Main.calculateReceiptTotal r st
  = total (map FinancialEntry.amount (entriesOf r st)).
Proof.
  unfold Main.calculateReceiptTotal, entriesOf, total.
  destruct (Main.receipts st !! r) as [receipt|]; [|reflexivity].
  apply reduce_total.
Qed.

(** While every partial sum is a safe integer, the sum from the left is
    the sum of the integers. *)
Lemma safe_fold (zs : list Z) : ∀ z,
  safeSums z zs →
  fold_left number_add (map Num zs) (Num z) = Num (fold_left Z.add zs z).
Proof.
  induction zs as [|y zs IH]; intros z Hs; simpl; [reflexivity|].
  destruct Hs as [Hy Hs]. rewrite binary64_exact by exact Hy. apply IH, Hs.
Qed.

Lemma safe_total (zs : list Z) :
  safeSums 0 zs → total (map Num zs) = Num (integerSum zs).
Proof. apply safe_fold. Qed.

Lemma entriesOf_setEntries r r' es st :
  entriesOf r' (Main.setEntries r es st)
  = if decide (r = r')
    then match Main.receipts st !! r with Some _ => es | None => [] end
    else entriesOf r' st.
Proof.
  unfold Main.setEntries, entriesOf.
  destruct (decide (r = r')) as [->|Hne].
  - destruct (Main.receipts st !! r') eqn:Hr; simpl.
    + rewrite lookup_insert_eq. reflexivity.
    + rewrite Hr. reflexivity.
  - destruct (Main.receipts st !! r) eqn:Hr; simpl; [|reflexivity].
    rewrite lookup_insert_ne by auto. reflexivity.
Qed.

Lemma getReceipt_spec r st :
  Receipt.entries (Main.getReceipt r st).1 = entriesOf r st
  ∧ is_Some (Main.receipts (Main.getReceipt r st).2 !! r)
  ∧ (∀ r', entriesOf r' (Main.getReceipt r st).2 = entriesOf r' st)
  ∧ Main.userSessions (Main.getReceipt r st).2 = Main.userSessions st.
Proof.
  unfold Main.getReceipt, entriesOf.
  destruct (Main.receipts st !! r) as [receipt|] eqn:Hr; simpl.
  - rewrite Hr. eauto.
  - rewrite lookup_insert_eq. repeat split; eauto.
    intros r'. destruct (decide (r = r')) as [->|Hne].
    + rewrite lookup_insert_eq, Hr. reflexivity.
    + rewrite lookup_insert_ne by auto. reflexivity.
Qed.

Lemma entriesOf_addEntries r r' es st :
  entriesOf r' (Main.addEntriesToReceipt r es st)
  = if decide (r = r') then entriesOf r st ++ es else entriesOf r' st.
Proof.
  unfold Main.addEntriesToReceipt.
  destruct (getReceipt_spec r st) as (He & [rc Hs] & Ho & _).
  destruct (Main.getReceipt r st) as [receipt st1]. simpl in *.
  rewrite entriesOf_setEntries, Hs, He.
  destruct (decide (r = r')); auto.
Qed.

Lemma entriesOf_deleteReceipt r r' st :
  entriesOf r' (Main.deleteReceipt r st)
  = if decide (r = r') then [] else entriesOf r' st.
Proof.
  unfold Main.deleteReceipt, entriesOf. simpl.
  destruct (decide (r = r')) as [->|Hne].
  - rewrite lookup_delete_eq. reflexivity.
  - rewrite lookup_delete_ne by auto. reflexivity.
Qed.

Lemma string_eqb_decide (a b : jsstring) :
  string_eqb a b = if decide (a = b) then true else false.
Proof. unfold string_eqb, bool_decide. destruct (decide_rel _ a b), (decide (a = b)); auto; congruence. Qed.

Lemma entriesOf_applyOp r st op :
  entriesOf r (applyOp st op) = liveAfter r (entriesOf r st) op.
Proof.
  destruct op as [n es|n|n]; simpl; rewrite string_eqb_decide.
  - rewrite entriesOf_addEntries. destruct (decide (n = r)); subst; auto.
  - rewrite entriesOf_setEntries. destruct (decide (n = r)); subst; auto.
    destruct (Main.receipts st !! r); auto.
  - rewrite entriesOf_deleteReceipt. destruct (decide (n = r)); auto.
Qed.

Lemma entriesOf_runOps r ops : ∀ st,
  entriesOf r (runOps ops st) = fold_left (liveAfter r) ops (entriesOf r st).
Proof.
  induction ops as [|op ops IH]; intros st; simpl; auto.
  unfold runOps in *. simpl. rewrite IH, entriesOf_applyOp. reflexivity.
Qed.

End Ledger.

(** C2. The total of a receipt is the sum of the amounts of the entries
    it holds, added from the left as numbers, and 0 when it holds none;
    after any sequence of appends, clears and deletions, it is that sum
    over the entries appended and not cleared or deleted since. While the
    amounts are integers whose partial sums stay below 2^53 in magnitude,
    the sum is the sum of the integers. In the persisted version the
    balance of an existing account is the sum, from the left, of the
    amounts of the transactions stored for that account. *)
Theorem balance_is_sum (ops : list LedgerOp) (st : Main.State)
    (receiptName : jsstring) :
  Main.calculateReceiptTotal receiptName st
  = total (map FinancialEntry.amount (entriesOf receiptName st))
  ∧ (entriesOf receiptName st = [] →
     Main.calculateReceiptTotal receiptName st = Num 0)
  ∧ Main.calculateReceiptTotal receiptName (runOps ops Main.initial)
    = total (map FinancialEntry.amount (liveEntries ops receiptName))
  ∧ (∀ zs, map FinancialEntry.amount (liveEntries ops receiptName) = map Num zs →
       safeSums 0 zs →
       Main.calculateReceiptTotal receiptName (runOps ops Main.initial)
       = Num (integerSum zs))
  ∧ (∀ (db : Db.Database number) accountId account,
       Db.selectAccountByIdStmt accountId db = Some account →
       trim accountId ≠ [] →
       Db.getAccountBalance accountId db
       = (Return (total (map Transaction.amount
                           (List.filter
                              (fun t => bool_decide (Transaction.account t = accountId))
                              (Db.Transactions db)))),
          db)).
Proof.
  split; [|split; [|split; [|split]]].
  - apply calculateReceiptTotal_total.
  - intros He. rewrite calculateReceiptTotal_total, He. reflexivity.
  - rewrite calculateReceiptTotal_total, entriesOf_runOps. reflexivity.
  - intros zs Hzs Hsafe.
    rewrite calculateReceiptTotal_total, entriesOf_runOps.
    change (fold_left (liveAfter receiptName) ops (entriesOf receiptName Main.initial))
      with (liveEntries ops receiptName).
    rewrite Hzs. apply safe_total, Hsafe.
  - intros db accountId account Ha Ht.
    unfold Db.getAccountBalance, Db.getTransactionInAccount. rewrite Ha.
    assert (Hv : negb (truthy accountId) || (length (trim accountId) =? 0)%nat
                 = false).
    { destruct accountId as [|a s]; [destruct Ht; reflexivity|].
      destruct (trim (a :: s)); [congruence|reflexivity]. }
    rewrite Hv. f_equal. f_equal.
    change num_add with number_add. change num_zero with (Num 0).
    rewrite reduce_total. reflexivity.
Qed.

(** Scenario 4: the entries [-25 "milk"] and [-15 "bread"] total [-40],
    and the balance of an account with one transaction of 5000 among the
    transactions of the store is 5000. *)
Lemma balance_is_sum_witness :
  Main.calculateReceiptTotal (lit "groceries")
    (runOps [Append (lit "groceries")
               [ {| FinancialEntry.description := lit "milk";
                    FinancialEntry.amount := Num (-25);
                    FinancialEntry.date := lit "2025-01-01" |} ];
             Append (lit "groceries")
               [ {| FinancialEntry.description := lit "bread";
                    FinancialEntry.amount := Num (-15);
                    FinancialEntry.date := lit "2025-01-01" |} ]]
            Main.initial)
  = Num (-40)
  ∧ Db.getAccountBalance (lit "a1")
      {| Db.Accounts := [ {| Account.id := lit "a1"; Account.name := lit "savings" |};
                          {| Account.id := lit "a2"; Account.name := lit "cash" |} ];
         Db.Transactions :=
           [ {| Transaction.id := lit "t0"; Transaction.label := lit "salary";
                Transaction.amount := Num 5000; Transaction.account := lit "a1" |};
             {| Transaction.id := lit "t1"; Transaction.label := lit "bus";
                Transaction.amount := Num (-3); Transaction.account := lit "a2" |} ] |}
    = (Return (Num 5000),
       {| Db.Accounts := [ {| Account.id := lit "a1"; Account.name := lit "savings" |};
                           {| Account.id := lit "a2"; Account.name := lit "cash" |} ];
          Db.Transactions :=
            [ {| Transaction.id := lit "t0"; Transaction.label := lit "salary";
                 Transaction.amount := Num 5000; Transaction.account := lit "a1" |};
              {| Transaction.id := lit "t1"; Transaction.label := lit "bus";
                 Transaction.amount := Num (-3); Transaction.account := lit "a2" |} ] |}).
Proof.
  split.
  - match goal with
    | |- Main.calculateReceiptTotal ?r (runOps ?ops _) = _ =>
        destruct (balance_is_sum ops Main.initial r) as (_ & _ & _ & H & _)
    end.
    apply (H [(-25)%Z; (-15)%Z]); [reflexivity|].
    simpl. repeat split; lia.
  - destruct (balance_is_sum [] Main.initial []) as (_ & _ & _ & _ & H).
    match goal with
    | |- Db.getAccountBalance _ ?db = _ =>
        rewrite (H db (lit "a1")
                   {| Account.id := lit "a1"; Account.name := lit "savings" |}
                   eq_refl)
    end; [reflexivity|discriminate].
Defined.

(** * The handlers *)

Section Handlers.

Implicit Types (st : Main.State) (r : jsstring) (uid : Z) (ctx : Main.Context).

Lemma getUserSession_spec uid st :
  UserSession.currentReceipt (Main.getUserSession uid st).1 = currentReceiptOf uid st
  ∧ Main.receipts (Main.getUserSession uid st).2 = Main.receipts st
  ∧ (∀ u, currentReceiptOf u (Main.getUserSession uid st).2 = currentReceiptOf u st)
  ∧ (is_Some (Main.userSessions st !! uid) → (Main.getUserSession uid st).2 = st).
Proof.
  unfold Main.getUserSession, currentReceiptOf.
  destruct (Main.userSessions st !! uid) as [session|] eqn:Hs; simpl.
  - repeat split; auto.
  - repeat split; auto.
    + intros u. destruct (decide (uid = u)) as [->|Hne].
      * rewrite lookup_insert_eq, Hs. reflexivity.
      * rewrite lookup_insert_ne by auto. reflexivity.
    + intros [? ?]. discriminate.
Qed.

Lemma currentReceiptOf_set uid u v st :
  currentReceiptOf u (Main.setCurrentReceipt uid v st)
  = if decide (uid = u) then v else currentReceiptOf u st.
Proof.
  unfold Main.setCurrentReceipt, currentReceiptOf. simpl.
  destruct (decide (uid = u)) as [->|Hne].
  - rewrite lookup_insert_eq. reflexivity.
  - rewrite lookup_insert_ne by auto. reflexivity.
Qed.

Lemma selected_Some (session : UserSession.t) r :
  UserSession.currentReceipt session = Some r → r ≠ [] →
  Main.selected session = Some r.
Proof.
  unfold Main.selected. intros -> Hne. destruct r; [congruence|reflexivity].
Qed.

Lemma currentReceiptOf_is_Some uid st r :
  currentReceiptOf uid st = Some r → is_Some (Main.userSessions st !! uid).
Proof.
  unfold currentReceiptOf. destruct (Main.userSessions st !! uid); eauto.
  discriminate.
Qed.

End Handlers.



Lemma fold_left_append {A} (g : A → jsstring) (l : list A) : ∀ init,
  fold_left (fun acc e => acc ++ g e) l init = init ++ concat (map g l).
Proof.
  induction l as [|e l IH]; intros init; simpl.
  - rewrite app_nil_r. reflexivity.
  - rewrite IH, <- app_assoc. reflexivity.
Qed.

Lemma plainSigned_code (a : number) :
  (if number_ge0 a then lit "+" else []) ++ number_toString a = plainSigned a.
Proof. reflexivity. Qed.

(** A safe integer is printed as its sign and its digits. *)
Lemma plainSigned_safe (z : Z) :
  (Z.abs z < 2 ^ 53)%Z →
  plainSigned (Num z)
  = (if (0 <=? z)%Z then lit "+" else lit "-") ++ decimal (Num z).
Proof.
  intros Hz. unfold plainSigned, number_toString, integerToString, decimal.
  cbn [number_ge0].
  destruct (Z.ltb_spec (Z.abs z) (2 ^ 53)) as [_|?]; [|lia].
  destruct (Z.leb_spec 0 z), (Z.ltb_spec z 0); try lia; reflexivity.
Qed.

(** The report of an existing receipt: a heading, a line for each entry in
    order, and the total, each amount printed by [plainSigned]. *)
Lemma formatResponse_report (r : jsstring) (st : Main.State) (receipt : Receipt.t) :
  Main.receipts st !! r = Some receipt →
  Main.formatResponse r st
  = lit "**Receipt: " ++ r ++ lit "**" ++ [LF; LF] ++ lit "```" ++ [LF]
    ++ concat (map receiptLine (Receipt.entries receipt))
    ++ [LF] ++ lit "Total: "
    ++ plainSigned (total (map FinancialEntry.amount (Receipt.entries receipt)))
    ++ [LF] ++ lit "```".
Proof.
  intros Hr. unfold Main.formatResponse. rewrite Hr.
  rewrite (fold_left_append
             (fun entry =>
                lit "- " ++ FinancialEntry.description entry ++ lit " "
                ++ (if number_ge0 (FinancialEntry.amount entry) then lit "+" else [])
                ++ number_toString (FinancialEntry.amount entry)
                ++ lit " [" ++ FinancialEntry.date entry ++ lit "]" ++ [LF])).
  rewrite calculateReceiptTotal_total. unfold entriesOf. rewrite Hr.
  rewrite <- (plainSigned_code (total _)).
  erewrite map_ext with (g := receiptLine).
  - rewrite <- !app_assoc. reflexivity.
  - intros e. unfold receiptLine.
    rewrite <- plainSigned_code, <- !app_assoc. reflexivity.
Qed.

(** C10. The entries of a text of several lines are the entries of its
    lines, one for each line that holds a match of the pattern, in the
    order of the lines; a line without a match gives nothing and changes
    nothing for the others. The text handler appends them all, in that
    order, to the receipt the user has selected. *)
Theorem entries_per_line (date : jsstring) (lines : list jsstring) :
  lines ≠ [] → Forall (fun l => LF ∉ l) lines →
  Main.parseFinancialEntries date (join [LF] lines)
  = Return (omap (lineEntry date) lines)
  ∧ ∀ ctx st uid r,
      Main.userId ctx = Some uid →
      Main.message_text ctx = Some (join [LF] lines) →
      startsWith (join [LF] lines) 47 = false →
      currentReceiptOf uid st = Some r → r ≠ [] →
      omap (lineEntry date) lines ≠ [] →
      entriesOf r (Main.onText date ctx st).1
      = entriesOf r st ++ omap (lineEntry date) lines.
Proof.
  intros Hne Hl.
  assert (Hp : Main.parseFinancialEntries date (join [LF] lines)
               = Return (omap (lineEntry date) lines)).
  { rewrite parseFinancialEntries_lines, split_join; auto. }
  split; [exact Hp|].
  intros ctx st uid r Hu Ht Hs Hsel Hr Hes.
  unfold Main.onText. rewrite Hu, Ht, Hs.
  destruct (getUserSession_spec uid st) as (Hc & _ & _ & Hsame).
  specialize (Hsame (currentReceiptOf_is_Some _ _ _ Hsel)).
  destruct (Main.getUserSession uid st) as [session st1]. simpl in Hc, Hsame.
  subst st1. rewrite (selected_Some session r) by congruence.
  rewrite Hp.
  destruct (omap (lineEntry date) lines) as [|e es] eqn:He; [congruence|].
  cbn [length Nat.eqb fst]. rewrite entriesOf_addEntries.
  destruct (decide (r = r)); congruence.
Qed.

(** Three lines, the second without a match: two entries, in order, are
    parsed and appended. *)
Lemma entries_per_line_witness :
  let lines := [lit "milk -25"; lit "junk"; lit "bread -15"] in
  let ctx text := {| Main.from_id := Some 7%Z; Main.message_text := Some text |} in
  let st0 := (Main.onNew (ctx (lit "/new groceries")) Main.initial).1 in
  Main.parseFinancialEntries (lit "2025-01-01") (join [LF] lines)
  = Return [ {| FinancialEntry.description := lit "milk";
                FinancialEntry.amount := Num (-25);
                FinancialEntry.date := lit "2025-01-01" |};
             {| FinancialEntry.description := lit "bread";
                FinancialEntry.amount := Num (-15);
                FinancialEntry.date := lit "2025-01-01" |} ]
  ∧ entriesOf (lit "groceries")
      (Main.onText (lit "2025-01-01") (ctx (join [LF] lines)) st0).1
    = [ {| FinancialEntry.description := lit "milk";
           FinancialEntry.amount := Num (-25);
           FinancialEntry.date := lit "2025-01-01" |};
        {| FinancialEntry.description := lit "bread";
           FinancialEntry.amount := Num (-15);
           FinancialEntry.date := lit "2025-01-01" |} ].
Proof.
  intros lines ctx st0.
  destruct (entries_per_line (lit "2025-01-01") lines) as [Hp Hh].
  - discriminate.
  - repeat constructor; vm_compute; intros H;
      repeat (apply elem_of_cons in H as [H|H]; [discriminate|]);
      by apply elem_of_nil in H.
  - split.
    + rewrite Hp. vm_compute. reflexivity.
    + rewrite (Hh (ctx (join [LF] lines)) st0 7%Z (lit "groceries"));
        vm_compute; (reflexivity || discriminate).
Defined.

(** * The reports *)

Lemma signedText_code (fmt : number → jsstring) (a : number) :
  (if number_ge0 a then lit "+" else lit "-") ++ fmt (number_abs a)
  = signedText fmt a.
Proof.
  destruct a as [|[|]|z]; [reflexivity..|]. simpl.
  destruct (Z.leb_spec 0 z) as [Hz|Hz].
  - rewrite Z.abs_eq by lia. reflexivity.
  - rewrite Z.abs_neq by lia. reflexivity.
Qed.

Lemma parseTransactions_report (fmt : number → jsstring)
    (txs : list (Transaction.t number)) :
  Utils.parseTransactions fmt txs
  = join [LF] (map (entryLine fmt) txs) ++ [LF; LF]
    ++ totalLine fmt (total (map Transaction.amount txs)).
Proof.
  unfold Utils.parseTransactions.
  change (@num_add number _) with number_add.
  change (@num_zero number _) with (Num 0).
  change (@num_ge0 number _) with number_ge0.
  change (@num_abs number _) with number_abs.
  rewrite reduce_total. fold (total (map Transaction.amount txs)).
  erewrite map_ext with (g := entryLine fmt).
  - unfold totalLine. rewrite <- signedText_code. reflexivity.
  - intros t. unfold entryLine. rewrite <- signedText_code, <- ?app_assoc.
    reflexivity.
Qed.


(** C5 (amended). The report of the persisted version prints each entry
    and the total by one convention: an indicator, then [+] for an amount
    that is not negative and [-] for a negative one, then the absolute
    value as [toLocaleString] prints it; the entries come in order, one a
    line, and the total, the sum of the amounts from the left, after an
    empty line. The in-memory report prints entries and total by one
    convention too, but a plainer one: [+] before an amount that is not
    negative, then the text of the amount, which for an integer below 2^53
    in magnitude is [-] for a negative one and the decimal digits of the
    absolute value, with no indicator and no separator. *)
Theorem report_convention (fmt : number → jsstring) :
  (∀ txs : list (Transaction.t number),
     Utils.parseTransactions fmt txs
     = join [LF] (map (entryLine fmt) txs) ++ [LF; LF]
       ++ totalLine fmt (total (map Transaction.amount txs)))
  ∧ (∀ (t : Transaction.t number) z, Transaction.amount t = Num z →
       ((0 <= z)%Z →
        entryLine fmt t
        = Utils.emojiPositive ++ lit " +" ++ fmt (Num z) ++ lit "  "
          ++ [quote] ++ Transaction.label t ++ [quote])
       ∧ ((z < 0)%Z →
          entryLine fmt t
          = Utils.emojiNegative ++ lit " -" ++ fmt (Num (Z.abs z)) ++ lit "  "
            ++ [quote] ++ Transaction.label t ++ [quote]))
  ∧ (∀ z,
       ((0 <= z)%Z →
        totalLine fmt (Num z)
        = Utils.totalEmojiPositive ++ lit " Total: +" ++ fmt (Num z))
       ∧ ((z < 0)%Z →
          totalLine fmt (Num z)
          = Utils.totalEmojiNegative ++ lit " Total: -" ++ fmt (Num (Z.abs z))))
  ∧ (∀ r st receipt,
       Main.receipts st !! r = Some receipt →
       Main.formatResponse r st
       = lit "**Receipt: " ++ r ++ lit "**" ++ [LF; LF] ++ lit "```" ++ [LF]
         ++ concat (map receiptLine (Receipt.entries receipt))
         ++ [LF] ++ lit "Total: "
         ++ plainSigned (total (map FinancialEntry.amount (Receipt.entries receipt)))
         ++ [LF] ++ lit "```")
  ∧ (∀ z,
       ((0 <= z < 2 ^ 53)%Z → plainSigned (Num z) = lit "+" ++ decimal (Num z))
       ∧ ((- 2 ^ 53 < z < 0)%Z →
          plainSigned (Num z) = lit "-" ++ decimal (Num (Z.abs z)))).
Proof.
  split; [|split; [|split; [|split]]].
  - apply parseTransactions_report.
  - intros t z Ht. unfold entryLine. rewrite Ht. simpl. split; intros Hz.
    + destruct (Z.leb_spec 0 z); [|lia]. reflexivity.
    + destruct (Z.leb_spec 0 z); [lia|]. rewrite Z.abs_neq by lia. reflexivity.
  - intros z. unfold totalLine. simpl. split; intros Hz.
    + destruct (Z.leb_spec 0 z); [|lia]. reflexivity.
    + destruct (Z.leb_spec 0 z); [lia|]. rewrite Z.abs_neq by lia. reflexivity.
  - apply formatResponse_report.
  - intros z. split; intros Hz; rewrite plainSigned_safe by lia.
    + destruct (Z.leb_spec 0 z); [|lia]. reflexivity.
    + destruct (Z.leb_spec 0 z); [lia|].
      unfold decimal. rewrite Z.abs_idemp. reflexivity.
Qed.

(** Scenario 4 in the persisted version, with amounts printed in decimal:
    two entry lines, then the total line. *)
Lemma report_convention_witness :
  Utils.parseTransactions decimal
    [ {| Transaction.id := lit "t1"; Transaction.label := lit "milk";
         Transaction.amount := Num (-25); Transaction.account := lit "a1" |};
      {| Transaction.id := lit "t2"; Transaction.label := lit "bread";
         Transaction.amount := Num (-15); Transaction.account := lit "a1" |} ]
  = Utils.emojiNegative ++ lit " -25  " ++ [quote] ++ lit "milk" ++ [quote] ++ [LF]
    ++ Utils.emojiNegative ++ lit " -15  " ++ [quote] ++ lit "bread" ++ [quote]
    ++ [LF; LF] ++ Utils.totalEmojiNegative ++ lit " Total: -40".
Proof.
  destruct (report_convention decimal) as (-> & _).
  vm_compute. reflexivity.
Defined.

(** C5, as stated, fails for the in-memory report: [-3000] is printed as
    it is, with no indicator (every character is ASCII) and no separator
    of thousands. *)
Lemma formatResponse_plain :
  let ctx text := {| Main.from_id := Some 7%Z; Main.message_text := Some (lit text) |} in
  let st0 := (Main.onNew (ctx "/new r"%string) Main.initial).1 in
  let st1 := (Main.onText (lit "2025-01-01") (ctx "rent -3000"%string) st0).1 in
  Main.formatResponse (lit "r") st1
  = lit "**Receipt: r**" ++ [LF; LF] ++ lit "```" ++ [LF]
    ++ lit "- rent -3000 [2025-01-01]" ++ [LF; LF]
    ++ lit "Total: -3000" ++ [LF] ++ lit "```"
  ∧ forallb (fun c => c <? 128) (Main.formatResponse (lit "r") st1) = true.
Proof. vm_compute. auto. Qed.

(** * The store *)

Lemma invalid_text (s : jsstring) :
  negb (truthy s) || (length (trim s) =? 0)%nat = true ↔ trim s = [].
Proof.
  destruct s as [|a s]; [split; reflexivity|]. simpl negb. simpl orb.
  destruct (trim (a :: s)); simpl; split; congruence.
Qed.

Lemma valid_text (s : jsstring) :
  trim s ≠ [] → negb (truthy s) || (length (trim s) =? 0)%nat = false.
Proof.
  intros Hs. destruct (negb (truthy s) || (length (trim s) =? 0)%nat) eqn:E; auto.
  apply invalid_text in E. congruence.
Qed.

Section StoreFacts.
Context {num : Type} `{Number num}.
Variable acceptsAccount : Db.Database num → Account.t → bool.
Variable acceptsTransaction : Db.Database num → Transaction.t num → bool.
Variable constraintFailure : jsstring.

Lemma createAccount_throw_unchanged id name db e db' :
  Db.createAccount acceptsAccount constraintFailure id name db = (Throw e, db') →
  db' = db.
Proof.
  unfold Db.createAccount, Db.insertAccountStmt.
  destruct (negb (truthy name) || (length (trim name) =? 0)%nat);
    [intros E; inversion E; auto|].
  destruct (acceptsAccount db _); intros E; inversion E; auto.
Qed.

Lemma createTransaction_throw_unchanged id params db e db' :
  Db.createTransaction acceptsTransaction constraintFailure id params db
  = (Throw e, db') →
  db' = db.
Proof.
  unfold Db.createTransaction, Db.insertTransactionStmt.
  repeat match goal with
         | |- context [if ?b then _ else _] =>
             destruct b; [intros E; inversion E; auto; fail|]
         end.
  destruct (Db.selectAccountByIdStmt _ db); [|intros E; inversion E; auto].
  destruct (acceptsTransaction db _); intros E; inversion E; auto.
Qed.
End StoreFacts.

(** C8 (amended). [createAccount] with a blank name, and
    [createTransaction] with a blank label, a [NaN] amount or a blank
    account id, throw before any insert and leave the store as it was;
    whenever either throws, the store is as it was. Of the amounts only
    [NaN] is refused: with a label and the id of an existing account, any
    other amount reaches the insert, and is stored if the table accepts
    the row. *)
Theorem invalid_input_rejected {num : Type} `{Number num}
    (acceptsAccount : Db.Database num → Account.t → bool)
    (acceptsTransaction : Db.Database num → Transaction.t num → bool)
    (constraintFailure : jsstring) (id : jsstring) (db : Db.Database num) :
  (∀ name, trim name = [] →
     Db.createAccount acceptsAccount constraintFailure id name db
     = (Throw (Error (lit "Account name cannot be empty")), db))
  ∧ (∀ params,
       trim (CreateTransactionParams.label params) = []
       ∨ num_isNaN (CreateTransactionParams.amount params) = true
       ∨ trim (CreateTransactionParams.accountId params) = [] →
       ∃ message,
         Db.createTransaction acceptsTransaction constraintFailure id params db
         = (Throw (Error message), db))
  ∧ (∀ name e db',
       Db.createAccount acceptsAccount constraintFailure id name db = (Throw e, db') →
       db' = db)
  ∧ (∀ params e db',
       Db.createTransaction acceptsTransaction constraintFailure id params db
       = (Throw e, db') →
       db' = db)
  ∧ (∀ params account,
       trim (CreateTransactionParams.label params) ≠ [] →
       num_isNaN (CreateTransactionParams.amount params) = false →
       trim (CreateTransactionParams.accountId params) ≠ [] →
       Db.selectAccountByIdStmt (CreateTransactionParams.accountId params) db
       = Some account →
       let row :=
         {| Transaction.id := id;
            Transaction.label := trim (CreateTransactionParams.label params);
            Transaction.amount := CreateTransactionParams.amount params;
            Transaction.account := CreateTransactionParams.accountId params |} in
       acceptsTransaction db row = true →
       Db.createTransaction acceptsTransaction constraintFailure id params db
       = (Return row,
          {| Db.Accounts := Db.Accounts db;
             Db.Transactions := Db.Transactions db ++ [row] |})).
Proof.
  split; [|split; [|split; [|split]]].
  - intros name Hn. unfold Db.createAccount.
    rewrite (proj2 (invalid_text name) Hn). reflexivity.
  - intros params Hbad. unfold Db.createTransaction.
    destruct (negb (truthy (CreateTransactionParams.label params))
              || (length (trim (CreateTransactionParams.label params)) =? 0)%nat)
      eqn:Hl; [eauto|].
    destruct (num_isNaN (CreateTransactionParams.amount params)) eqn:Ha; [eauto|].
    destruct (negb (truthy (CreateTransactionParams.accountId params))
              || (length (trim (CreateTransactionParams.accountId params)) =? 0)%nat)
      eqn:Hi; [eauto|].
    destruct Hbad as [Hb|[Hb|Hb]]; try congruence.
    + apply invalid_text in Hb. congruence.
    + apply invalid_text in Hb. congruence.
  - intros name e db'. apply createAccount_throw_unchanged.
  - intros params e db'. apply createTransaction_throw_unchanged.
  - intros params account Hl Ha Hi Hacc row Hok. unfold Db.createTransaction.
    rewrite (valid_text _ Hl), Ha, (valid_text _ Hi), Hacc.
    unfold Db.insertTransactionStmt. fold row. rewrite Hok. reflexivity.
Qed.

(** A blank account name and a [NaN] amount are refused, and the store is
    left as it was. *)
Lemma invalid_input_rejected_witness :
  Db.createAccount (fun _ _ => true) [] (lit "id1") (lit "   ") oneAccount
  = (Throw (Error (lit "Account name cannot be empty")), oneAccount)
  ∧ ∃ message,
      Db.createTransaction (fun _ _ => true) [] (lit "t1")
        {| CreateTransactionParams.label := lit "rent";
           CreateTransactionParams.amount := nan;
           CreateTransactionParams.accountId := lit "a1" |} oneAccount
      = (Throw (Error message), oneAccount).
Proof.
  destruct (invalid_input_rejected (fun _ _ => true) (fun _ _ => true) []
              (lit "id1") oneAccount) as (Ha & _).
  destruct (invalid_input_rejected (fun _ _ => true) (fun _ _ => true) []
              (lit "t1") oneAccount) as (_ & Ht & _).
  split.
  - apply Ha. reflexivity.
  - apply Ht. right. left. reflexivity.
Defined.

(** C8, as stated, fails: an infinite amount and a fractional amount pass
    the validation and are inserted; when the table refuses the row, the
    failure is the failure of the insert, not a validation error. *)
Lemma createTransaction_accepts_any_number :
  Db.createTransaction (fun _ _ => true) [] (lit "t1")
    {| CreateTransactionParams.label := lit "rent";
       CreateTransactionParams.amount := infinity;
       CreateTransactionParams.accountId := lit "a1" |} oneAccount
  = (Return {| Transaction.id := lit "t1"; Transaction.label := lit "rent";
               Transaction.amount := infinity; Transaction.account := lit "a1" |},
     {| Db.Accounts := Db.Accounts oneAccount;
        Db.Transactions :=
          [ {| Transaction.id := lit "t1"; Transaction.label := lit "rent";
               Transaction.amount := infinity; Transaction.account := lit "a1" |} ] |})
  ∧ Db.createTransaction (fun _ _ => true) [] (lit "t2")
      {| CreateTransactionParams.label := lit "coffee";
         CreateTransactionParams.amount := 2.5%float;
         CreateTransactionParams.accountId := lit "a1" |} oneAccount
    = (Return {| Transaction.id := lit "t2"; Transaction.label := lit "coffee";
                 Transaction.amount := 2.5%float; Transaction.account := lit "a1" |},
       {| Db.Accounts := Db.Accounts oneAccount;
          Db.Transactions :=
            [ {| Transaction.id := lit "t2"; Transaction.label := lit "coffee";
                 Transaction.amount := 2.5%float; Transaction.account := lit "a1" |} ] |})
  ∧ Db.createTransaction (fun _ _ => false) (lit "CHECK constraint failed")
      (lit "t1")
      {| CreateTransactionParams.label := lit "rent";
         CreateTransactionParams.amount := infinity;
         CreateTransactionParams.accountId := lit "a1" |} oneAccount
    = (Throw (Error (lit "Failed to create transaction: CHECK constraint failed")),
       oneAccount).
Proof. vm_compute. repeat split; reflexivity. Qed.

(** * Further properties of the parsers *)

Lemma trim_all_blank (s : jsstring) : all isWhiteSpace s → trim s = [].
Proof.
  intros Hs. unfold trim.
  rewrite <- (app_nil_r s), trimStart_blank_app by exact Hs. reflexivity.
Qed.

Lemma trim_around (pre s post : jsstring) :
  all isWhiteSpace pre → all isWhiteSpace post → trim (pre ++ s ++ post) = trim s.
Proof.
  intros Hpre Hpost.
  destruct (trim_split s) as (l & r & Hs & Hl & Hr).
  destruct (trim_edges s) as [He|Ht].
  - rewrite He. apply trim_all_blank.
    apply trim_blank in He.
    apply Forall_app_2; [exact Hpre|]. apply Forall_app_2; assumption.
  - rewrite Hs at 1.
    replace (pre ++ (l ++ trim s ++ r) ++ post)
      with ((pre ++ l) ++ trim s ++ (r ++ post))
      by (rewrite <- !app_assoc; reflexivity).
    apply trim_strip; [apply Forall_app_2|apply Forall_app_2|]; assumption.
Qed.

Lemma parseMessage_unmatched (text : jsstring) :
  regex_match Utils.pattern (trim text) = None →
  Utils.parseMessage text = Return None.
Proof.
  intros Hn. unfold Utils.parseMessage. cbv zeta. rewrite Hn. reflexivity.
Qed.

Lemma all_mem_dot_trim (s : jsstring) : all (mem CDot) s → all (mem CDot) (trim s).
Proof.
  intros Hs. destruct (trim_split s) as (l & r & Heq & _ & _).
  rewrite Heq in Hs.
  apply Forall_app in Hs as [_ Hs]. apply Forall_app in Hs as [Hs _]. exact Hs.
Qed.

Lemma lineEntry_shape (date line : jsstring) (e : FinancialEntry.t) :
  lineEntry date line = Some e →
  FinancialEntry.date e = date
  ∧ number_isNaN (FinancialEntry.amount e) = false
  ∧ (FinancialEntry.description e = []
     ∨ trimmed (FinancialEntry.description e) = true)
  ∧ all (mem CDot) (FinancialEntry.description e).
Proof.
  intros He.
  apply lineEntry_inv in He
    as (skipped & desc & ws & sc & ds & rest & _ & _ & Hdot & _ & _ & _ & _ & ->).
  cbn [FinancialEntry.date FinancialEntry.amount FinancialEntry.description].
  split; [reflexivity|]. split; [apply binary64_not_NaN|].
  split; [apply trim_edges|apply all_mem_dot_trim, Hdot].
Qed.

Lemma parseMessage_result (text : jsstring) (tx : ParsedTransaction.t) :
  Utils.parseMessage text = Return (Some tx) →
  trimmed (ParsedTransaction.label tx) = true
  ∧ all (mem CDot) (ParsedTransaction.label tx)
  ∧ ∃ d, (0 <= d)%Z ∧ ParsedTransaction.amount tx = binary64 d.
Proof.
  intros Htx.
  destruct (parseMessage_inv text) as [[_ Hn]|(p & Hwf & Hp & _)].
  - rewrite Hn in Htx. discriminate.
  - rewrite Hp in Htx. injection Htx as <-.
    apply wellFormed_inv in Hwf as (_ & _ & _ & _ & _ & _ & Ht & Hdot).
    cbn [reading ParsedTransaction.label ParsedTransaction.amount].
    split; [exact Ht|]. split; [exact Hdot|].
    eexists. split; [apply digitsValue_nonneg|reflexivity].
Qed.

(** The product the persisted bot stores, [amount * -1] or [amount * 1],
    for an amount that is the Number value of an integer. *)
Lemma binary64_mul_sign (d : Z) (s : Sign) :
  number_mul (binary64 d) (match s with Negative => Num (-1) | Positive => Num 1 end)
  = match s with
    | Negative => number_neg (binary64 d)
    | Positive => binary64 d
    end.
Proof.
  destruct (binary64 d) as [|negative|v] eqn:Hd.
  - pose proof (binary64_not_NaN d) as Hn. rewrite Hd in Hn. discriminate.
  - destruct s, negative; reflexivity.
  - apply binary64_idem in Hd. destruct s; cbn [number_mul number_neg].
    + rewrite Z.mul_1_r. exact Hd.
    + replace (v * -1)%Z with (- v)%Z by lia.
      rewrite binary64_opp, Hd. reflexivity.
Qed.

(** X1. Every transaction [parseMessage] returns has a label that is not
    empty, begins and ends with a character that is not white space and
    stays on one line, and an amount that is the Number value of an integer
    that is not negative: it is never NaN and never below 0 (a run of
    digits long enough gives [Infinity]). The direction is in the sign
    only: the product the bot stores, the amount times -1 or 1, is the
    amount or its opposite. *)
Theorem parseMessage_shape (text : jsstring) (tx : ParsedTransaction.t) :
  Utils.parseMessage text = Return (Some tx) →
  trimmed (ParsedTransaction.label tx) = true
  ∧ all (mem CDot) (ParsedTransaction.label tx)
  ∧ (∃ d, (0 <= d)%Z ∧ ParsedTransaction.amount tx = binary64 d)
  ∧ number_ge0 (ParsedTransaction.amount tx) = true
  ∧ number_isNaN (ParsedTransaction.amount tx) = false
  ∧ number_mul (ParsedTransaction.amount tx)
      (match ParsedTransaction.sign tx with
       | Negative => Num (-1)
       | Positive => Num 1
       end)
    = signedAmount tx.
Proof.
  intros Htx.
  destruct (parseMessage_result text tx Htx) as (Ht & Hdot & d & Hpos & Hd).
  split; [exact Ht|]. split; [exact Hdot|].
  split; [exists d; split; assumption|].
  unfold signedAmount. rewrite Hd.
  split; [apply binary64_ge0, Hpos|]. split; [apply binary64_not_NaN|].
  apply binary64_mul_sign.
Qed.

Lemma parseMessage_shape_witness :
  Utils.parseMessage (lit "rent -3000")
  = Return (Some {| ParsedTransaction.label := lit "rent";
                    ParsedTransaction.sign := Negative;
                    ParsedTransaction.amount := Num 3000 |})
  ∧ trimmed (lit "rent") = true
  ∧ number_ge0 (Num 3000) = true
  ∧ number_mul (Num 3000) (Num (-1)) = Num (-3000).
Proof.
  assert (H : Utils.parseMessage (lit "rent -3000")
              = Return (Some {| ParsedTransaction.label := lit "rent";
                                ParsedTransaction.sign := Negative;
                                ParsedTransaction.amount := Num 3000 |}))
    by (vm_compute; reflexivity).
  split; [exact H|].
  destruct (parseMessage_shape _ _ H) as (Ht & _ & _ & Hge & _ & Hm).
  split; [exact Ht|]. split; [exact Hge|exact Hm].
Defined.

(** X2. White space before and after the text does not change what
    [parseMessage] returns. *)
Theorem parseMessage_outer_space (pre text post : jsstring) :
  all isWhiteSpace pre → all isWhiteSpace post →
  Utils.parseMessage (pre ++ text ++ post) = Utils.parseMessage text.
Proof.
  intros Hpre Hpost. unfold Utils.parseMessage. cbv zeta.
  rewrite (trim_around pre text post Hpre Hpost). reflexivity.
Qed.

Lemma parseMessage_outer_space_witness :
  Utils.parseMessage (lit "  " ++ lit "rent -3000" ++ [LF])
  = Utils.parseMessage (lit "rent -3000").
Proof.
  apply (parseMessage_outer_space (lit "  ") (lit "rent -3000") [LF]);
    repeat constructor.
Defined.

(** X3. [parseFinancialEntries] returns, for every text, at most one entry
    per line; each entry carries the date given and an amount that is not
    NaN, and its description stays on one line and is empty or begins and
    ends with a character that is not white space. *)
Theorem parseFinancialEntries_shape (date text : jsstring) :
  ∃ entries,
    Main.parseFinancialEntries date text = Return entries
    ∧ (length entries <= length (split LF text))%nat
    ∧ Forall (fun e =>
                FinancialEntry.date e = date
                ∧ number_isNaN (FinancialEntry.amount e) = false
                ∧ (FinancialEntry.description e = []
                   ∨ trimmed (FinancialEntry.description e) = true)
                ∧ all (mem CDot) (FinancialEntry.description e))
             entries.
Proof.
  exists (omap (lineEntry date) (split LF text)).
  split; [apply parseFinancialEntries_lines|].
  generalize (split LF text) as lines.
  induction lines as [|line lines [IHl IHf]]; csimpl; [split; [lia|constructor]|].
  destruct (lineEntry date line) as [e|] eqn:He; csimpl.
  - split; [lia|]. constructor; [exact (lineEntry_shape _ _ _ He)|exact IHf].
  - split; [lia|exact IHf].
Qed.

Lemma trimmed_signed (sc : N) (ds : jsstring) :
  sc = 43 ∨ sc = 45 → ds ≠ [] → all isDigit ds → trimmed (sc :: ds) = true.
Proof.
  intros Hsc Hne Hds. unfold trimmed.
  rewrite (sign_not_space sc Hsc).
  destruct (last_digits ds Hne Hds) as (d & Hl & Hd).
  destruct ds as [|d0 ds]; [congruence|].
  change (last (sc :: d0 :: ds)) with (last (d0 :: ds)).
  rewrite Hl, Hd. reflexivity.
Qed.

Lemma entryPattern_blank_label (w0 sc : N) (ws ds : jsstring) :
  isWhiteSpace w0 = true → mem CDot w0 = true → all isWhiteSpace ws →
  sc = 43 ∨ sc = 45 → ds ≠ [] → all isDigit ds →
  regex_match Main.entryPattern (w0 :: ws ++ sc :: ds)
  = Some (<[2%nat := sc :: ds]> (<[1%nat := [w0]]> ∅)).
Proof.
  intros Hw0 Hdot Hws Hsc Hne Hds. unfold regex_match.
  assert (Hm : matcher Main.entryPattern 0 (w0 :: ws ++ sc :: ds) ∅ accept
               = Some (<[2%nat := sc :: ds]> (<[1%nat := [w0]]> ∅))).
  { unfold Main.entryPattern. rewrite matcher_seq.
    change (w0 :: ws ++ sc :: ds) with (w0 :: [] ++ (ws ++ sc :: ds)).
    apply matcher_group_plus_lazy_first; auto.
    - rewrite matcher_seq, matcher_star.
      apply repeatClass_greedy_max; auto.
      { simpl. apply sign_not_space. auto. }
      rewrite <- (app_nil_r ds) at 1.
      apply matcher_signed; simpl; auto.
      destruct Hsc as [-> | ->]; reflexivity.
    - intros w1 w2 E Hw2. destruct w1; destruct w2; simpl in E; congruence. }
  simpl search. simpl in Hm. rewrite Hm. reflexivity.
Qed.

Lemma space_in_match (t : jsstring) (mt : captures) :
  regex_match Utils.pattern t = Some mt → ∃ c, c ∈ t ∧ isWhiteSpace c = true.
Proof.
  intros Hm.
  apply pattern_match_inv in Hm
    as (w0 & ws & w2 & ds & _ & Hws & Hne & _ & _ & _ & Hc).
  destruct ws as [|c ws]; [congruence|]. inversion Hws; subst.
  exists c. split; [|assumption].
  destruct Hc as [(sg & body & -> & _)|(body & sc & -> & _)];
    rewrite !elem_of_app; rewrite ?elem_of_cons; set_solver.
Qed.

Lemma parseMessage_needs_space_aux (text : jsstring) :
  Forall (fun c => isWhiteSpace c = false) (trim text) →
  Utils.parseMessage text = Return None.
Proof.
  intros Hno. apply parseMessage_unmatched.
  destruct (regex_match Utils.pattern (trim text)) as [mt|] eqn:Hm; [|reflexivity].
  apply space_in_match in Hm as (c & Hin & Hc).
  rewrite Forall_forall in Hno. rewrite (Hno c Hin) in Hc. discriminate.
Qed.

(** X4. Without white space between the label and the amount
    [parseMessage] finds no transaction: a text whose trimmed form holds no
    white space is rejected. The in-memory parser asks for no separation:
    a well-formed label directly followed by the sign and the digits is
    read as an entry. *)
Theorem parseMessage_needs_space (text : jsstring) :
  (Forall (fun c => isWhiteSpace c = false) (trim text) →
   Utils.parseMessage text = Return None)
  ∧ (∀ date p, wellFormedEntry p = true → sep p = [] → text = lbl p ++ sg p ++ ds p →
       Main.parseFinancialEntries date text = Return [entryReading date p]).
Proof.
  split; [apply parseMessage_needs_space_aux|].
  intros date p Hwf Hsep ->.
  rewrite <- (parseFinancialEntries_entryText date p Hwf).
  unfold entryText. rewrite Hsep. reflexivity.
Qed.

Lemma parseMessage_needs_space_witness :
  Utils.parseMessage (lit "rent-3000") = Return None
  ∧ Main.parseFinancialEntries (lit "2025-01-01") (lit "rent-3000")
    = Return [ {| FinancialEntry.description := lit "rent";
                  FinancialEntry.amount := Num (-3000);
                  FinancialEntry.date := lit "2025-01-01" |} ].
Proof.
  destruct (parseMessage_needs_space (lit "rent-3000")) as [Hp Hm]. split.
  - apply Hp.
    change (Forall (fun c => isWhiteSpace c = false) (lit "rent-3000")).
    repeat constructor.
  - apply (Hm (lit "2025-01-01")
              {| pre := []; sg := lit "-"; ds := lit "3000"; sep := [];
                 lbl := lit "rent"; post := [] |});
      reflexivity.
Defined.

(** X5. A line made of white space and a signed number gives an entry of
    the in-memory parser whose description is empty, while [parseMessage]
    rejects the same line. *)
Theorem blank_label_entry (date ws ds : jsstring) (sc : N) :
  ws ≠ [] → all (fun c => isWhiteSpace c && mem CDot c) ws →
  sc = 43 ∨ sc = 45 → ds ≠ [] → all isDigit ds →
  Main.parseFinancialEntries date (ws ++ sc :: ds)
  = Return [ {| FinancialEntry.description := [];
                FinancialEntry.amount :=
                  binary64 (if sc =? 45 then - digitsValue ds else digitsValue ds);
                FinancialEntry.date := date |} ]
  ∧ Utils.parseMessage (ws ++ sc :: ds) = Return None.
Proof.
  intros Hne Hws Hsc Hdne Hds.
  assert (Hblank : all isWhiteSpace ws).
  { eapply Forall_impl; [apply Hws|]. intros c Hc.
    apply andb_true_iff in Hc as [? _]. assumption. }
  split.
  - assert (Hlf : LF ∉ ws ++ sc :: ds).
    { rewrite not_elem_of_app, not_elem_of_cons. repeat split.
      - intros Hin. rewrite Forall_forall in Hws. apply Hws in Hin.
        discriminate.
      - destruct Hsc; subst; discriminate.
      - intros Hin. rewrite Forall_forall in Hds. apply Hds in Hin.
        discriminate. }
    rewrite parseFinancialEntries_lines, (split_without LF _ Hlf).
    destruct ws as [|w0 ws]; [congruence|].
    inversion Hws as [|? ? Hw0 _]; subst.
    inversion Hblank as [|? ? _ Hblank']; subst.
    apply andb_true_iff in Hw0 as [Hw0 Hdot].
    cbn [omap list_omap]. unfold lineEntry. simpl app.
    rewrite entryPattern_blank_label by auto.
    rewrite lookup_insert_eq, (lookup_insert_ne _ 2%nat 1%nat), lookup_insert_eq
      by done.
    rewrite parseInt_signed by auto. simpl default.
    rewrite (trim_all_blank [w0]) by (constructor; [assumption|constructor]).
    reflexivity.
  - apply parseMessage_needs_space_aux.
    rewrite <- (app_nil_r (sc :: ds)).
    rewrite trim_strip; [|assumption|constructor|apply trimmed_signed; assumption].
    constructor; [apply sign_not_space; assumption|].
    eapply Forall_impl; [apply Hds|]. intros c Hc. apply digit_not_space, Hc.
Qed.

Lemma blank_label_entry_witness :
  Main.parseFinancialEntries (lit "2025-01-01") (lit " -5")
  = Return [ {| FinancialEntry.description := [];
                FinancialEntry.amount := Num (-5);
                FinancialEntry.date := lit "2025-01-01" |} ]
  ∧ Utils.parseMessage (lit " -5") = Return None.
Proof.
  apply (blank_label_entry (lit "2025-01-01") (lit " ") (lit "5") 45).
  - discriminate.
  - repeat constructor.
  - right. reflexivity.
  - discriminate.
  - repeat constructor.
Defined.

(** ** What the report prints is read back *)

Lemma uint_chars_digits (d : Decimal.uint) : all isDigit (uint_chars d).
Proof. induction d; simpl; constructor; auto. Qed.






(** * Further properties of the in-memory handlers *)

Lemma getReceipt_receipts r st :
  Main.receipts (Main.getReceipt r st).2
  = match Main.receipts st !! r with
    | Some _ => Main.receipts st
    | None => <[r := {| Receipt.name := r; Receipt.entries := [] |}]>
                (Main.receipts st)
    end.
Proof.
  unfold Main.getReceipt. destruct (Main.receipts st !! r); reflexivity.
Qed.

Lemma currentReceiptOf_getReceipt r st u :
  currentReceiptOf u (Main.getReceipt r st).2 = currentReceiptOf u st.
Proof.
  unfold currentReceiptOf.
  destruct (getReceipt_spec r st) as (_ & _ & _ & ->). reflexivity.
Qed.

(** What [/new] does to the two maps, for a sender and a name. *)
Lemma onNew_effect ctx st uid :
  Main.userId ctx = Some uid → Main.commandArgs ctx ≠ [] →
  Main.receipts (Main.onNew ctx st).1
  = Main.receipts (Main.getReceipt (join (lit "_") (Main.commandArgs ctx)) st).2
  ∧ ∀ u, currentReceiptOf u (Main.onNew ctx st).1
         = if decide (uid = u) then Some (join (lit "_") (Main.commandArgs ctx))
           else currentReceiptOf u st.
Proof.
  intros Hu Hargs. unfold Main.onNew.
  destruct (Main.commandArgs ctx) as [|a args] eqn:Ha; [congruence|].
  cbn [length Nat.eqb]. rewrite Hu.
  set (name := join (lit "_") (a :: args)).
  pose proof (currentReceiptOf_getReceipt name st) as Hg.
  destruct (Main.getReceipt name st) as [rc st1]. cbn [snd] in *.
  destruct (getUserSession_spec uid st1) as (_ & Hr & Ho & _).
  destruct (Main.getUserSession uid st1) as [session st2]. cbn [fst snd] in *.
  split; [exact Hr|].
  intros u. rewrite currentReceiptOf_set.
  destruct (decide (uid = u)); [reflexivity|]. rewrite Ho. apply Hg.
Qed.

(** X7. [/new] with a name, from a known sender, leaves a receipt of that
    name in the store and makes it the selection of the sender; a receipt
    that existed keeps its entries, and no other receipt and no other
    selection changes. *)
Theorem new_creates_and_selects (ctx : Main.Context) (st : Main.State) (uid : Z) :
  Main.userId ctx = Some uid → Main.commandArgs ctx ≠ [] →
  is_Some (Main.receipts (Main.onNew ctx st).1
             !! join (lit "_") (Main.commandArgs ctx))
  ∧ currentReceiptOf uid (Main.onNew ctx st).1
    = Some (join (lit "_") (Main.commandArgs ctx))
  ∧ (∀ r, entriesOf r (Main.onNew ctx st).1 = entriesOf r st)
  ∧ (∀ r, r ≠ join (lit "_") (Main.commandArgs ctx) →
       Main.receipts (Main.onNew ctx st).1 !! r = Main.receipts st !! r)
  ∧ (∀ other, other ≠ uid →
       currentReceiptOf other (Main.onNew ctx st).1 = currentReceiptOf other st).
Proof.
  intros Hu Hargs.
  destruct (onNew_effect ctx st uid Hu Hargs) as [Hr Hc].
  set (name := join (lit "_") (Main.commandArgs ctx)) in *.
  destruct (getReceipt_spec name st) as (_ & Hs & He & _).
  split; [rewrite Hr; exact Hs|]. split.
  { rewrite Hc. destruct (decide (uid = uid)); congruence. }
  split.
  { intros r. unfold entriesOf at 1. rewrite Hr. apply He. }
  split.
  - intros r Hne. rewrite Hr, getReceipt_receipts.
    destruct (Main.receipts st !! name); [reflexivity|].
    apply lookup_insert_ne. congruence.
  - intros other Hne. rewrite Hc.
    destruct (decide (uid = other)); congruence.
Qed.

Lemma new_creates_and_selects_witness :
  let ctx := {| Main.from_id := Some 7%Z;
                Main.message_text := Some (lit "/new my receipt") |} in
  is_Some (Main.receipts (Main.onNew ctx Main.initial).1 !! lit "my_receipt")
  ∧ currentReceiptOf 7 (Main.onNew ctx Main.initial).1 = Some (lit "my_receipt").
Proof.
  intros ctx.
  destruct (new_creates_and_selects ctx Main.initial 7 eq_refl)
    as (H1 & H2 & _); [discriminate|].
  split; [exact H1|exact H2].
Defined.

Lemma onDelete_effect ctx st uid :
  Main.userId ctx = Some uid → Main.commandArgs ctx ≠ [] →
  is_Some (Main.receipts st !! join (lit "_") (Main.commandArgs ctx)) →
  Main.receipts (Main.onDelete ctx st).1
  = delete (join (lit "_") (Main.commandArgs ctx)) (Main.receipts st)
  ∧ ∀ u, currentReceiptOf u (Main.onDelete ctx st).1
         = if decide (uid = u)
           then if decide (currentReceiptOf u st
                           = Some (join (lit "_") (Main.commandArgs ctx)))
                then None else currentReceiptOf u st
           else currentReceiptOf u st.
Proof.
  intros Hu Hargs [rc Hrc]. unfold Main.onDelete.
  destruct (Main.commandArgs ctx) as [|a args] eqn:Ha; [congruence|].
  cbn [length Nat.eqb].
  set (name := join (lit "_") (a :: args)) in *. rewrite Hrc, Hu.
  destruct (getUserSession_spec uid (Main.deleteReceipt name st))
    as (Hc & Hr & Ho & _).
  destruct (Main.getUserSession uid (Main.deleteReceipt name st))
    as [session st1]. cbn [fst snd] in Hc, Hr, Ho.
  assert (Hcur : UserSession.currentReceipt session = currentReceiptOf uid st)
    by (rewrite Hc; reflexivity).
  assert (Hcur' : ∀ u, currentReceiptOf u st1 = currentReceiptOf u st)
    by (intros u; rewrite Ho; reflexivity).
  rewrite Hcur.
  destruct (bool_decide (currentReceiptOf uid st = Some name)) eqn:Hb; cbn [fst].
  - apply bool_decide_eq_true in Hb. split.
    + unfold Main.setCurrentReceipt. cbn [Main.receipts]. rewrite Hr. reflexivity.
    + intros u. rewrite currentReceiptOf_set.
      destruct (decide (uid = u)) as [<-|]; [|apply Hcur'].
      destruct (decide (currentReceiptOf uid st = Some name)); congruence.
  - apply bool_decide_eq_false in Hb. split.
    + rewrite Hr. reflexivity.
    + intros u. rewrite Hcur'.
      destruct (decide (uid = u)) as [<-|]; [|reflexivity].
      destruct (decide (currentReceiptOf uid st = Some name)); congruence.
Qed.

(** X8. Creating a receipt under a name that was free and deleting it
    again, both by the same sender and with the same arguments, gives the
    store of receipts back as it was; the sender is left without a
    selection and no other selection changes. *)
Theorem new_then_delete (ctxN ctxD : Main.Context) (st : Main.State) (uid : Z) :
  Main.userId ctxN = Some uid → Main.userId ctxD = Some uid →
  Main.commandArgs ctxN ≠ [] →
  Main.commandArgs ctxD = Main.commandArgs ctxN →
  Main.receipts st !! join (lit "_") (Main.commandArgs ctxN) = None →
  Main.receipts (Main.onDelete ctxD (Main.onNew ctxN st).1).1 = Main.receipts st
  ∧ currentReceiptOf uid (Main.onDelete ctxD (Main.onNew ctxN st).1).1 = None
  ∧ (∀ other, other ≠ uid →
       currentReceiptOf other (Main.onDelete ctxD (Main.onNew ctxN st).1).1
       = currentReceiptOf other st).
Proof.
  intros HuN HuD Hargs Eargs Hfree.
  destruct (onNew_effect ctxN st uid HuN Hargs) as [Hr Hc].
  rewrite getReceipt_receipts, Hfree in Hr.
  assert (Hargs' : Main.commandArgs ctxD ≠ []) by congruence.
  assert (Hin : is_Some (Main.receipts (Main.onNew ctxN st).1
                           !! join (lit "_") (Main.commandArgs ctxD))).
  { rewrite Eargs, Hr, lookup_insert_eq. eauto. }
  destruct (onDelete_effect ctxD _ uid HuD Hargs' Hin) as [Hr' Hc'].
  rewrite Eargs in Hr', Hc'.
  split; [|split].
  - rewrite Hr', Hr. apply delete_insert_id. exact Hfree.
  - rewrite Hc', Hc. destruct (decide (uid = uid)); [|congruence].
    destruct (decide _); congruence.
  - intros other Hne. rewrite Hc', Hc.
    destruct (decide (uid = other)); congruence.
Qed.

Lemma new_then_delete_witness :
  let ctx text := {| Main.from_id := Some 7%Z; Main.message_text := Some (lit text) |} in
  Main.receipts
    (Main.onDelete (ctx "/delete rent"%string)
       (Main.onNew (ctx "/new rent"%string) Main.initial).1).1
  = Main.receipts Main.initial
  ∧ currentReceiptOf 7
      (Main.onDelete (ctx "/delete rent"%string)
         (Main.onNew (ctx "/new rent"%string) Main.initial).1).1
    = None.
Proof.
  intros ctx.
  destruct (new_then_delete (ctx "/new rent"%string) (ctx "/delete rent"%string)
              Main.initial 7 eq_refl eq_refl) as (H1 & H2 & _);
    [discriminate|reflexivity|reflexivity|].
  split; [exact H1|exact H2].
Defined.

(** ** The names of receipts *)

Lemma split_pieces (sep : N) (s : jsstring) :
  Forall (fun p => sep ∉ p) (split sep s).
Proof.
  induction s as [|a s IH]; simpl.
  - constructor; [apply not_elem_of_nil|constructor].
  - destruct (N.eqb_spec a sep) as [->|Hne].
    + constructor; [apply not_elem_of_nil|exact IH].
    + destruct (split sep s) as [|h t]; inversion IH; subst.
      * constructor; [|constructor]. rewrite list_elem_of_singleton. congruence.
      * constructor; [|assumption]. rewrite not_elem_of_cons. split; congruence.
Qed.

Lemma join_without (c : N) (sep : jsstring) (parts : list jsstring) :
  c ∉ sep → Forall (fun p => c ∉ p) parts → c ∉ join sep parts.
Proof.
  intros Hsep. induction 1 as [|p parts Hp Hparts IH]; simpl.
  - apply not_elem_of_nil.
  - destruct parts as [|q parts]; [exact Hp|].
    rewrite !not_elem_of_app. auto.
Qed.

Lemma commandArgs_text (from : option Z) (cmd rest : jsstring) :
  32 ∉ cmd →
  Main.commandArgs {| Main.from_id := from;
                      Main.message_text := Some (cmd ++ 32 :: rest) |}
  = split 32 rest.
Proof.
  intros Hcmd. unfold Main.commandArgs. cbn [Main.message_text].
  rewrite split_app by exact Hcmd. reflexivity.
Qed.

Lemma receipt_name_no_space (ctx : Main.Context) :
  32 ∉ join (lit "_") (Main.commandArgs ctx).
Proof.
  change (lit "_") with [95]. apply join_without.
  - rewrite list_elem_of_singleton. discriminate.
  - unfold Main.commandArgs. destruct (Main.message_text ctx) as [text|].
    + pose proof (split_pieces 32 text) as Hs.
      destruct (split 32 text); [constructor|]. inversion Hs; assumption.
    + constructor.
Qed.

(** X9. The name a command gives a receipt (its arguments joined by [_])
    holds no space, so that the name typed after any command is read back
    as that one name: every receipt made by [/new] can be addressed by
    [/switch] and [/delete]. *)
Theorem receipt_name_addressable (ctx : Main.Context) (from : option Z)
    (cmd : jsstring) :
  32 ∉ cmd →
  (32 ∉ join (lit "_") (Main.commandArgs ctx))
  ∧ join (lit "_")
      (Main.commandArgs
         {| Main.from_id := from;
            Main.message_text :=
              Some (cmd ++ 32 :: join (lit "_") (Main.commandArgs ctx)) |})
    = join (lit "_") (Main.commandArgs ctx).
Proof.
  intros Hcmd. split; [apply receipt_name_no_space|].
  rewrite commandArgs_text by exact Hcmd.
  rewrite split_without by apply receipt_name_no_space. reflexivity.
Qed.

Lemma receipt_name_addressable_witness :
  join (lit "_")
    (Main.commandArgs
       {| Main.from_id := Some 7%Z;
          Main.message_text :=
            Some (lit "/switch" ++ 32
                    :: join (lit "_")
                         (Main.commandArgs
                            {| Main.from_id := Some 7%Z;
                               Main.message_text := Some (lit "/new my receipt") |})) |})
  = lit "my_receipt".
Proof.
  refine (proj2 (receipt_name_addressable
                   {| Main.from_id := Some 7%Z;
                      Main.message_text := Some (lit "/new my receipt") |}
                   (Some 7%Z) (lit "/switch") _)).
  apply (bool_decide_unpack (32 ∉ lit "/switch")). vm_compute. exact I.
Defined.

(** ** Clearing, switching and text messages *)

Lemma setEntries_lookup r r' es st :
  Main.receipts (Main.setEntries r es st) !! r'
  = if decide (r = r')
    then (fun receipt => {| Receipt.name := Receipt.name receipt;
                            Receipt.entries := es |}) <$> Main.receipts st !! r
    else Main.receipts st !! r'.
Proof.
  unfold Main.setEntries.
  destruct (Main.receipts st !! r) as [receipt|] eqn:Hr; cbn [Main.receipts].
  - destruct (decide (r = r')) as [<-|Hne].
    + rewrite lookup_insert_eq. reflexivity.
    + rewrite lookup_insert_ne by exact Hne. reflexivity.
  - destruct (decide (r = r')) as [<-|Hne]; [rewrite Hr|]; reflexivity.
Qed.

Lemma userSessions_setEntries r es st :
  Main.userSessions (Main.setEntries r es st) = Main.userSessions st.
Proof. unfold Main.setEntries. destruct (Main.receipts st !! r); reflexivity. Qed.

Lemma userSessions_addEntries r es st :
  Main.userSessions (Main.addEntriesToReceipt r es st) = Main.userSessions st.
Proof.
  unfold Main.addEntriesToReceipt.
  destruct (getReceipt_spec r st) as (_ & _ & _ & Hu).
  destruct (Main.getReceipt r st) as [receipt st1]. cbn [snd] in Hu.
  rewrite userSessions_setEntries. exact Hu.
Qed.

(** The session of a sender who has a selection: the handlers find it
    and leave the state as it is. *)
Lemma getUserSession_selected uid st r :
  currentReceiptOf uid st = Some r → r ≠ [] →
  ∃ session, Main.getUserSession uid st = (session, st)
             ∧ Main.selected session = Some r.
Proof.
  intros Hsel Hr.
  destruct (getUserSession_spec uid st) as (Hc & _ & _ & Hsame).
  specialize (Hsame (currentReceiptOf_is_Some _ _ _ Hsel)).
  destruct (Main.getUserSession uid st) as [session st1]. cbn [fst snd] in *.
  subst st1. exists session. split; [reflexivity|].
  apply selected_Some; congruence.
Qed.

Lemma selected_inv (session : UserSession.t) r :
  Main.selected session = Some r →
  UserSession.currentReceipt session = Some r ∧ r ≠ [].
Proof.
  unfold Main.selected.
  destruct (UserSession.currentReceipt session) as [[|a s]|]; intros E;
    inversion E; subst; split; congruence.
Qed.

Lemma onClear_selected ctx st uid r :
  Main.userId ctx = Some uid → currentReceiptOf uid st = Some r → r ≠ [] →
  Main.onClear ctx st
  = match Main.receipts st !! r with
    | Some _ =>
        (Main.setEntries r [] st,
         [Main.plain (Main.wastebasket ++ lit " Cleared all entries from receipt: "
                        ++ [quote] ++ r ++ [quote])])
    | None => (st, [])
    end.
Proof.
  intros Hu Hsel Hr. unfold Main.onClear. rewrite Hu.
  destruct (getUserSession_selected uid st r Hsel Hr) as (session & -> & ->).
  reflexivity.
Qed.

(** X10. [/clear] empties the receipt the sender has selected and nothing
    else: its total is 0 afterwards, every other receipt keeps its entries,
    no receipt appears or disappears and no selection changes. When the
    selected receipt has been deleted, the command does nothing and sends no
    reply. *)
Theorem clear_empties_selected_only (ctx : Main.Context) (st : Main.State)
    (uid : Z) (r : jsstring) :
  Main.userId ctx = Some uid → currentReceiptOf uid st = Some r → r ≠ [] →
  (∀ r', entriesOf r' (Main.onClear ctx st).1
         = if decide (r = r') then [] else entriesOf r' st)
  ∧ Main.calculateReceiptTotal r (Main.onClear ctx st).1 = Num 0
  ∧ (∀ r', is_Some (Main.receipts (Main.onClear ctx st).1 !! r')
           ↔ is_Some (Main.receipts st !! r'))
  ∧ (∀ u, currentReceiptOf u (Main.onClear ctx st).1 = currentReceiptOf u st)
  ∧ (Main.receipts st !! r = None → Main.onClear ctx st = (st, [])).
Proof.
  intros Hu Hsel Hr. rewrite (onClear_selected ctx st uid r Hu Hsel Hr).
  assert (He : ∀ r', entriesOf r'
                 (match Main.receipts st !! r with
                  | Some _ =>
                      (Main.setEntries r [] st,
                       [Main.plain (Main.wastebasket
                                      ++ lit " Cleared all entries from receipt: "
                                      ++ [quote] ++ r ++ [quote])])
                  | None => (st, [])
                  end).1
               = if decide (r = r') then [] else entriesOf r' st).
  { intros r'. destruct (Main.receipts st !! r) as [rc|] eqn:Hrc; cbn [fst].
    - rewrite entriesOf_setEntries, Hrc. reflexivity.
    - destruct (decide (r = r')) as [<-|]; [|reflexivity].
      unfold entriesOf. rewrite Hrc. reflexivity. }
  split; [exact He|]. split.
  { rewrite calculateReceiptTotal_total, He.
    destruct (decide (r = r)); [reflexivity|congruence]. }
  split; [|split].
  - intros r'. destruct (Main.receipts st !! r) as [rc|] eqn:Hrc; cbn [fst];
      [|reflexivity].
    rewrite setEntries_lookup.
    destruct (decide (r = r')) as [<-|]; [|reflexivity].
    rewrite Hrc. split; intros _; eauto.
  - intros u. destruct (Main.receipts st !! r); cbn [fst]; [|reflexivity].
    unfold currentReceiptOf. rewrite userSessions_setEntries. reflexivity.
  - intros ->. reflexivity.
Qed.

Lemma clear_empties_selected_only_witness :
  let ctx text := {| Main.from_id := Some 7%Z; Main.message_text := Some (lit text) |} in
  let st0 := (Main.onNew (ctx "/new groceries"%string) Main.initial).1 in
  let st1 := (Main.onText (lit "2025-01-01") (ctx "milk -25"%string) st0).1 in
  Main.calculateReceiptTotal (lit "groceries") st1 = Num (-25)
  ∧ Main.calculateReceiptTotal (lit "groceries")
      (Main.onClear (ctx "/clear"%string) st1).1 = Num 0.
Proof.
  intros ctx st0 st1. split; [vm_compute; reflexivity|].
  refine (proj1 (proj2 (clear_empties_selected_only (ctx "/clear"%string) st1 7
                          (lit "groceries") eq_refl _ _))).
  - vm_compute. reflexivity.
  - discriminate.
Defined.





(** X12. A text message never changes a selection, and it changes the
    store of receipts only when its sender has a selection, the text does
    not begin with [/] and at least one entry is read from it. *)
Theorem text_changes_entries_only (date : jsstring) (ctx : Main.Context)
    (st : Main.State) :
  (∀ u, currentReceiptOf u (Main.onText date ctx st).1 = currentReceiptOf u st)
  ∧ (Main.receipts (Main.onText date ctx st).1 = Main.receipts st
     ∨ ∃ uid r e entries,
         Main.userId ctx = Some uid
         ∧ currentReceiptOf uid st = Some r ∧ r ≠ []
         ∧ startsWith (default [] (Main.message_text ctx)) 47 = false
         ∧ Main.parseFinancialEntries date (default [] (Main.message_text ctx))
           = Return (e :: entries)).
Proof.
  unfold Main.onText.
  destruct (Main.userId ctx) as [uid|] eqn:Hu; [|split; [reflexivity|left; reflexivity]].
  change (match Main.message_text ctx with Some text => text | None => [] end)
    with (default [] (Main.message_text ctx)).
  set (text := default [] (Main.message_text ctx)).
  destruct (startsWith text 47) eqn:Hs; [split; [reflexivity|left; reflexivity]|].
  destruct (getUserSession_spec uid st) as (Hc & Hr & Ho & _).
  destruct (Main.getUserSession uid st) as [session st1]. cbn [fst snd] in *.
  destruct (Main.selected session) as [r|] eqn:Hsel;
    [|split; [exact Ho|left; exact Hr]].
  apply selected_inv in Hsel as [Hsel Hne]. rewrite Hc in Hsel.
  destruct (Main.parseFinancialEntries date text) as [entries|e] eqn:Hp;
    [|split; [exact Ho|left; exact Hr]].
  destruct entries as [|e entries]; cbn [length Nat.eqb fst];
    [split; [exact Ho|left; exact Hr]|].
  split.
  - intros u. unfold currentReceiptOf at 1.
    rewrite userSessions_addEntries. apply Ho.
  - right. exists uid, r, e, entries. auto.
Qed.

(** X13. [/switch] with the name of a receipt in the store makes it the
    selection of the sender; with a name that is not in the store it
    changes nothing, creates no receipt and answers that the receipt was
    not found. In both cases the store of receipts and the selections of
    the others stay as they were, whatever the listing. *)
Theorem switch_selects_existing (listReceipts : Main.State → list jsstring)
    (ctx : Main.Context) (st : Main.State) (uid : Z) :
  Main.userId ctx = Some uid → Main.commandArgs ctx ≠ [] →
  Main.receipts (Main.onSwitch listReceipts ctx st).1 = Main.receipts st
  ∧ (∀ other, other ≠ uid →
       currentReceiptOf other (Main.onSwitch listReceipts ctx st).1
       = currentReceiptOf other st)
  ∧ (is_Some (Main.receipts st !! join (lit "_") (Main.commandArgs ctx)) →
     currentReceiptOf uid (Main.onSwitch listReceipts ctx st).1
     = Some (join (lit "_") (Main.commandArgs ctx)))
  ∧ (Main.receipts st !! join (lit "_") (Main.commandArgs ctx) = None →
     Main.onSwitch listReceipts ctx st
     = (st, [Main.plain
               (Main.crossMark ++ lit " Receipt " ++ [quote]
                  ++ join (lit "_") (Main.commandArgs ctx) ++ [quote]
                  ++ lit " not found. Use /list to see available receipts.")])).
Proof.
  intros Hu Hargs. unfold Main.onSwitch.
  destruct (Main.commandArgs ctx) as [|a args] eqn:Ha; [congruence|].
  cbn [length Nat.eqb]. rewrite Hu.
  set (name := join (lit "_") (a :: args)).
  destruct (Main.receipts st !! name) as [rc|] eqn:Hrc.
  - destruct (getUserSession_spec uid st) as (_ & Hr & Ho & _).
    destruct (Main.getUserSession uid st) as [session st1]. cbn [fst snd] in *.
    split; [exact Hr|]. split; [|split].
    + intros other Hne. rewrite currentReceiptOf_set.
      destruct (decide (uid = other)); [congruence|apply Ho].
    + intros _. rewrite currentReceiptOf_set.
      destruct (decide (uid = uid)); congruence.
    + discriminate.
  - cbn [fst]. split; [reflexivity|]. split; [reflexivity|]. split.
    + intros [? ?]. discriminate.
    + reflexivity.
Qed.

Lemma switch_selects_existing_witness :
  let ctx text := {| Main.from_id := Some 7%Z; Main.message_text := Some (lit text) |} in
  let st0 := (Main.onNew (ctx "/new rent"%string) Main.initial).1 in
  let st1 := (Main.onNew (ctx "/new food"%string) st0).1 in
  currentReceiptOf 7 st1 = Some (lit "food")
  ∧ currentReceiptOf 7 (Main.onSwitch (fun _ => []) (ctx "/switch rent"%string) st1).1
    = Some (lit "rent")
  ∧ Main.receipts (Main.onSwitch (fun _ => []) (ctx "/switch rent"%string) st1).1
    = Main.receipts st1.
Proof.
  intros ctx st0 st1. split; [vm_compute; reflexivity|].
  destruct (switch_selects_existing (fun _ => []) (ctx "/switch rent"%string) st1 7
              eq_refl) as (H1 & _ & H3 & _); [discriminate|].
  split; [apply H3; vm_compute; eauto|exact H1].
Defined.

(** ** What every sequence of updates keeps *)

Lemma wellKept_receipts st st' :
  Main.receipts st' = Main.receipts st → wellKept st → wellKept st'.
Proof. unfold wellKept. intros ->. auto. Qed.

Lemma wellKept_getReceipt r st : wellKept st → wellKept (Main.getReceipt r st).2.
Proof.
  intros Hk r' rc. rewrite getReceipt_receipts.
  destruct (Main.receipts st !! r) eqn:Hr; [apply Hk|].
  destruct (decide (r = r')) as [<-|Hne].
  - rewrite lookup_insert_eq. intros [= <-]. split; [reflexivity|constructor].
  - rewrite lookup_insert_ne by exact Hne. apply Hk.
Qed.

Lemma wellKept_setEntries r es st :
  Forall (fun e => number_isNaN (FinancialEntry.amount e) = false) es →
  wellKept st → wellKept (Main.setEntries r es st).
Proof.
  intros Hes Hk r' rc. rewrite setEntries_lookup.
  destruct (decide (r = r')) as [<-|Hne]; [|apply Hk].
  destruct (Main.receipts st !! r) as [rc0|] eqn:Hr; [|discriminate].
  intros [= <-]. cbn [Receipt.name Receipt.entries].
  split; [apply (Hk r rc0 Hr)|exact Hes].
Qed.

Lemma wellKept_deleteReceipt r st : wellKept st → wellKept (Main.deleteReceipt r st).
Proof.
  intros Hk r' rc. unfold Main.deleteReceipt. cbn [Main.receipts].
  destruct (decide (r = r')) as [<-|Hne].
  - rewrite lookup_delete_eq. discriminate.
  - rewrite lookup_delete_ne by exact Hne. apply Hk.
Qed.

Lemma wellKept_addEntries r es st :
  Forall (fun e => number_isNaN (FinancialEntry.amount e) = false) es →
  wellKept st → wellKept (Main.addEntriesToReceipt r es st).
Proof.
  intros Hes Hk. unfold Main.addEntriesToReceipt.
  pose proof (wellKept_getReceipt r st Hk) as Hk1.
  destruct (getReceipt_spec r st) as (He & [rc Hs] & _ & _).
  assert (Hrc : Receipt.entries (Main.getReceipt r st).1
                = Receipt.entries rc).
  { unfold Main.getReceipt in *.
    destruct (Main.receipts st !! r) as [rc0|] eqn:Hr; cbn [fst snd] in *.
    - congruence.
    - cbn [Main.receipts] in Hs. rewrite lookup_insert_eq in Hs.
      injection Hs as <-. reflexivity. }
  destruct (Main.getReceipt r st) as [receipt st1]. cbn [fst snd] in *.
  apply wellKept_setEntries; [|exact Hk1].
  apply Forall_app_2; [|exact Hes]. rewrite Hrc. apply (Hk1 r rc Hs).
Qed.

Lemma parsed_amounts (date text : jsstring) (entries : list FinancialEntry.t) :
  Main.parseFinancialEntries date text = Return entries →
  Forall (fun e => number_isNaN (FinancialEntry.amount e) = false) entries.
Proof.
  rewrite parseFinancialEntries_lines. intros [= <-].
  induction (split LF text) as [|line lines IH]; csimpl; [constructor|].
  destruct (lineEntry date line) as [e|] eqn:He; csimpl; [|exact IH].
  constructor; [|exact IH]. apply (lineEntry_shape _ _ _ He).
Qed.

Lemma receipts_setCurrentReceipt uid v st :
  Main.receipts (Main.setCurrentReceipt uid v st) = Main.receipts st.
Proof. reflexivity. Qed.

Lemma handle_wellKept listReceipts (u : Update) ctx st :
  wellKept st → wellKept (handle listReceipts u ctx st).1.
Proof.
  intros Hk. destruct u; cbn [handle].
  - (* /new *)
    unfold Main.onNew.
    destruct (length (Main.commandArgs ctx) =? 0)%nat; [exact Hk|].
    destruct (Main.userId ctx) as [uid|]; [|exact Hk].
    pose proof (wellKept_getReceipt (join (lit "_") (Main.commandArgs ctx)) st Hk)
      as Hk1.
    destruct (Main.getReceipt _ st) as [rc st1]. cbn [snd] in Hk1.
    destruct (getUserSession_spec uid st1) as (_ & Hr & _ & _).
    destruct (Main.getUserSession uid st1) as [session st2]. cbn [fst snd] in *.
    eapply wellKept_receipts; [|exact Hk1]. exact Hr.
  - (* /switch *)
    unfold Main.onSwitch.
    destruct (length (Main.commandArgs ctx) =? 0)%nat.
    { destruct (length (listReceipts st) =? 0)%nat; exact Hk. }
    destruct (Main.userId ctx) as [uid|]; [|exact Hk].
    destruct (Main.receipts st !! _); [|exact Hk].
    destruct (getUserSession_spec uid st) as (_ & Hr & _ & _).
    destruct (Main.getUserSession uid st) as [session st1]. cbn [fst snd] in *.
    eapply wellKept_receipts; [|exact Hk]. exact Hr.
  - (* /list *)
    unfold Main.onList.
    destruct (length (listReceipts st) =? 0)%nat; [exact Hk|].
    destruct (Main.userId ctx) as [uid|]; [|exact Hk].
    destruct (getUserSession_spec uid st) as (_ & Hr & _ & _).
    destruct (Main.getUserSession uid st) as [session st1]. cbn [fst snd] in *.
    eapply wellKept_receipts; [|exact Hk]. exact Hr.
  - (* /delete *)
    unfold Main.onDelete.
    destruct (length (Main.commandArgs ctx) =? 0)%nat; [exact Hk|].
    destruct (Main.receipts st !! _); [|exact Hk].
    pose proof (wellKept_deleteReceipt (join (lit "_") (Main.commandArgs ctx)) st Hk)
      as Hk1.
    destruct (Main.userId ctx) as [uid|]; [|exact Hk1].
    destruct (getUserSession_spec uid
                (Main.deleteReceipt (join (lit "_") (Main.commandArgs ctx)) st))
      as (_ & Hr & _ & _).
    destruct (Main.getUserSession uid _) as [session st1]. cbn [fst snd] in *.
    destruct (bool_decide _); cbn [fst];
      (eapply wellKept_receipts; [|exact Hk1]); exact Hr.
  - (* /current *)
    unfold Main.onCurrent.
    destruct (Main.userId ctx) as [uid|]; [|exact Hk].
    destruct (getUserSession_spec uid st) as (_ & Hr & _ & _).
    destruct (Main.getUserSession uid st) as [session st1]. cbn [fst snd] in *.
    assert (Hk1 : wellKept st1) by (eapply wellKept_receipts; eauto).
    destruct (Main.selected session); [|exact Hk1].
    destruct (match Main.receipts st1 !! _ with Some _ => _ | None => _ end);
      exact Hk1.
  - (* /clear *)
    unfold Main.onClear.
    destruct (Main.userId ctx) as [uid|]; [|exact Hk].
    destruct (getUserSession_spec uid st) as (_ & Hr & _ & _).
    destruct (Main.getUserSession uid st) as [session st1]. cbn [fst snd] in *.
    assert (Hk1 : wellKept st1) by (eapply wellKept_receipts; eauto).
    destruct (Main.selected session); [|exact Hk1].
    destruct (Main.receipts st1 !! _); [|exact Hk1].
    apply wellKept_setEntries; [constructor|exact Hk1].
  - (* text *)
    unfold Main.onText.
    destruct (Main.userId ctx) as [uid|]; [|exact Hk].
    destruct (startsWith _ 47); [exact Hk|].
    destruct (getUserSession_spec uid st) as (_ & Hr & _ & _).
    destruct (Main.getUserSession uid st) as [session st1]. cbn [fst snd] in *.
    assert (Hk1 : wellKept st1) by (eapply wellKept_receipts; eauto).
    destruct (Main.selected session); [|exact Hk1].
    destruct (Main.parseFinancialEntries currentDate _) as [entries|] eqn:Hp;
      [|exact Hk1].
    destruct (length entries =? 0)%nat; [exact Hk1|].
    apply wellKept_addEntries; [|exact Hk1].
    exact (parsed_amounts _ _ _ Hp).
Qed.

Lemma fold_NaN (amounts : list number) : ∀ acc,
  number_isNaN (fold_left number_add amounts acc) = true →
  number_isNaN acc = true
  ∨ ∃ a negative, a ∈ amounts ∧ (a = NaN ∨ a = Infinity negative).
Proof.
  induction amounts as [|a amounts IH]; intros acc Hn; [left; exact Hn|].
  cbn [fold_left] in Hn. apply IH in Hn as [Hn|(b & s & Hb & Hi)].
  - destruct acc as [|s|x]; [left; reflexivity|..]; right.
    + destruct a as [|s'|y]; [exists NaN, s|exists (Infinity s'), s'|discriminate];
        (split; [left|]; auto).
    + destruct a as [|s'|y]; [exists NaN, false|discriminate|].
      * split; [left|]; auto.
      * cbn [number_add] in Hn. rewrite binary64_not_NaN in Hn. discriminate.
  - right. exists b, s. split; [right; exact Hb|exact Hi].
Qed.

(** X14. Whatever updates the in-memory bot has answered since it
    started, every receipt is stored under its own name and holds no
    amount that is [NaN]; and the total of a receipt name is [NaN] only
    when one of its entries has an infinite amount. *)
Theorem amounts_are_never_NaN (listReceipts : Main.State → list jsstring)
    (updates : list (Update * Main.Context)) :
  wellKept (runUpdates listReceipts updates Main.initial)
  ∧ ∀ r,
      number_isNaN
        (Main.calculateReceiptTotal r (runUpdates listReceipts updates Main.initial))
      = true →
      ∃ e negative,
        e ∈ entriesOf r (runUpdates listReceipts updates Main.initial)
        ∧ FinancialEntry.amount e = Infinity negative.
Proof.
  assert (Hk : wellKept (runUpdates listReceipts updates Main.initial)).
  { unfold runUpdates.
    assert (H0 : wellKept Main.initial).
    { intros r rc. cbn [Main.initial Main.receipts].
      rewrite lookup_empty. discriminate. }
    revert H0. generalize Main.initial.
    induction updates as [|[u ctx] updates IH]; intros st Hst; simpl; [exact Hst|].
    apply IH. apply handle_wellKept, Hst. }
  split; [exact Hk|].
  intros r. rewrite calculateReceiptTotal_total. unfold total. intros Hn.
  apply fold_NaN in Hn as [Hn|(a & s & Ha & Hi)]; [discriminate|].
  apply list_elem_of_fmap in Ha as (e & -> & He). exists e.
  assert (Hnot : number_isNaN (FinancialEntry.amount e) = false).
  { unfold entriesOf in He.
    destruct (Main.receipts _ !! r) as [rc|] eqn:Hr.
    - destruct (Hk r rc Hr) as [_ Hall]. rewrite Forall_forall in Hall. auto.
    - apply elem_of_nil in He. destruct He. }
  destruct Hi as [Hi|Hi]; [rewrite Hi in Hnot; discriminate|].
  exists s. split; assumption.
Qed.

(** ** The lines of the report *)

Lemma digits_without_LF (ds : jsstring) : all isDigit ds → LF ∉ ds.
Proof.
  intros Hds Hin. rewrite Forall_forall in Hds. apply Hds in Hin. discriminate.
Qed.

Lemma digitsOf_without_LF (n : Z) : LF ∉ digitsOf n.
Proof. apply digits_without_LF, uint_chars_digits. Qed.

Lemma lit_without_LF (s : string) : bool_decide (LF ∉ lit s) = true → LF ∉ lit s.
Proof. intros Hs. apply bool_decide_eq_true in Hs. exact Hs. Qed.

Lemma integerToString_without_LF (x : Z) : LF ∉ integerToString x.
Proof.
  unfold integerToString.
  destruct (x <? 2 ^ 53)%Z; [apply digitsOf_without_LF|].
  destruct (shortest _ _ x) as [s e].
  destruct (_ <=? 21)%Z.
  - rewrite not_elem_of_app. split; [apply digitsOf_without_LF|].
    intros Hin. apply list_elem_of_In, repeat_spec in Hin. discriminate.
  - pose proof (digitsOf_without_LF s) as Hs.
    assert (He : LF ∉ lit "e+" ++ digitsOf (Z.of_nat (length (digitsOf s)) + e - 1)).
    { rewrite not_elem_of_app. split; [|apply digitsOf_without_LF].
      apply lit_without_LF. reflexivity. }
    destruct (digitsOf s) as [|d1 [|d2 rest]].
    + apply not_elem_of_nil.
    + rewrite not_elem_of_app. split; [exact Hs|exact He].
    + apply not_elem_of_cons in Hs as [H1 Hrest].
      apply not_elem_of_app in He as [He1 He2].
      rewrite !not_elem_of_app. repeat split; try assumption.
      * rewrite list_elem_of_singleton. exact H1.
      * apply lit_without_LF. reflexivity.
Qed.

Lemma number_toString_without_LF (n : number) : LF ∉ number_toString n.
Proof.
  destruct n as [| [|] |z]; cbn [number_toString].
  - apply lit_without_LF. reflexivity.
  - apply (lit_without_LF "-Infinity"). reflexivity.
  - apply lit_without_LF. reflexivity.
  - rewrite not_elem_of_app. split; [|apply integerToString_without_LF].
    destruct (z <? 0)%Z; [apply lit_without_LF; reflexivity|apply not_elem_of_nil].
Qed.

Lemma plainSigned_without_LF (n : number) : LF ∉ plainSigned n.
Proof.
  unfold plainSigned. rewrite not_elem_of_app.
  split; [|apply number_toString_without_LF].
  destruct (number_ge0 n); [apply lit_without_LF; reflexivity|apply not_elem_of_nil].
Qed.

Lemma split_rows (rows : list jsstring) (rest : jsstring) :
  Forall (fun l => LF ∉ l) rows →
  split LF (concat (map (fun l => l ++ [LF]) rows) ++ rest) = rows ++ split LF rest.
Proof.
  induction 1 as [|row rows Hrow _ IH]; [reflexivity|].
  cbn [map concat]. rewrite <- !app_assoc. cbn [app].
  rewrite split_app by exact Hrow. rewrite IH. reflexivity.
Qed.

Lemma receiptLine_row (e : FinancialEntry.t) : receiptLine e = receiptRow e ++ [LF].
Proof.
  unfold receiptLine, receiptRow. rewrite <- !app_assoc. reflexivity.
Qed.

Lemma receiptRow_without_LF (e : FinancialEntry.t) :
  LF ∉ FinancialEntry.description e → LF ∉ FinancialEntry.date e →
  LF ∉ receiptRow e.
Proof.
  intros Hd Ht. unfold receiptRow.
  pose proof (plainSigned_without_LF (FinancialEntry.amount e)) as Hp.
  change (lit "- ") with [45; 32]. change (lit " ") with [32].
  change (lit " [") with [32; 91]. change (lit "]") with [93].
  rewrite !not_elem_of_app, !not_elem_of_cons.
  repeat split; try assumption; try discriminate; apply not_elem_of_nil.
Qed.

(** X15. The report of a receipt has one line per entry, in the order of
    the entries, between three lines of heading and three lines for the
    total and the closing fence, provided the name, the descriptions and
    the dates hold no line feed. *)
Theorem report_has_a_line_per_entry (r : jsstring) (st : Main.State)
    (receipt : Receipt.t) :
  Main.receipts st !! r = Some receipt → LF ∉ r →
  Forall (fun e => (LF ∉ FinancialEntry.description e)
                    ∧ (LF ∉ FinancialEntry.date e))
         (Receipt.entries receipt) →
  split LF (Main.formatResponse r st)
  = [lit "**Receipt: " ++ r ++ lit "**"; []; lit "```"]
    ++ map receiptRow (Receipt.entries receipt)
    ++ [ [];
         lit "Total: "
           ++ plainSigned (total (map FinancialEntry.amount (Receipt.entries receipt)));
         lit "```" ].
Proof.
  intros Hrc Hr Hes. rewrite (formatResponse_report r st receipt Hrc).
  set (tot := plainSigned _).
  assert (Hhead : LF ∉ lit "**Receipt: " ++ r ++ lit "**").
  { rewrite !not_elem_of_app. repeat split; [|exact Hr|].
    - apply (bool_decide_unpack (LF ∉ lit "**Receipt: ")). vm_compute. exact I.
    - apply (bool_decide_unpack (LF ∉ lit "**")). vm_compute. exact I. }
  assert (Hfence : LF ∉ lit "```").
  { apply (bool_decide_unpack (LF ∉ lit "```")). vm_compute. exact I. }
  assert (Htot : LF ∉ lit "Total: " ++ tot).
  { rewrite not_elem_of_app. split; [|apply plainSigned_without_LF].
    apply (bool_decide_unpack (LF ∉ lit "Total: ")). vm_compute. exact I. }
  assert (Hrows : concat (map receiptLine (Receipt.entries receipt))
                  = concat (map (fun l => l ++ [LF])
                              (map receiptRow (Receipt.entries receipt)))).
  { f_equal. rewrite map_map. apply map_ext. intros e. apply receiptLine_row. }
  rewrite Hrows. set (rows := concat _).
  replace (lit "**Receipt: " ++ r ++ lit "**" ++ [LF; LF] ++ lit "```" ++ [LF]
           ++ rows ++ [LF] ++ lit "Total: " ++ tot ++ [LF] ++ lit "```")
    with ((lit "**Receipt: " ++ r ++ lit "**") ++ LF
          :: [] ++ LF
          :: lit "```" ++ LF
          :: rows ++ ([] ++ LF :: (lit "Total: " ++ tot) ++ LF :: lit "```"))
    by (rewrite <- !app_assoc; reflexivity).
  subst rows.
  rewrite split_app by exact Hhead.
  rewrite split_app by apply not_elem_of_nil.
  rewrite split_app by exact Hfence.
  rewrite split_rows.
  2:{ apply Forall_map. eapply Forall_impl; [apply Hes|].
      intros e [Hd Ht]. apply receiptRow_without_LF; assumption. }
  rewrite split_app by apply not_elem_of_nil.
  rewrite split_app by exact Htot.
  rewrite split_without by exact Hfence. reflexivity.
Qed.

Lemma report_has_a_line_per_entry_witness :
  let ctx text := {| Main.from_id := Some 7%Z; Main.message_text := Some (lit text) |} in
  let st0 := (Main.onNew (ctx "/new r"%string) Main.initial).1 in
  let st1 := (Main.onText (lit "2025-01-01") (ctx "rent -3000"%string) st0).1 in
  split LF (Main.formatResponse (lit "r") st1)
  = [ lit "**Receipt: r**"; []; lit "```"; lit "- rent -3000 [2025-01-01]"; [];
      lit "Total: -3000"; lit "```" ].
Proof.
  intros ctx st0 st1.
  refine (report_has_a_line_per_entry (lit "r") st1
            {| Receipt.name := lit "r";
               Receipt.entries :=
                 [ {| FinancialEntry.description := lit "rent";
                      FinancialEntry.amount := Num (-3000);
                      FinancialEntry.date := lit "2025-01-01" |} ] |} _ _ _).
  - vm_compute. reflexivity.
  - apply (bool_decide_unpack (LF ∉ lit "r")). vm_compute. exact I.
  - constructor; [|constructor]. split.
    + apply (bool_decide_unpack (LF ∉ lit "rent")). vm_compute. exact I.
    + apply (bool_decide_unpack (LF ∉ lit "2025-01-01")). vm_compute. exact I.
Defined.

(** * Further properties of the store *)

Lemma find_app_Some {A} (p : A → bool) (l l' : list A) (x : A) :
  List.find p l = Some x → List.find p (l ++ l') = Some x.
Proof.
  induction l as [|a l IH]; simpl; [discriminate|].
  destruct (p a); [auto|exact IH].
Qed.

Lemma find_app_None {A} (p : A → bool) (l l' : list A) :
  List.find p l = None → List.find p (l ++ l') = List.find p l'.
Proof.
  induction l as [|a l IH]; simpl; [reflexivity|].
  destruct (p a); [discriminate|exact IH].
Qed.

Lemma string_eqb_true (a b : jsstring) : string_eqb a b = true ↔ a = b.
Proof. unfold string_eqb. apply bool_decide_eq_true. Qed.

Lemma string_eqb_refl (a : jsstring) : string_eqb a a = true.
Proof. apply string_eqb_true. reflexivity. Qed.

Lemma string_eqb_false (a b : jsstring) : string_eqb a b = false ↔ a ≠ b.
Proof. unfold string_eqb. apply bool_decide_eq_false. Qed.

Lemma trimmed_trim (s : jsstring) : trim s ≠ [] → trimmed (trim s) = true.
Proof. destruct (trim_edges s); congruence. Qed.

Lemma trimmed_nonblank (s : jsstring) : trimmed s = true → trim s ≠ [].
Proof.
  intros Ht. rewrite trim_of_trimmed by exact Ht.
  destruct s; [discriminate|congruence].
Qed.

Section StoreRuns.
Context {num : Type} `{Number num}.
Variable acceptsAccount : Db.Database num → Account.t → bool.
Variable acceptsTransaction : Db.Database num → Transaction.t num → bool.
Variable constraintFailure : jsstring.

(** A successful [createAccount], read backwards. *)
Lemma createAccount_inv id name db account db' :
  Db.createAccount acceptsAccount constraintFailure id name db
  = (Return account, db') →
  trim name ≠ []
  ∧ account = {| Account.id := id; Account.name := trim name |}
  ∧ db' = {| Db.Accounts := Db.Accounts db ++ [account];
             Db.Transactions := Db.Transactions db |}.
Proof.
  unfold Db.createAccount, Db.insertAccountStmt.
  destruct (negb (truthy name) || (length (trim name) =? 0)%nat) eqn:Hv;
    [discriminate|].
  assert (Hne : trim name ≠ []).
  { intros E. apply invalid_text in E. congruence. }
  destruct (acceptsAccount db _); [|discriminate].
  intros [= <- <-]. auto.
Qed.

(** A successful [createTransaction], read backwards. *)
Lemma createTransaction_inv id params db tx db' :
  Db.createTransaction acceptsTransaction constraintFailure id params db
  = (Return tx, db') →
  trim (CreateTransactionParams.label params) ≠ []
  ∧ num_isNaN (CreateTransactionParams.amount params) = false
  ∧ trim (CreateTransactionParams.accountId params) ≠ []
  ∧ is_Some (Db.selectAccountByIdStmt (CreateTransactionParams.accountId params) db)
  ∧ tx = {| Transaction.id := id;
            Transaction.label := trim (CreateTransactionParams.label params);
            Transaction.amount := CreateTransactionParams.amount params;
            Transaction.account := CreateTransactionParams.accountId params |}
  ∧ db' = {| Db.Accounts := Db.Accounts db;
             Db.Transactions := Db.Transactions db ++ [tx] |}.
Proof.
  unfold Db.createTransaction, Db.insertTransactionStmt.
  destruct (negb (truthy (CreateTransactionParams.label params)) || _) eqn:Hl;
    [discriminate|].
  destruct (num_isNaN (CreateTransactionParams.amount params)) eqn:Hn;
    [discriminate|].
  destruct (negb (truthy (CreateTransactionParams.accountId params)) || _) eqn:Ha;
    [discriminate|].
  destruct (Db.selectAccountByIdStmt _ db) as [account|] eqn:Hacc; [|discriminate].
  destruct (acceptsTransaction db _); [|discriminate].
  intros [= <- <-].
  repeat split; eauto.
  - intros E. apply invalid_text in E. congruence.
  - intros E. apply invalid_text in E. congruence.
Qed.

Lemma selectAccount_same_accounts (db db' : Db.Database num) id :
  Db.Accounts db' = Db.Accounts db →
  Db.selectAccountByIdStmt id db' = Db.selectAccountByIdStmt id db.
Proof. unfold Db.selectAccountByIdStmt. intros ->. reflexivity. Qed.

Lemma consistent_createAccount id name db :
  consistent db →
  consistent (Db.createAccount acceptsAccount constraintFailure id name db).2.
Proof.
  intros [Ha Ht].
  destruct (Db.createAccount acceptsAccount constraintFailure id name db)
    as [[account|e] db'] eqn:Hc; cbn [snd].
  - apply createAccount_inv in Hc as (Hne & -> & ->).
    split; cbn [Db.Accounts Db.Transactions].
    + apply Forall_app_2; [exact Ha|].
      constructor; [|constructor]. apply trimmed_trim, Hne.
    + eapply Forall_impl; [apply Ht|]. intros t ([a Hsel] & Hrest).
      split; [|exact Hrest]. exists a.
      unfold Db.selectAccountByIdStmt in *. cbn [Db.Accounts].
      apply find_app_Some, Hsel.
  - apply createAccount_throw_unchanged in Hc as ->. split; assumption.
Qed.

Lemma consistent_createTransaction id params db :
  consistent db →
  consistent (Db.createTransaction acceptsTransaction constraintFailure id params db).2.
Proof.
  intros [Ha Ht].
  destruct (Db.createTransaction acceptsTransaction constraintFailure id params db)
    as [[tx|e] db'] eqn:Hc; cbn [snd].
  - apply createTransaction_inv in Hc as (Hl & Hn & Hid & Hacc & -> & ->).
    split; cbn [Db.Accounts Db.Transactions]; [exact Ha|].
    apply Forall_app_2.
    + eapply Forall_impl; [apply Ht|]. intros t (Hsel & Hrest).
      split; [exact Hsel|exact Hrest].
    + constructor; [|constructor]. cbn [Transaction.account Transaction.label
                                         Transaction.amount].
      repeat split; auto. apply trimmed_trim, Hl.
  - apply createTransaction_throw_unchanged in Hc as ->. split; assumption.
Qed.

Lemma consistent_applyStoreOp db op :
  consistent db →
  consistent (applyStoreOp acceptsAccount acceptsTransaction constraintFailure db op).
Proof.
  destruct op; cbn [applyStoreOp];
    [apply consistent_createAccount|apply consistent_createTransaction].
Qed.

Lemma balance_found accountId db account :
  trim accountId ≠ [] → Db.selectAccountByIdStmt accountId db = Some account →
  Db.getTransactionInAccount accountId db
  = (Return (Db.selectTransactionsByAccountStmt accountId db), db)
  ∧ Db.getAccountBalance accountId db = (Return (balanceOf accountId db), db).
Proof.
  intros Hid Hacc. unfold Db.getAccountBalance, Db.getTransactionInAccount.
  rewrite valid_text by exact Hid. rewrite Hacc. split; reflexivity.
Qed.
End StoreRuns.

(** X16. Whatever the tables accept, the writes of the store keep it
    consistent: after any sequence of [createAccount] and
    [createTransaction], successful or not, every account has a trimmed,
    non-empty name and every transaction has a trimmed, non-empty label, an
    amount that is not [NaN] and an existing account. *)
Theorem store_stays_consistent {num : Type} `{Number num}
    (acceptsAccount : Db.Database num → Account.t → bool)
    (acceptsTransaction : Db.Database num → Transaction.t num → bool)
    (constraintFailure : jsstring)
    (ops : list (StoreOp num)) (db : Db.Database num) :
  consistent db →
  consistent (runStore acceptsAccount acceptsTransaction constraintFailure ops db).
Proof.
  unfold runStore. revert db.
  induction ops as [|op ops IH]; intros db Hdb; simpl; [exact Hdb|].
  apply IH, consistent_applyStoreOp, Hdb.
Qed.

Lemma store_stays_consistent_witness :
  consistent
    (runStore (fun _ _ => true) (fun _ _ => true) []
       [ CreateAccount (lit "a3") (lit "  rent ");
         CreateTransaction (lit "t1")
           {| CreateTransactionParams.label := lit " march ";
              CreateTransactionParams.amount := Num (-3000);
              CreateTransactionParams.accountId := lit "a3" |};
         CreateTransaction (lit "t2")
           {| CreateTransactionParams.label := lit "lost";
              CreateTransactionParams.amount := Num 1;
              CreateTransactionParams.accountId := lit "nowhere" |} ]
       twoAccounts).
Proof.
  apply (store_stays_consistent (fun _ _ => true) (fun _ _ => true) []).
  split.
  - repeat constructor.
  - constructor; [|constructor].
    split; [eexists; reflexivity|]. split; [reflexivity|]. split; [reflexivity|].
    discriminate.
Defined.

(** X17. A successful [createTransaction] moves the balance of its account
    by the amount, by the very addition [getAccountBalance] performs, and
    leaves what [getAccountBalance] returns for every other identifier as
    it was. *)
Theorem transaction_moves_balance {num : Type} `{Number num}
    (acceptsTransaction : Db.Database num → Transaction.t num → bool)
    (constraintFailure : jsstring) (id : jsstring)
    (params : CreateTransactionParams.t num) (db db' : Db.Database num)
    (tx : Transaction.t num) :
  Db.createTransaction acceptsTransaction constraintFailure id params db
  = (Return tx, db') →
  Db.getAccountBalance (CreateTransactionParams.accountId params) db
  = (Return (balanceOf (CreateTransactionParams.accountId params) db), db)
  ∧ Db.getAccountBalance (CreateTransactionParams.accountId params) db'
    = (Return (num_add (balanceOf (CreateTransactionParams.accountId params) db)
                       (CreateTransactionParams.amount params)), db')
  ∧ (∀ other, other ≠ CreateTransactionParams.accountId params →
       (Db.getAccountBalance other db').1 = (Db.getAccountBalance other db).1).
Proof.
  intros Hc.
  apply createTransaction_inv in Hc as (_ & _ & Hid & [account Hacc] & -> & ->).
  set (accountId := CreateTransactionParams.accountId params) in *.
  set (row := {| Transaction.id := id |}).
  set (db' := {| Db.Accounts := Db.Accounts db |}).
  assert (Hacc' : ∀ a, Db.selectAccountByIdStmt a db' = Db.selectAccountByIdStmt a db)
    by (intros a; apply selectAccount_same_accounts; reflexivity).
  split; [exact (proj2 (balance_found accountId db account Hid Hacc))|].
  split.
  - rewrite (proj2 (balance_found accountId db' account Hid
                      (eq_trans (Hacc' accountId) Hacc))).
    f_equal. unfold balanceOf, Db.selectTransactionsByAccountStmt.
    cbn [db' Db.Transactions]. rewrite List.filter_app. cbn [List.filter row Transaction.account].
    rewrite string_eqb_refl. rewrite fold_left_app. reflexivity.
  - intros other Hne. unfold Db.getAccountBalance, Db.getTransactionInAccount.
    destruct (negb (truthy other) || _); [reflexivity|].
    rewrite Hacc'. destruct (Db.selectAccountByIdStmt other db); [|reflexivity].
    cbn [fst]. unfold Db.selectTransactionsByAccountStmt.
    cbn [db' Db.Transactions]. rewrite List.filter_app. cbn [List.filter row Transaction.account].
    rewrite (proj2 (string_eqb_false accountId other)) by congruence.
    rewrite app_nil_r. reflexivity.
Qed.

Lemma transaction_moves_balance_witness :
  Db.getAccountBalance (lit "a1")
    (Db.createTransaction (fun _ _ => true) [] (lit "t1")
       {| CreateTransactionParams.label := lit "rent";
          CreateTransactionParams.amount := Num (-3000);
          CreateTransactionParams.accountId := lit "a1" |} twoAccounts).2
  = (Return (number_add (Num 5000) (Num (-3000))),
     (Db.createTransaction (fun _ _ => true) [] (lit "t1")
        {| CreateTransactionParams.label := lit "rent";
           CreateTransactionParams.amount := Num (-3000);
           CreateTransactionParams.accountId := lit "a1" |} twoAccounts).2).
Proof.
  refine (proj1 (proj2 (transaction_moves_balance (fun _ _ => true) [] (lit "t1")
            {| CreateTransactionParams.label := lit "rent";
               CreateTransactionParams.amount := Num (-3000);
               CreateTransactionParams.accountId := lit "a1" |}
            twoAccounts _ _ _))).
  vm_compute. reflexivity.
Defined.

(** X18. In a consistent store, an account created under a fresh,
    non-blank identifier is found under it afterwards, with no transaction
    and the balance 0; the accounts found before are found as before and
    no transaction is added. *)
Theorem new_account_is_empty {num : Type} `{Number num}
    (acceptsAccount : Db.Database num → Account.t → bool)
    (constraintFailure : jsstring) (id name : jsstring)
    (db db' : Db.Database num) (account : Account.t) :
  Db.createAccount acceptsAccount constraintFailure id name db
  = (Return account, db') →
  consistent db → Db.selectAccountByIdStmt id db = None → trim id ≠ [] →
  account = {| Account.id := id; Account.name := trim name |}
  ∧ Db.selectAccountByIdStmt id db' = Some account
  ∧ Db.getTransactionInAccount id db' = (Return [], db')
  ∧ Db.getAccountBalance id db' = (Return num_zero, db')
  ∧ Db.Transactions db' = Db.Transactions db
  ∧ (∀ other a, Db.selectAccountByIdStmt other db = Some a →
       Db.selectAccountByIdStmt other db' = Some a).
Proof.
  intros Hc [_ Ht] Hfresh Hid.
  apply createAccount_inv in Hc as (Hname & -> & ->).
  set (account := {| Account.id := id |}).
  set (db' := {| Db.Accounts := Db.Accounts db ++ [account] |}).
  assert (Hsel : Db.selectAccountByIdStmt id db' = Some account).
  { unfold Db.selectAccountByIdStmt in *. cbn [db' Db.Accounts].
    rewrite find_app_None by exact Hfresh.
    cbn [List.find account Account.id]. rewrite string_eqb_refl. reflexivity. }
  assert (Hnone : Db.selectTransactionsByAccountStmt id db' = []).
  { unfold Db.selectTransactionsByAccountStmt. cbn [db' Db.Transactions].
    clear Hsel. clearbody account. clear db'.
    induction Ht as [|t ts ([a Ha] & _) _ IH]; [reflexivity|].
    cbn [List.filter].
    destruct (string_eqb (Transaction.account t) id) eqn:E; [|exact IH].
    apply string_eqb_true in E. congruence. }
  destruct (balance_found id db' account Hid Hsel) as [Hg Hb].
  unfold balanceOf in Hb. rewrite Hnone in Hg, Hb.
  split; [reflexivity|]. split; [exact Hsel|]. split; [exact Hg|].
  split; [exact Hb|]. split; [reflexivity|].
  intros other a Ha. unfold Db.selectAccountByIdStmt in *.
  cbn [db' Db.Accounts]. apply find_app_Some, Ha.
Qed.

Lemma new_account_is_empty_witness :
  Db.getAccountBalance (lit "a3")
    (Db.createAccount (fun _ _ => true) [] (lit "a3") (lit " rent ") twoAccounts).2
  = (Return (Num 0),
     (Db.createAccount (fun _ _ => true) [] (lit "a3") (lit " rent ") twoAccounts).2).
Proof.
  refine (proj1 (proj2 (proj2 (proj2
            (new_account_is_empty (fun _ _ => true) [] (lit "a3") (lit " rent ")
               twoAccounts _ _ _ _ _ _))))).
  - vm_compute. reflexivity.
  - split.
    + repeat constructor.
    + constructor; [|constructor].
      split; [eexists; reflexivity|]. split; [reflexivity|].
      split; [reflexivity|]. discriminate.
  - reflexivity.
  - discriminate.
Defined.

Lemma getTransactionInAccount_reads {num : Type} (accountId : jsstring)
    (db : Db.Database num) :
  (Db.getTransactionInAccount accountId db).2 = db.
Proof.
  unfold Db.getTransactionInAccount.
  destruct (negb (truthy accountId) || _); [reflexivity|].
  destruct (Db.selectAccountByIdStmt accountId db); reflexivity.
Qed.

(** X19. [getAccountWithTransactions] and [getTransactionInAccount] succeed
    and fail together, with the same exception, and neither writes. On
    success the account returned is the one stored under the identifier
    asked for, and the transactions are the same list, each of them a
    transaction of that account. *)
Theorem account_with_transactions {num : Type} (accountId : jsstring)
    (db : Db.Database num) :
  (Db.getAccountWithTransactions accountId db).2 = db
  ∧ (Db.getTransactionInAccount accountId db).2 = db
  ∧ match (Db.getAccountWithTransactions accountId db).1,
          (Db.getTransactionInAccount accountId db).1 with
    | Return a, Return transactions =>
        AccountWithTransactions.id a = accountId
        ∧ Db.selectAccountByIdStmt accountId db
          = Some {| Account.id := AccountWithTransactions.id a;
                    Account.name := AccountWithTransactions.name a |}
        ∧ AccountWithTransactions.transactions a = transactions
        ∧ Forall (fun t => Transaction.account t = accountId) transactions
    | Throw e, Throw e' => e = e'
    | _, _ => False
    end.
Proof.
  unfold Db.getAccountWithTransactions, Db.getTransactionInAccount.
  destruct (negb (truthy accountId) || (length (trim accountId) =? 0)%nat).
  { cbn [fst snd]. auto. }
  destruct (Db.selectAccountByIdStmt accountId db) as [[id name]|] eqn:Hacc;
    cbn [fst snd].
  2:{ auto. }
  split; [reflexivity|]. split; [reflexivity|].
  cbn [AccountWithTransactions.id AccountWithTransactions.name
       AccountWithTransactions.transactions Account.id Account.name].
  assert (Eid : id = accountId).
  { unfold Db.selectAccountByIdStmt in Hacc.
    apply find_some in Hacc as [_ E]. apply string_eqb_true in E. exact E. }
  split; [exact Eid|]. split; [reflexivity|]. split; [reflexivity|].
  unfold Db.selectTransactionsByAccountStmt.
  apply Forall_forall. intros t Hin. apply list_elem_of_In in Hin.
  apply filter_In in Hin as [_ E]. apply string_eqb_true in E. exact E.
Qed.

(** ** The listing of the accounts *)

Lemma insertByName_perm (a : Account.t) (l : list Account.t) :
  insertByName a l ≡ₚ a :: l.
Proof.
  induction l as [|b l IH]; simpl; [reflexivity|].
  destruct (string_leb _ _); [reflexivity|].
  rewrite IH. apply Permutation_swap.
Qed.

Lemma sortByName_perm (l : list Account.t) : sortByName l ≡ₚ l.
Proof.
  unfold sortByName. induction l as [|a l IH]; simpl; [reflexivity|].
  rewrite insertByName_perm, IH. reflexivity.
Qed.

Section AccountListing.
Context {num : Type} `{Number num}.
Variable orderByName : list Account.t → list Account.t.
Hypothesis orderByName_perm : ∀ l, orderByName l ≡ₚ l.

Lemma listed_account_found (db : Db.Database num) (a : Account.t) :
  a ∈ Db.selectAllAccountsStmt orderByName db →
  is_Some (Db.selectAccountByIdStmt (Account.id a) db).
Proof.
  unfold Db.selectAllAccountsStmt. rewrite orderByName_perm. intros Hin.
  unfold Db.selectAccountByIdStmt.
  destruct (List.find _ (Db.Accounts db)) eqn:Hf; [eauto|].
  apply list_elem_of_In in Hin.
  apply (find_none _ _ Hf) in Hin. rewrite string_eqb_refl in Hin. discriminate.
Qed.

Lemma mapAccounts_balances (db : Db.Database num) (accounts : list Account.t) :
  Forall (fun a => trim (Account.id a) ≠ []
                   ∧ is_Some (Db.selectAccountByIdStmt (Account.id a) db)) accounts →
  Db.mapAccounts
    (fun account db =>
       match Db.getAccountBalance (Account.id account) db with
       | (Return balance, db') =>
           (Return {| AccountWithBalance.id := Account.id account;
                      AccountWithBalance.name := Account.name account;
                      AccountWithBalance.balance := balance |}, db')
       | (Throw e, db') => (Throw e, db')
       end)
    accounts db
  = (Return (map (fun a => {| AccountWithBalance.id := Account.id a;
                              AccountWithBalance.name := Account.name a;
                              AccountWithBalance.balance := balanceOf (Account.id a) db |})
                 accounts), db).
Proof.
  induction 1 as [|a accounts [Hid [acc Hacc]] _ IH]; [reflexivity|].
  cbn [Db.mapAccounts map].
  rewrite (proj2 (balance_found (Account.id a) db acc Hid Hacc)).
  rewrite IH. reflexivity.
Qed.
End AccountListing.

(** X20. When no stored account has a blank identifier,
    [getAllAccountsWithBalances] succeeds without writing and returns the
    accounts in the order of [getAllAccounts], each once, each with the sum
    of the amounts of its transactions as its balance. *)
Theorem all_accounts_with_balances {num : Type} `{Number num}
    (orderByName : list Account.t → list Account.t) (db : Db.Database num) :
  (∀ l, orderByName l ≡ₚ l) →
  Forall (fun a => trim (Account.id a) ≠ []) (Db.Accounts db) →
  Db.getAllAccountsWithBalances orderByName db
  = (Return (map (fun a => {| AccountWithBalance.id := Account.id a;
                              AccountWithBalance.name := Account.name a;
                              AccountWithBalance.balance :=
                                balanceOf (Account.id a) db |})
                 (Db.selectAllAccountsStmt orderByName db)),
     db)
  ∧ Db.getAllAccounts orderByName db
    = (Return (Db.selectAllAccountsStmt orderByName db), db)
  ∧ Db.selectAllAccountsStmt orderByName db ≡ₚ Db.Accounts db.
Proof.
  intros Hperm Hids. split; [|split; [reflexivity|apply Hperm]].
  unfold Db.getAllAccountsWithBalances, Db.getAllAccounts.
  apply mapAccounts_balances.
  apply Forall_forall. intros a Hin. split.
  - rewrite Forall_forall in Hids. apply Hids.
    unfold Db.selectAllAccountsStmt in Hin. rewrite Hperm in Hin. exact Hin.
  - apply (listed_account_found orderByName Hperm db a Hin).
Qed.

Lemma all_accounts_with_balances_witness :
  Db.getAllAccountsWithBalances sortByName twoAccounts
  = (Return [ {| AccountWithBalance.id := lit "a2";
                 AccountWithBalance.name := lit "cash";
                 AccountWithBalance.balance := Num 0 |};
              {| AccountWithBalance.id := lit "a1";
                 AccountWithBalance.name := lit "savings";
                 AccountWithBalance.balance := Num 5000 |} ],
     twoAccounts).
Proof.
  refine (proj1 (all_accounts_with_balances sortByName twoAccounts
                   sortByName_perm _)).
  repeat constructor; discriminate.
Defined.

(** * The persisted bot *)

Lemma number_mul_sign (text : jsstring) (tx : ParsedTransaction.t) :
  Utils.parseMessage text = Return (Some tx) →
  number_mul (ParsedTransaction.amount tx)
    (match ParsedTransaction.sign tx with
     | Negative => Num (-1)
     | Positive => Num 1
     end)
  = signedAmount tx.
Proof.
  intros Htx. apply parseMessage_result in Htx as (_ & _ & d & _ & Hd).
  unfold signedAmount. rewrite Hd. apply binary64_mul_sign.
Qed.

Lemma createTransaction_accepted {num : Type} `{Number num}
    (acceptsTransaction : Db.Database num → Transaction.t num → bool)
    (constraintFailure id : jsstring) (params : CreateTransactionParams.t num)
    (db : Db.Database num) (account : Account.t) :
  trim (CreateTransactionParams.label params) ≠ [] →
  num_isNaN (CreateTransactionParams.amount params) = false →
  trim (CreateTransactionParams.accountId params) ≠ [] →
  Db.selectAccountByIdStmt (CreateTransactionParams.accountId params) db
  = Some account →
  acceptsTransaction db
    {| Transaction.id := id;
       Transaction.label := trim (CreateTransactionParams.label params);
       Transaction.amount := CreateTransactionParams.amount params;
       Transaction.account := CreateTransactionParams.accountId params |} = true →
  Db.createTransaction acceptsTransaction constraintFailure id params db
  = (Return {| Transaction.id := id;
               Transaction.label := trim (CreateTransactionParams.label params);
               Transaction.amount := CreateTransactionParams.amount params;
               Transaction.account := CreateTransactionParams.accountId params |},
     {| Db.Accounts := Db.Accounts db;
        Db.Transactions :=
          Db.Transactions db
          ++ [ {| Transaction.id := id;
                  Transaction.label := trim (CreateTransactionParams.label params);
                  Transaction.amount := CreateTransactionParams.amount params;
                  Transaction.account := CreateTransactionParams.accountId params |} ] |}).
Proof.
  intros Hl Hn Hid Hacc Hok. unfold Db.createTransaction, Db.insertTransactionStmt.
  rewrite (valid_text _ Hl), Hn, (valid_text _ Hid), Hacc, Hok. reflexivity.
Qed.

Lemma createTransaction_missing {num : Type} `{Number num}
    (acceptsTransaction : Db.Database num → Transaction.t num → bool)
    (constraintFailure id : jsstring) (params : CreateTransactionParams.t num)
    (db : Db.Database num) :
  trim (CreateTransactionParams.label params) ≠ [] →
  num_isNaN (CreateTransactionParams.amount params) = false →
  trim (CreateTransactionParams.accountId params) ≠ [] →
  Db.selectAccountByIdStmt (CreateTransactionParams.accountId params) db = None →
  Db.createTransaction acceptsTransaction constraintFailure id params db
  = (Throw (Error (lit "Account with ID "
                     ++ CreateTransactionParams.accountId params
                     ++ lit " does not exist")), db).
Proof.
  intros Hl Hn Hid Hacc. unfold Db.createTransaction.
  rewrite (valid_text _ Hl), Hn, (valid_text _ Hid), Hacc. reflexivity.
Qed.

Lemma nonblank_nonempty (s : jsstring) : trim s ≠ [] → ∃ a s', s = a :: s'.
Proof. destruct s as [|a s']; [intros E; exfalso; apply E; reflexivity|eauto]. Qed.

Lemma signedAmount_not_NaN (text : jsstring) (tx : ParsedTransaction.t) :
  Utils.parseMessage text = Return (Some tx) →
  number_isNaN (signedAmount tx) = false.
Proof.
  intros Htx. apply parseMessage_result in Htx as (_ & _ & d & _ & Hd).
  unfold signedAmount. rewrite Hd.
  pose proof (binary64_not_NaN d) as Hn.
  destruct (ParsedTransaction.sign tx), (binary64 d); try discriminate; reflexivity.
Qed.

Section BotFacts.
Variable acceptsAccount : Db.Database number → Account.t → bool.
Variable acceptsTransaction : Db.Database number → Transaction.t number → bool.
Variable constraintFailure : jsstring.
Variable orderByName : list Account.t → list Account.t.
Variable isUserWhiteListed : jsstring → bool.
Variable toLocaleString : number → jsstring.

Abbreviation onText :=
  (Bot.onText acceptsAccount acceptsTransaction constraintFailure toLocaleString).

(** The text handler on a transaction, for a selection that is not
    blank: the transaction goes to [createTransaction] with its signed
    amount. *)
Lemma onText_transaction id ctx st accountId tx :
  Bot.awaitingAccountCreation st = false →
  Bot.selectedAccountId st = Some accountId → trim accountId ≠ [] →
  Utils.parseMessage (Bot.message_text ctx) = Return (Some tx) →
  onText id ctx st
  = match Db.createTransaction acceptsTransaction constraintFailure id
            {| CreateTransactionParams.label := ParsedTransaction.label tx;
               CreateTransactionParams.amount := signedAmount tx;
               CreateTransactionParams.accountId := accountId |}
            (Bot.store st) with
    | (Throw e, db) =>
        {| Bot.state := Bot.setStore db st; Bot.calls := []; Bot.thrown := Some e |}
    | (Return _, db) =>
        match Db.getTransactionInAccount accountId db with
        | (Return transactions, db') =>
            Bot.finished (Bot.setStore db' st)
              [Bot.Reply (Utils.parseTransactions toLocaleString transactions) None]
        | (Throw e, db') =>
            {| Bot.state := Bot.setStore db' st; Bot.calls := [];
               Bot.thrown := Some e |}
        end
    end.
Proof.
  intros Hw Hsel Hid Htx. unfold Bot.onText. rewrite Hw, Hsel.
  destruct (nonblank_nonempty _ Hid) as (a & s' & ->).
  rewrite Htx, (number_mul_sign _ _ Htx). reflexivity.
Qed.
End BotFacts.

(** X21. A text message that parses to a transaction, sent while an
    existing account is selected and no name is awaited, stores one
    transaction for that account, with the label read and the amount signed
    by the sign read, and is answered with the report of the transactions of
    the account, the new one last; the selection stays. *)
Theorem text_records_transaction
    (acceptsAccount : Db.Database number → Account.t → bool)
    (acceptsTransaction : Db.Database number → Transaction.t number → bool)
    (constraintFailure : jsstring) (toLocaleString : number → jsstring)
    (id : jsstring) (ctx : Bot.Context) (st : Bot.State)
    (accountId : jsstring) (account : Account.t) (tx : ParsedTransaction.t) :
  Bot.awaitingAccountCreation st = false →
  Bot.selectedAccountId st = Some accountId → trim accountId ≠ [] →
  Db.selectAccountByIdStmt accountId (Bot.store st) = Some account →
  Utils.parseMessage (Bot.message_text ctx) = Return (Some tx) →
  let row := {| Transaction.id := id;
                Transaction.label := ParsedTransaction.label tx;
                Transaction.amount := signedAmount tx;
                Transaction.account := accountId |} in
  acceptsTransaction (Bot.store st) row = true →
  Bot.onText acceptsAccount acceptsTransaction constraintFailure toLocaleString
             id ctx st
  = Bot.finished
      (Bot.setStore {| Db.Accounts := Db.Accounts (Bot.store st);
                       Db.Transactions := Db.Transactions (Bot.store st) ++ [row] |}
                    st)
      [Bot.Reply
         (Utils.parseTransactions toLocaleString
            (Db.selectTransactionsByAccountStmt accountId (Bot.store st) ++ [row]))
         None].
Proof.
  intros Hw Hsel Hid Hacc Htx row Hok.
  rewrite (onText_transaction acceptsAccount acceptsTransaction constraintFailure
             toLocaleString id ctx st accountId tx Hw Hsel Hid Htx).
  destruct (parseMessage_result _ _ Htx) as (Hlabel & _ & _).
  pose proof (signedAmount_not_NaN _ _ Htx) as Hz.
  assert (Etrim : trim (ParsedTransaction.label tx) = ParsedTransaction.label tx)
    by (apply trim_of_trimmed, Hlabel).
  assert (Hnn : num_isNaN (signedAmount tx) = false) by exact Hz.
  pose proof (createTransaction_accepted acceptsTransaction constraintFailure id
                {| CreateTransactionParams.label := ParsedTransaction.label tx;
                   CreateTransactionParams.amount := signedAmount tx;
                   CreateTransactionParams.accountId := accountId |}
                (Bot.store st) account) as Hc.
  cbn [CreateTransactionParams.label CreateTransactionParams.amount
       CreateTransactionParams.accountId] in Hc.
  rewrite Etrim in Hc.
  assert (Hne : ParsedTransaction.label tx ≠ [])
    by (rewrite <- Etrim; apply trimmed_nonblank, Hlabel).
  rewrite (Hc Hne Hnn Hid Hacc Hok). clear Hc.
  fold row.
  set (db' := {| Db.Accounts := Db.Accounts (Bot.store st) |}).
  assert (Hacc' : Db.selectAccountByIdStmt accountId db' = Some account) by exact Hacc.
  rewrite (proj1 (balance_found accountId db' account Hid Hacc')).
  unfold Db.selectTransactionsByAccountStmt at 1. cbn [db' Db.Transactions].
  rewrite List.filter_app. cbn [List.filter row Transaction.account].
  rewrite string_eqb_refl. reflexivity.
Qed.

Lemma text_records_transaction_witness :
  Bot.onText (fun _ _ => true) (fun _ _ => true) [] decimal (lit "t1")
             (textOf (lit "rent -3000")) savingsSelected
  = Bot.finished
      (Bot.setStore
         {| Db.Accounts := Db.Accounts twoAccounts;
            Db.Transactions :=
              Db.Transactions twoAccounts
              ++ [ {| Transaction.id := lit "t1"; Transaction.label := lit "rent";
                      Transaction.amount := Num (-3000);
                      Transaction.account := lit "a1" |} ] |}
         savingsSelected)
      [Bot.Reply
         (Utils.parseTransactions decimal
            (Db.selectTransactionsByAccountStmt (lit "a1") twoAccounts
             ++ [ {| Transaction.id := lit "t1"; Transaction.label := lit "rent";
                     Transaction.amount := Num (-3000);
                     Transaction.account := lit "a1" |} ]))
         None].
Proof.
  refine (text_records_transaction (fun _ _ => true) (fun _ _ => true) [] decimal
            (lit "t1") (textOf (lit "rent -3000")) savingsSelected (lit "a1")
            {| Account.id := lit "a1"; Account.name := lit "savings" |}
            {| ParsedTransaction.label := lit "rent";
               ParsedTransaction.sign := Negative;
               ParsedTransaction.amount := Num 3000 |}
            eq_refl eq_refl _ eq_refl _ eq_refl).
  - discriminate.
  - vm_compute. reflexivity.
Defined.

(** X22. While the bot awaits the name of an account, the next text
    message is taken as that name, whatever it says: no transaction is
    stored, the selection stays and the bot stops awaiting. A blank text
    leaves the store as it was and is answered with the failure; a text the
    table accepts adds one account under the trimmed text, and the answer
    quotes the text as it was sent. *)
Theorem awaited_name_is_taken
    (acceptsAccount : Db.Database number → Account.t → bool)
    (acceptsTransaction : Db.Database number → Transaction.t number → bool)
    (constraintFailure : jsstring) (toLocaleString : number → jsstring)
    (id : jsstring) (ctx : Bot.Context) (st : Bot.State) :
  Bot.awaitingAccountCreation st = true →
  Bot.awaitingAccountCreation
    (Bot.state (Bot.onText acceptsAccount acceptsTransaction constraintFailure
                           toLocaleString id ctx st)) = false
  ∧ Bot.selectedAccountId
      (Bot.state (Bot.onText acceptsAccount acceptsTransaction constraintFailure
                             toLocaleString id ctx st))
    = Bot.selectedAccountId st
  ∧ Db.Transactions
      (Bot.store (Bot.state (Bot.onText acceptsAccount acceptsTransaction
                                        constraintFailure toLocaleString id ctx st)))
    = Db.Transactions (Bot.store st)
  ∧ Bot.thrown (Bot.onText acceptsAccount acceptsTransaction constraintFailure
                           toLocaleString id ctx st) = None
  ∧ (trim (Bot.message_text ctx) = [] →
     Bot.store (Bot.state (Bot.onText acceptsAccount acceptsTransaction
                                      constraintFailure toLocaleString id ctx st))
     = Bot.store st
     ∧ Bot.calls (Bot.onText acceptsAccount acceptsTransaction constraintFailure
                             toLocaleString id ctx st)
       = [Bot.Reply (Main.crossMark ++ lit " Failed to create account!") None])
  ∧ (trim (Bot.message_text ctx) ≠ [] →
     acceptsAccount (Bot.store st)
       {| Account.id := id; Account.name := trim (Bot.message_text ctx) |} = true →
     Db.Accounts
       (Bot.store (Bot.state (Bot.onText acceptsAccount acceptsTransaction
                                         constraintFailure toLocaleString id ctx st)))
     = Db.Accounts (Bot.store st)
       ++ [ {| Account.id := id; Account.name := trim (Bot.message_text ctx) |} ]
     ∧ Bot.calls (Bot.onText acceptsAccount acceptsTransaction constraintFailure
                             toLocaleString id ctx st)
       = [Bot.Reply (Main.checkMark ++ lit " Account " ++ [quote]
                       ++ Bot.message_text ctx ++ [quote]
                       ++ lit " created successfully.") None]).
Proof.
  intros Hw. unfold Bot.onText. rewrite Hw.
  destruct (Db.createAccount acceptsAccount constraintFailure id
              (Bot.message_text ctx) (Bot.store st)) as [created db] eqn:Hc.
  cbn [Bot.finished Bot.state Bot.calls Bot.thrown Bot.awaitingAccountCreation
       Bot.selectedAccountId Bot.store].
  split; [reflexivity|]. split; [reflexivity|].
  destruct created as [account|e].
  - apply createAccount_inv in Hc as (Hne & -> & ->). cbn [Db.Transactions Db.Accounts].
    split; [reflexivity|]. split; [reflexivity|]. split; [congruence|].
    intros _ _. split; reflexivity.
  - pose proof (createAccount_throw_unchanged _ _ _ _ _ _ _ Hc) as ->.
    split; [reflexivity|]. split; [reflexivity|]. split; [split; reflexivity|].
    intros Hne Hok. exfalso.
    unfold Db.createAccount, Db.insertAccountStmt in Hc.
    rewrite (valid_text _ Hne), Hok in Hc. discriminate.
Qed.

Lemma awaited_name_is_taken_witness :
  let st := {| Bot.store := twoAccounts; Bot.selectedAccountId := Some (lit "a1");
               Bot.awaitingAccountCreation := true |} in
  Db.Transactions
    (Bot.store (Bot.state (Bot.onText (fun _ _ => true) (fun _ _ => true) [] decimal
                                      (lit "a3") (textOf (lit "rent -3000")) st)))
  = Db.Transactions twoAccounts
  ∧ Db.Accounts
      (Bot.store (Bot.state (Bot.onText (fun _ _ => true) (fun _ _ => true) []
                                        decimal (lit "a3")
                                        (textOf (lit "rent -3000")) st)))
    = Db.Accounts twoAccounts
      ++ [ {| Account.id := lit "a3"; Account.name := lit "rent -3000" |} ].
Proof.
  intros st.
  destruct (awaited_name_is_taken (fun _ _ => true) (fun _ _ => true) [] decimal
              (lit "a3") (textOf (lit "rent -3000")) st eq_refl)
    as (_ & _ & Ht & _ & _ & Ha).
  split; [exact Ht|]. apply Ha; [discriminate|reflexivity].
Defined.

(** X23. A text message sent while no name is awaited changes nothing
    when no account is selected or when the text is no transaction: the
    store, the selection and the flag stay, nothing is thrown, and the
    answer says which of the two it was. *)
Theorem rejected_text_changes_nothing
    (acceptsAccount : Db.Database number → Account.t → bool)
    (acceptsTransaction : Db.Database number → Transaction.t number → bool)
    (constraintFailure : jsstring) (toLocaleString : number → jsstring)
    (id : jsstring) (ctx : Bot.Context) (st : Bot.State) :
  Bot.awaitingAccountCreation st = false →
  Bot.selectedAccountId st = None ∨ Bot.selectedAccountId st = Some []
  ∨ Utils.parseMessage (Bot.message_text ctx) = Return None →
  Bot.onText acceptsAccount acceptsTransaction constraintFailure toLocaleString
             id ctx st
  = Bot.finished st
      [Bot.Reply
         match Bot.selectedAccountId st with
         | None | Some [] => lit "No account selected"
         | Some (_ :: _) => invalidFormat
         end
         None].
Proof.
  intros Hw Hcase. unfold Bot.onText. rewrite Hw.
  destruct (Bot.selectedAccountId st) as [[|a s]|] eqn:Hsel; [reflexivity| |reflexivity].
  destruct Hcase as [?|[?|Hp]]; [discriminate|discriminate|].
  rewrite Hp. reflexivity.
Qed.

Lemma rejected_text_changes_nothing_witness :
  Bot.onText (fun _ _ => true) (fun _ _ => true) [] decimal (lit "t1")
             (textOf (lit "not a transaction")) savingsSelected
  = Bot.finished savingsSelected [Bot.Reply invalidFormat None].
Proof.
  refine (rejected_text_changes_nothing (fun _ _ => true) (fun _ _ => true) []
            decimal (lit "t1") (textOf (lit "not a transaction")) savingsSelected
            eq_refl _).
  right. right. vm_compute. reflexivity.
Defined.

Lemma find_perm_None {A} (p : A → bool) (l l' : list A) :
  l' ≡ₚ l → List.find p l = None → List.find p l' = None.
Proof.
  intros Hperm Hnone.
  destruct (List.find p l') as [x|] eqn:Hf; [|reflexivity].
  apply find_some in Hf as [Hin Hp].
  apply list_elem_of_In in Hin. rewrite Hperm in Hin. apply list_elem_of_In in Hin.
  rewrite (find_none _ _ Hnone x Hin) in Hp. discriminate.
Qed.

Lemma find_perm_Some {A} (p : A → bool) (l l' : list A) (x : A) :
  l' ≡ₚ l → List.find p l = Some x →
  ∃ y, List.find p l' = Some y ∧ y ∈ l ∧ p y = true.
Proof.
  intros Hperm Hsome.
  destruct (List.find p l') as [y|] eqn:Hf.
  - exists y. split; [reflexivity|].
    apply find_some in Hf as [Hin Hp]. split; [|exact Hp].
    rewrite <- Hperm. apply list_elem_of_In. exact Hin.
  - exfalso. apply find_some in Hsome as [Hin Hp].
    apply list_elem_of_In in Hin. rewrite <- Hperm in Hin.
    apply list_elem_of_In in Hin.
    rewrite (find_none _ _ Hf x Hin) in Hp. discriminate.
Qed.

(** X24. Selecting an account records the identifier of the button
    whether or not an account is stored under it, and never writes to the
    store. For a stored identifier the answer names an account stored
    under it. For an identifier that is not stored the answer is that the
    account was not found, yet the identifier stays selected, and a later
    text message that parses to a transaction is not answered:
    [createTransaction] throws that the account does not exist and the
    handler lets the exception escape, with nothing stored. *)
Theorem selection_is_not_checked
    (acceptsAccount : Db.Database number → Account.t → bool)
    (acceptsTransaction : Db.Database number → Transaction.t number → bool)
    (constraintFailure : jsstring)
    (orderByName : list Account.t → list Account.t)
    (toLocaleString : number → jsstring)
    (ctx : Bot.Context) (st : Bot.State) :
  (∀ l, orderByName l ≡ₚ l) →
  Bot.state (Bot.onSelectAccount orderByName ctx st)
  = {| Bot.store := Bot.store st;
       Bot.selectedAccountId := Some (Bot.match_1 ctx);
       Bot.awaitingAccountCreation := Bot.awaitingAccountCreation st |}
  ∧ Bot.thrown (Bot.onSelectAccount orderByName ctx st) = None
  ∧ (∀ account,
       Db.selectAccountByIdStmt (Bot.match_1 ctx) (Bot.store st) = Some account →
       ∃ found,
         found ∈ Db.Accounts (Bot.store st)
         ∧ Account.id found = Bot.match_1 ctx
         ∧ Bot.calls (Bot.onSelectAccount orderByName ctx st)
           = [Bot.AnswerCbQuery;
              Bot.Reply (Main.checkMark ++ lit " Account " ++ [quote]
                           ++ Account.name found ++ [quote]
                           ++ lit " selected successfully!") None])
  ∧ (Db.selectAccountByIdStmt (Bot.match_1 ctx) (Bot.store st) = None →
     Bot.calls (Bot.onSelectAccount orderByName ctx st)
     = [Bot.AnswerCbQuery;
        Bot.Reply (Main.crossMark ++ lit " Account not found.") None]
     ∧ ∀ id ctx' tx,
         Bot.awaitingAccountCreation st = false →
         trim (Bot.match_1 ctx) ≠ [] →
         Utils.parseMessage (Bot.message_text ctx') = Return (Some tx) →
         Bot.onText acceptsAccount acceptsTransaction constraintFailure
                    toLocaleString id ctx'
                    (Bot.state (Bot.onSelectAccount orderByName ctx st))
         = {| Bot.state := Bot.state (Bot.onSelectAccount orderByName ctx st);
              Bot.calls := [];
              Bot.thrown :=
                Some (Error (lit "Account with ID " ++ Bot.match_1 ctx
                               ++ lit " does not exist")) |}).
Proof.
  intros Hperm.
  assert (Hst : Bot.state (Bot.onSelectAccount orderByName ctx st)
                = {| Bot.store := Bot.store st;
                     Bot.selectedAccountId := Some (Bot.match_1 ctx);
                     Bot.awaitingAccountCreation := Bot.awaitingAccountCreation st |}
                ∧ Bot.thrown (Bot.onSelectAccount orderByName ctx st) = None).
  { unfold Bot.onSelectAccount, Db.getAllAccounts. cbn [Bot.store].
    destruct (List.find _ _); split; reflexivity. }
  destruct Hst as [Hst Hth]. split; [exact Hst|]. split; [exact Hth|]. split.
  - intros account Hacc. unfold Db.selectAccountByIdStmt in Hacc.
    destruct (find_perm_Some _ _ (orderByName (Db.Accounts (Bot.store st))) _
                (Hperm _) Hacc) as (found & Hf & Hin & Hp).
    exists found. split; [exact Hin|]. split; [apply string_eqb_true, Hp|].
    unfold Bot.onSelectAccount, Db.getAllAccounts, Db.selectAllAccountsStmt.
    cbn [Bot.store]. rewrite Hf. reflexivity.
  - intros Hnone. split.
    + unfold Db.selectAccountByIdStmt in Hnone.
      pose proof (find_perm_None _ _ (orderByName (Db.Accounts (Bot.store st)))
                    (Hperm _) Hnone) as Hf.
      unfold Bot.onSelectAccount, Db.getAllAccounts, Db.selectAllAccountsStmt.
      cbn [Bot.store]. rewrite Hf. reflexivity.
    + intros id ctx' tx Hw Hid Htx. rewrite Hst.
      set (st1 := {| Bot.store := Bot.store st |}).
      rewrite (onText_transaction acceptsAccount acceptsTransaction constraintFailure
                 toLocaleString id ctx' st1 (Bot.match_1 ctx) tx Hw eq_refl Hid Htx).
      cbn [st1 Bot.store].
      destruct (parseMessage_result _ _ Htx) as (Hlabel & _ & _).
      pose proof (signedAmount_not_NaN _ _ Htx) as Hz.
      rewrite createTransaction_missing;
        cbn [CreateTransactionParams.label CreateTransactionParams.amount
             CreateTransactionParams.accountId]; auto.
      * apply trimmed_nonblank, Hlabel.
Qed.

Lemma selection_is_not_checked_witness :
  let ctx := {| Bot.from_id := Some 7%Z; Bot.message_text := [];
                Bot.match_1 := lit "gone" |} in
  Bot.selectedAccountId (Bot.state (Bot.onSelectAccount sortByName ctx savingsSelected))
  = Some (lit "gone")
  ∧ Bot.thrown
      (Bot.onText (fun _ _ => true) (fun _ _ => true) [] decimal (lit "t1")
                  (textOf (lit "rent -3000"))
                  (Bot.state (Bot.onSelectAccount sortByName ctx savingsSelected)))
    = Some (Error (lit "Account with ID gone does not exist")).
Proof.
  intros ctx.
  destruct (selection_is_not_checked (fun _ _ => true) (fun _ _ => true) []
              sortByName decimal ctx savingsSelected sortByName_perm)
    as (Hst & _ & _ & Hnone).
  split; [rewrite Hst; reflexivity|].
  destruct (Hnone eq_refl) as [_ Hthrow].
  rewrite (Hthrow (lit "t1") (textOf (lit "rent -3000"))
             {| ParsedTransaction.label := lit "rent";
                ParsedTransaction.sign := Negative;
                ParsedTransaction.amount := Num 3000 |} eq_refl).
  - reflexivity.
  - discriminate.
  - vm_compute. reflexivity.
Defined.

Section BotRuns.
Variable acceptsAccount : Db.Database number → Account.t → bool.
Variable acceptsTransaction : Db.Database number → Transaction.t number → bool.
Variable constraintFailure : jsstring.
Variable orderByName : list Account.t → list Account.t.
Variable isUserWhiteListed : jsstring → bool.
Variable toLocaleString : number → jsstring.

Abbreviation handler :=
  (handleBot acceptsAccount acceptsTransaction constraintFailure orderByName
             isUserWhiteListed toLocaleString).

Lemma refused (u : BotUpdate) (ctx : Bot.Context) (st : Bot.State) :
  is_Some (Bot.from_id ctx) → isUserWhiteListed (senderText ctx) = false →
  handler u ctx st = Bot.finished st [Bot.Reply Bot.notWhitelisted None].
Proof.
  intros [uid Hfrom] Hno. unfold senderText in Hno.
  destruct u; cbn [handleBot]; unfold Bot.use, Bot.onStart;
    rewrite Hfrom in *; rewrite Hno; reflexivity.
Qed.

Lemma handler_store (u : BotUpdate) (ctx : Bot.Context) (st : Bot.State) :
  consistent (Bot.store st) → consistent (Bot.store (Bot.state (handler u ctx st))).
Proof.
  intros Hk.
  assert (Huse : ∀ next,
            consistent (Bot.store (Bot.state (next ctx st))) →
            consistent (Bot.store (Bot.state (Bot.use isUserWhiteListed next ctx st)))).
  { intros next Hn. unfold Bot.use. destruct (isUserWhiteListed _); assumption. }
  destruct u; cbn [handleBot].
  - unfold Bot.onStart. destruct (Bot.from_id ctx); [|exact Hk].
    destruct (isUserWhiteListed _); exact Hk.
  - apply Huse. exact Hk.
  - apply Huse. unfold Bot.onSelectAccount, Db.getAllAccounts. cbn [Bot.store].
    destruct (List.find _ _); exact Hk.
  - apply Huse. exact Hk.
  - apply Huse. unfold Bot.onText.
    destruct (Bot.awaitingAccountCreation st).
    { pose proof (consistent_createAccount acceptsAccount constraintFailure id
                    (Bot.message_text ctx) (Bot.store st) Hk) as Hc.
      destruct (Db.createAccount _ _ _ _ _) as [created db]. exact Hc. }
    destruct (Bot.selectedAccountId st) as [[|a s]|]; [exact Hk| |exact Hk].
    destruct (Utils.parseMessage (Bot.message_text ctx)) as [[tx|]|e];
      [|exact Hk|exact Hk].
    match goal with
    | |- context [Db.createTransaction _ _ _ ?params _] =>
        pose proof (consistent_createTransaction acceptsTransaction
                      constraintFailure id params (Bot.store st) Hk) as Hc;
        destruct (Db.createTransaction acceptsTransaction constraintFailure id
                    params (Bot.store st)) as [[created|e] db]
    end; cbn [snd] in Hc; [|exact Hc].
    pose proof (getTransactionInAccount_reads (a :: s) db) as Hr.
    destruct (Db.getTransactionInAccount (a :: s) db) as [[ts|e] db'];
      cbn [snd] in Hr; subst db'; exact Hc.
Qed.
End BotRuns.

(** X25. Updates from senders who are not whitelisted change nothing:
    each is answered with the refusal alone, and after any sequence of them
    the store, the selection and the flag are as they were. *)
Theorem not_whitelisted_changes_nothing
    (acceptsAccount : Db.Database number → Account.t → bool)
    (acceptsTransaction : Db.Database number → Transaction.t number → bool)
    (constraintFailure : jsstring)
    (orderByName : list Account.t → list Account.t)
    (isUserWhiteListed : jsstring → bool)
    (toLocaleString : number → jsstring)
    (updates : list (BotUpdate * Bot.Context)) (st : Bot.State) :
  Forall (fun u => is_Some (Bot.from_id u.2)
                   ∧ isUserWhiteListed (senderText u.2) = false) updates →
  runBot acceptsAccount acceptsTransaction constraintFailure orderByName
         isUserWhiteListed toLocaleString updates st = st
  ∧ Forall (fun u =>
              handleBot acceptsAccount acceptsTransaction constraintFailure
                        orderByName isUserWhiteListed toLocaleString u.1 u.2 st
              = Bot.finished st [Bot.Reply Bot.notWhitelisted None])
           updates.
Proof.
  intros Hall. split.
  - unfold runBot. induction Hall as [|[u ctx] updates [Hfrom Hno] _ IH];
      [reflexivity|].
    cbn [fold_left fst snd] in *. rewrite refused by assumption. exact IH.
  - eapply Forall_impl; [apply Hall|]. intros [u ctx] [Hfrom Hno].
    apply refused; assumption.
Qed.

Lemma not_whitelisted_changes_nothing_witness :
  runBot (fun _ _ => true) (fun _ _ => true) [] sortByName
         (fun id => string_eqb id (lit "42")) decimal
         [ (CreateAccountAction, textOf []);
           (TextMessage (lit "a3"), textOf (lit "mine"));
           (TextMessage (lit "t1"), textOf (lit "rent -3000")) ]
         savingsSelected
  = savingsSelected.
Proof.
  refine (proj1 (not_whitelisted_changes_nothing (fun _ _ => true) (fun _ _ => true)
                   [] sortByName (fun id => string_eqb id (lit "42")) decimal
                   _ savingsSelected _)).
  repeat constructor; eexists; reflexivity.
Defined.

(** X26. Whatever updates the persisted bot answers, and whoever sends
    them, a consistent store stays consistent: every account keeps a
    trimmed, non-empty name and every transaction a trimmed, non-empty
    label, an amount that is not [NaN] and an existing account. *)
Theorem bot_keeps_store_consistent
    (acceptsAccount : Db.Database number → Account.t → bool)
    (acceptsTransaction : Db.Database number → Transaction.t number → bool)
    (constraintFailure : jsstring)
    (orderByName : list Account.t → list Account.t)
    (isUserWhiteListed : jsstring → bool)
    (toLocaleString : number → jsstring)
    (updates : list (BotUpdate * Bot.Context)) (st : Bot.State) :
  consistent (Bot.store st) →
  consistent
    (Bot.store (runBot acceptsAccount acceptsTransaction constraintFailure
                       orderByName isUserWhiteListed toLocaleString updates st)).
Proof.
  unfold runBot. revert st.
  induction updates as [|[u ctx] updates IH]; intros st Hk; [exact Hk|].
  cbn [fold_left fst snd]. apply IH. apply handler_store, Hk.
Qed.

Lemma bot_keeps_store_consistent_witness :
  consistent
    (Bot.store
       (runBot (fun _ _ => true) (fun _ _ => true) [] sortByName (fun _ => true)
               decimal
               [ (CreateAccountAction, textOf []);
                 (TextMessage (lit "a3"), textOf (lit " rent "));
                 (TextMessage (lit "t1"), textOf (lit "march -3000")) ]
               savingsSelected)).
Proof.
  refine (bot_keeps_store_consistent (fun _ _ => true) (fun _ _ => true) []
            sortByName (fun _ => true) decimal _ savingsSelected _).
  split.
  - repeat constructor.
  - constructor; [|constructor].
    split; [eexists; reflexivity|]. split; [reflexivity|]. split; [reflexivity|].
    discriminate.
Defined.

(** ** The lines of the persisted report *)

Lemma join_rows (rows : list jsstring) (rest : jsstring) :
  rows ≠ [] → Forall (fun l => LF ∉ l) rows →
  split LF (join [LF] rows ++ LF :: rest) = rows ++ split LF rest.
Proof.
  intros Hne Hrows. induction Hrows as [|row rows Hrow Hrows IH]; [congruence|].
  destruct rows as [|row' rows].
  - cbn [join app]. rewrite split_app by exact Hrow. reflexivity.
  - change (join [LF] (row :: row' :: rows))
      with (row ++ [LF] ++ join [LF] (row' :: rows)).
    rewrite <- !app_assoc. cbn [app]. rewrite split_app by exact Hrow.
    rewrite IH by discriminate. reflexivity.
Qed.

(** X27. The report of the persisted bot has one line per transaction, in
    the order given, then an empty line and the line of the total, provided
    there is a transaction and neither a label nor a formatted amount holds
    a line feed. *)
Theorem persisted_report_lines (fmt : number → jsstring)
    (txs : list (Transaction.t number)) :
  txs ≠ [] → (∀ n, LF ∉ fmt n) →
  Forall (fun t => LF ∉ Transaction.label t) txs →
  split LF (Utils.parseTransactions fmt txs)
  = map (entryLine fmt) txs
    ++ [ []; totalLine fmt (total (map Transaction.amount txs)) ].
Proof.
  intros Hne Hfmt Hlabels. rewrite parseTransactions_report.
  assert (Hsigned : ∀ n, LF ∉ signedText fmt n).
  { intros [|[|]|z]; simpl; [| | |destruct (0 <=? z)%Z];
      rewrite not_elem_of_cons; (split; [discriminate|apply Hfmt]). }
  assert (Htotal : ∀ n, LF ∉ totalLine fmt n).
  { intros n. unfold totalLine. rewrite !not_elem_of_app.
    split; [|split; [|apply Hsigned]].
    - destruct (number_ge0 n).
      + apply (bool_decide_unpack (LF ∉ Utils.totalEmojiPositive)). vm_compute. exact I.
      + apply (bool_decide_unpack (LF ∉ Utils.totalEmojiNegative)). vm_compute. exact I.
    - apply (bool_decide_unpack (LF ∉ lit " Total: ")). vm_compute. exact I. }
  assert (Hrow : ∀ t, LF ∉ Transaction.label t → LF ∉ entryLine fmt t).
  { intros t Ht. unfold entryLine.
    change (lit " ") with [32]. change (lit "  ") with [32; 32].
    rewrite !not_elem_of_app, !not_elem_of_cons.
    repeat split; try assumption; try discriminate;
      try apply Hsigned; try apply not_elem_of_nil.
    destruct (number_ge0 (Transaction.amount t)).
    - apply (bool_decide_unpack (LF ∉ Utils.emojiPositive)). vm_compute. exact I.
    - apply (bool_decide_unpack (LF ∉ Utils.emojiNegative)). vm_compute. exact I. }
  change ([LF; LF] ++ totalLine fmt (total (map Transaction.amount txs)))
    with (LF :: [] ++ LF :: totalLine fmt (total (map Transaction.amount txs))).
  rewrite join_rows.
  - rewrite split_app by apply not_elem_of_nil.
    rewrite split_without by apply Htotal. reflexivity.
  - destruct txs; [congruence|discriminate].
  - apply Forall_map. eapply Forall_impl; [apply Hlabels|]. exact Hrow.
Qed.

Lemma persisted_report_lines_witness :
  split LF
    (Utils.parseTransactions decimal
       [ {| Transaction.id := lit "t1"; Transaction.label := lit "milk";
            Transaction.amount := Num (-25); Transaction.account := lit "a1" |};
         {| Transaction.id := lit "t2"; Transaction.label := lit "bread";
            Transaction.amount := Num (-15); Transaction.account := lit "a1" |} ])
  = [ Utils.emojiNegative ++ lit " -25  " ++ [quote] ++ lit "milk" ++ [quote];
      Utils.emojiNegative ++ lit " -15  " ++ [quote] ++ lit "bread" ++ [quote];
      [];
      Utils.totalEmojiNegative ++ lit " Total: -40" ].
Proof.
  refine (persisted_report_lines decimal _ _ _ _).
  - discriminate.
  - intros [|negative|z]; cbn [decimal].
    + apply lit_without_LF. reflexivity.
    + apply lit_without_LF. reflexivity.
    + apply digitsOf_without_LF.
  - constructor; [|constructor; [|constructor]].
    + apply (bool_decide_unpack (LF ∉ lit "milk")). vm_compute. exact I.
    + apply (bool_decide_unpack (LF ∉ lit "bread")). vm_compute. exact I.
Defined.

(** * Rendering an account without entries *)




